(** * TensorToolbox: a shallow embedding of [tensortools.py]

    The file models the [Tensor] class of [tensortools.py], its operators
    with the backward closures they install, the factories [zeros] and
    [randn], and [draw_function] with its [trace] helper.

    - numpy arrays of [dtype=float] are a shape and a row-major list of
      IEEE binary64 numbers (Rocq's primitive floats);
    - Python objects live in a heap indexed by references, so that the
      [grad] slot is mutable and operands are shared between consumers;
    - the [_backward] closures are defunctionalised: one constructor per
      [def _backward] of the source, carrying the captured variables;
    - exceptions are values of the monad, and a raise keeps the heap
      mutations made before it. *)

From Stdlib Require Import ZArith Floats.
From stdpp Require Import gmap list strings pretty.

Set Warnings "-clear-no-such-hyp".

Local Open Scope Z_scope.
Local Open Scope nat_scope.

(** ** Exceptions and results *)

(** The error kinds of the engine; every one of them is raised by the
    array layer or by Python itself, none by [tensortools.py]. *)
Inductive exn :=
| ConversionError      (* np.array(data, dtype=float) rejects the data *)
| ShapeMismatchError   (* operand shapes incompatible for an array operation *)
| UnsetGradientError   (* arithmetic on a grad slot that still holds None *)
| OperandTypeError     (* an operand of a type the array layer rejects *)
| NoSuchObject.        (* a reference outside the heap; unreachable from Python *)

Inductive result (A : Type) :=
| Ok (a : A)
| Raise (e : exn).
Arguments Ok {A} a.
Arguments Raise {A} e.

Definition result_bind {A B} (r : result A) (k : A → result B) : result B :=
  match r with
  | Ok a => k a
  | Raise e => Raise e
  end.

(** ** The array layer (numpy) *)

Module np.

Record ndarray := mk_ndarray { shape : list nat; elems : list float }.

Definition size_of (s : list nat) : nat := foldr Nat.mul 1 s.

(** Row-major (C order) index arithmetic. *)
Fixpoint unravel (s : list nat) (i : nat) : list nat :=
  match s with
  | [] => []
  | _ :: s' => (i / size_of s') :: unravel s' (i mod size_of s')
  end.

Fixpoint ravel (s idx : list nat) : nat :=
  match s, idx with
  | _ :: s', j :: idx' => j * size_of s' + ravel s' idx'
  | _, _ => 0
  end.

Definition item (a : ndarray) (idx : list nat) : float :=
  nth (ravel (shape a) idx) (elems a) nan.

Definition build (s : list nat) (f : list nat → float) : ndarray :=
  mk_ndarray s (map (λ i, f (unravel s i)) (seq 0 (size_of s))).

(** Broadcasting of two shapes, aligned on the trailing axis: two sizes
    are compatible when they are equal or one of them is 1. The lists are
    the reversed shapes. *)
Fixpoint broadcast_rev (s t : list nat) : option (list nat) :=
  match s, t with
  | [], _ => Some t
  | _, [] => Some s
  | x :: s', y :: t' =>
      if decide (x = y) then cons x <$> broadcast_rev s' t'
      else if decide (x = 1) then cons y <$> broadcast_rev s' t'
      else if decide (y = 1) then cons x <$> broadcast_rev s' t'
      else None
  end.

Definition broadcast_shapes (s t : list nat) : option (list nat) :=
  reverse <$> broadcast_rev (reverse s) (reverse t).

(** The index of an operand of shape [s] that feeds the element [idx] of
    the broadcast result: leading axes the operand lacks are dropped and
    an axis of size 1 is read at 0. *)
Definition broadcast_index (s idx : list nat) : list nat :=
  zip_with (λ d j, if decide (d = 1) then 0 else j) s
           (drop (length idx - length s) idx).

(** Elementwise binary operation ([+], [-], [*], [**] on arrays). *)
Definition zip (op : float → float → float) (a b : ndarray) : result ndarray :=
  match broadcast_shapes (shape a) (shape b) with
  | Some s =>
      Ok (build s (λ idx, op (item a (broadcast_index (shape a) idx))
                             (item b (broadcast_index (shape b) idx))))
  | None => Raise ShapeMismatchError
  end.

(** Elementwise unary operation (unary [-], [np.exp]). *)
Definition map1 (f : float → float) (a : ndarray) : ndarray :=
  mk_ndarray (shape a) (map f (elems a)).

Definition add := zip PrimFloat.add.
Definition sub := zip PrimFloat.sub.
Definition mul := zip PrimFloat.mul.
Definition neg := map1 PrimFloat.opp.

(** [a.T]: the axes in reversed order. *)
Definition T (a : ndarray) : ndarray :=
  build (reverse (shape a)) (λ idx, item a (reverse idx)).

(** [a @ b]. A 1-d left operand is a row that is dropped from the result,
    a 1-d right operand a column; leading axes are broadcast; a 0-d
    operand is rejected. The products of a row and a column are summed
    left to right. *)
Definition dot (k : nat) (f g : nat → float) : float :=
  foldl (λ acc l, PrimFloat.add acc (PrimFloat.mul (f l) (g l))) 0%float (seq 0 k).

Definition matmul (a b : ndarray) : result ndarray :=
  match reverse (shape a), reverse (shape b) with
  | [], _ | _, [] => Raise ShapeMismatchError
  | k :: ra, last_b :: rb =>
      let (n, batch_a) := match ra with [] => (1, []) | n :: r => (n, reverse r) end in
      let '(m, kb, batch_b) :=
        match rb with [] => (1, last_b, []) | kb :: r => (last_b, kb, reverse r) end in
      let sa := batch_a ++ [n; k] in
      let sb := batch_b ++ [kb; m] in
      if decide (k = kb) then
        match broadcast_shapes batch_a batch_b with
        | Some batch =>
            let full :=
              build (batch ++ [n; m]) (λ idx,
                let bi := take (length batch) idx in
                let i := nth (length batch) idx 0 in
                let j := nth (S (length batch)) idx 0 in
                dot k
                  (λ l, nth (ravel sa (broadcast_index batch_a bi ++ [i; l])) (elems a) nan)
                  (λ l, nth (ravel sb (broadcast_index batch_b bi ++ [l; j])) (elems b) nan)) in
            Ok (mk_ndarray
                  (batch ++ (match ra with [] => [] | _ => [n] end)
                         ++ (match rb with [] => [] | _ => [m] end))
                  (elems full))
        | None => Raise ShapeMismatchError
        end
      else Raise ShapeMismatchError
  end.

Definition zeros (s : list nat) : ndarray :=
  mk_ndarray s (replicate (size_of s) 0%float).

(** [np.random.randn] called with the axes of [s]: the next [size_of s] samples of the global
    generator, whose output stream is [normal] and whose position is [pos]. *)
Definition randn (normal : nat → float) (pos : nat) (s : list nat) : ndarray :=
  mk_ndarray s (map normal (seq pos (size_of s))).

End np.

(** ** Python values accepted as raw data *)

#[warnings="-register-all"]
Inductive value :=
| VInt (z : Z)
| VFloat (f : float)
| VList (l : list value)
| VArr (a : np.ndarray).

(** A Python int as a float: correctly rounded. *)
Definition Z_to_float (z : Z) : float :=
  SF2Prim (binary_normalize prec emax z 0 false).

(** [np.stack] of the rows of a nested sequence: all rows must have the
    same shape. *)
Definition stack (rows : list np.ndarray) : result np.ndarray :=
  match rows with
  | [] => Ok (np.mk_ndarray [0] [])
  | r :: _ =>
      if forallb (λ r', bool_decide (np.shape r' = np.shape r)) rows
      then Ok (np.mk_ndarray (length rows :: np.shape r) (concat (map np.elems rows)))
      else Raise ConversionError
  end.

Fixpoint sequence_results {A} (l : list (result A)) : result (list A) :=
  match l with
  | [] => Ok []
  | r :: l' =>
      result_bind r (λ a, result_bind (sequence_results l') (λ l'', Ok (a :: l'')))
  end.

(** [np.array(data, dtype=float)]. An int too large for a float is refused. *)
Fixpoint np_array (v : value) : result np.ndarray :=
  match v with
  | VInt z =>
      let f := Z_to_float z in
      if is_infinity f then Raise ConversionError else Ok (np.mk_ndarray [] [f])
  | VFloat f => Ok (np.mk_ndarray [] [f])
  | VList l => result_bind (sequence_results (map np_array l)) stack
  | VArr a => Ok a
  end.

(** [a ** v] for an array [a] and a raw exponent [v], where [np_pow] is
    the power of two floats that numpy applies elementwise. *)
Definition np_power (np_pow : float → float → float) (a : np.ndarray)
    (v : value) : result np.ndarray :=
  result_bind (np_array v) (np.zip np_pow a).

(** ** Tensor objects and the Python heap *)

(** A reference to a Tensor object: Python's object identity. *)
Abbreviation ref := nat.

(** The [label] attribute. [str(other)], the label of a coerced operand,
    is kept as the value it prints: Python's formatting of floats is not
    modelled. *)
Inductive label_t :=
| Lit (s : string)
| StrOf (v : value).

(** The function objects bound to [_backward], with the variables each
    closure captures. *)
Inductive closure :=
| Lambda_None                                  (* lambda: None *)
| Add_backward (self other out : ref)          (* __add__._backward *)
| Sub_backward (self other out : ref)          (* __sub__._backward *)
| Mul_backward (self other out : ref)          (* __mul__._backward *)
| Truediv_backward (self other out : ref)      (* __truediv__._backward *)
| Matmul_backward (self other out : ref)       (* __matmul__._backward *)
| Exp_backward (self out : ref)                (* exp._backward *)
| Neg_backward (self out : ref)                (* __neg__._backward *)
| T_backward (self out : ref).                 (* T._backward *)

Record Tensor := mk_Tensor {
  data : np.ndarray;
  label : label_t;
  requires_grad : bool;
  grad : option np.ndarray;
  _backward : closure;
  shape : list nat;
  _components : gset ref;
  _operator : string;
}.

Definition with_grad (g : option np.ndarray) (t : Tensor) : Tensor :=
  mk_Tensor (data t) (label t) (requires_grad t) g (_backward t)
            (shape t) (_components t) (_operator t).

Definition with_backward (c : closure) (t : Tensor) : Tensor :=
  mk_Tensor (data t) (label t) (requires_grad t) (grad t) c
            (shape t) (_components t) (_operator t).

(** The interpreter state: the Tensor objects by reference, and the
    position of numpy's global random generator in its output stream. *)
Record state := mk_state { heap : list Tensor; rng_pos : nat }.

(** Computations that read and write the state and may raise. *)
Definition M (A : Type) : Type := state → result A * state.

#[global] Instance M_ret : MRet M := λ A a st, (Ok a, st).
#[global] Instance M_bind : MBind M := λ A B k m st,
  match m st with
  | (Ok a, st') => k a st'
  | (Raise e, st') => (Raise e, st')
  end.

Definition lift {A} (r : result A) : M A := λ st, (r, st).

Definition alloc (t : Tensor) : M ref := λ st,
  (Ok (length (heap st)), mk_state (heap st ++ [t]) (rng_pos st)).

Definition read (r : ref) : M Tensor := λ st,
  match heap st !! r with
  | Some t => (Ok t, st)
  | None => (Raise NoSuchObject, st)
  end.

Definition write (r : ref) (f : Tensor → Tensor) : M unit := λ st,
  match heap st !! r with
  | Some _ => (Ok (), mk_state (alter f r (heap st)) (rng_pos st))
  | None => (Raise NoSuchObject, st)
  end.

Definition get_data (r : ref) : M np.ndarray := t ← read r; mret (data t).
Definition get_grad (r : ref) : M (option np.ndarray) := t ← read r; mret (grad t).
Definition get_requires_grad (r : ref) : M bool := t ← read r; mret (requires_grad t).
Definition set_grad (r : ref) (g : option np.ndarray) : M unit := write r (with_grad g).
Definition set_backward (r : ref) (c : closure) : M unit := write r (with_backward c).

(** [if b: m] *)
Definition when (b : bool) (m : M unit) : M unit := if b then m else mret ().

(** A grad slot used as the operand of unary minus, of [.T] or of [@]:
    these raise on [None]. *)
Definition as_array (g : option np.ndarray) : result np.ndarray :=
  match g with
  | Some a => Ok a
  | None => Raise UnsetGradientError
  end.

(** [a * g] for an array [a] and a grad slot [g]. numpy multiplies by
    [None] element by element: the product raises when [a] has an
    element, and is the empty array of the shape of [a] when it has
    none. *)
Definition mul_grad (a : np.ndarray) (g : option np.ndarray) : result np.ndarray :=
  match g with
  | Some b => np.mul a b
  | None =>
      if decide (np.size_of (np.shape a) = 0)
      then Ok (np.mk_ndarray (np.shape a) [])
      else Raise UnsetGradientError
  end.

(** The second operand of a binary operator. *)
Inductive operand :=
| OTensor (r : ref)
| OValue (v : value).

(** ** class Tensor *)

Module Tensor.
Section Methods.

(** The two functions of the C library that numpy applies elementwise:
    [np.exp] and the float power behind [**]. *)
Variable np_exp : float → float.
Variable np_pow : float → float → float.

(** [Tensor(data, label, requires_grad, _components, _operator)];
    [None] for [label] or [requires_grad] takes the default of the
    signature. *)
Definition __init__ (d : value) (lbl : option label_t) (rg : option bool)
    (comps : list ref) (op : string) : M ref :=
  a ← lift (np_array d);
  alloc {| data := a;
           label := default (Lit "") lbl;
           requires_grad := default false rg;
           grad := None;
           _backward := Lambda_None;
           shape := np.shape a;
           _components := list_to_set comps;
           _operator := op |}.

(** [if not isinstance(other, Tensor): other = Tensor(other, label=str(other))] *)
Definition coerce (other : operand) : M ref :=
  match other with
  | OTensor r => mret r
  | OValue v => __init__ v (Some (StrOf v)) None [] ""
  end.

Definition __add__ (self : ref) (other : operand) : M ref :=
  other ← coerce other;
  x ← get_data self;
  y ← get_data other;
  d ← lift (np.add x y);
  out ← __init__ (VArr d) None (Some true) [self; other] "+";
  set_backward out (Add_backward self other out);;
  mret out.

Definition __sub__ (self : ref) (other : operand) : M ref :=
  other ← coerce other;
  x ← get_data self;
  y ← get_data other;
  d ← lift (np.sub x y);
  out ← __init__ (VArr d) None (Some true) [self; other] "-";
  rg ← get_requires_grad self;
  when rg (set_backward out (Sub_backward self other out));;
  mret out.

Definition __mul__ (self : ref) (other : operand) : M ref :=
  other ← coerce other;
  x ← get_data self;
  y ← get_data other;
  d ← lift (np.mul x y);
  out ← __init__ (VArr d) None (Some true) [self; other] "*";
  rg ← get_requires_grad self;
  when rg (set_backward out (Mul_backward self other out));;
  mret out.

Definition __pow__ (self : ref) (other : value) : M ref :=
  x ← get_data self;
  d ← lift (np_power np_pow x other);
  e ← __init__ other (Some (StrOf other)) None [] "";
  out ← __init__ (VArr d) None (Some true) [self; e] "**";
  mret out.

Definition __truediv__ (self : ref) (other : operand) : M ref :=
  other ← coerce other;
  x ← get_data self;
  y ← get_data other;
  r ← lift (np_power np_pow y (VInt (-1)));
  d ← lift (np.mul x r);
  out ← __init__ (VArr d) None (Some true) [self; other] "/";
  rg ← get_requires_grad self;
  when rg (set_backward out (Truediv_backward self other out));;
  mret out.

Definition __matmul__ (self : ref) (other : operand) : M ref :=
  other ← coerce other;
  x ← get_data self;
  y ← get_data other;
  d ← lift (np.matmul x y);
  out ← __init__ (VArr d) None (Some true) [self; other] "@";
  rg ← get_requires_grad self;
  when rg (set_backward out (Matmul_backward self other out));;
  mret out.

Definition exp (self : ref) : M ref :=
  x ← get_data self;
  out ← __init__ (VArr (np.map1 np_exp x)) None (Some true) [self] "exp";
  rg ← get_requires_grad self;
  when rg (set_backward out (Exp_backward self out));;
  mret out.

Definition __neg__ (self : ref) : M ref :=
  x ← get_data self;
  out ← __init__ (VArr (np.neg x)) None (Some true) [self] "neg";
  rg ← get_requires_grad self;
  when rg (set_backward out (Neg_backward self out));;
  mret out.

Definition T (self : ref) : M ref :=
  x ← get_data self;
  out ← __init__ (VArr (np.T x)) None (Some true) [self] "T";
  rg ← get_requires_grad self;
  when rg (set_backward out (T_backward self out));;
  mret out.

(** Calling a [_backward] function object: the bodies of the nested
    [def _backward] of each method, statement by statement. *)
Definition call (c : closure) : M unit :=
  match c with
  | Lambda_None => mret ()
  | Add_backward self other out =>
      g ← get_grad out; set_grad self g;;
      g ← get_grad out; set_grad other g
  | Sub_backward self other out =>
      g ← get_grad out; a ← lift (as_array g); set_grad self (Some (np.neg a));;
      g ← get_grad out; a ← lift (as_array g); set_grad other (Some (np.neg a))
  | Mul_backward self other out =>
      g ← get_grad out; a ← lift (as_array g); set_grad self (Some (np.neg a));;
      g ← get_grad out; a ← lift (as_array g); set_grad other (Some (np.neg a))
  | Truediv_backward self other out =>
      (* self.grad = other.data**-1 * out.grad *)
      y ← get_data other;
      r ← lift (np_power np_pow y (VInt (-1)));
      g ← get_grad out;
      sg ← lift (mul_grad r g);
      set_grad self (Some sg);;
      (* other.grad = -self.grad * other.data**-2 * out.grad *)
      s ← get_grad self; s ← lift (as_array s);
      y ← get_data other;
      r2 ← lift (np_power np_pow y (VInt (-2)));
      p ← lift (np.mul (np.neg s) r2);
      g ← get_grad out;
      og ← lift (mul_grad p g);
      set_grad other (Some og)
  | Matmul_backward self other out =>
      (* self.grad = out.grad @ other.data.T *)
      g ← get_grad out; a ← lift (as_array g);
      y ← get_data other;
      sg ← lift (np.matmul a (np.T y));
      set_grad self (Some sg);;
      (* other.grad = self.data.T @ out.grad *)
      x ← get_data self;
      g ← get_grad out; a ← lift (as_array g);
      og ← lift (np.matmul (np.T x) a);
      set_grad other (Some og)
  | Exp_backward self out =>
      x ← get_data self;
      g ← get_grad out;
      sg ← lift (mul_grad (np.map1 np_exp x) g);
      set_grad self (Some sg)
  | Neg_backward self out =>
      g ← get_grad out; a ← lift (as_array g);
      set_grad self (Some (np.neg a))
  | T_backward self out =>
      g ← get_grad out; a ← lift (as_array g);
      set_grad self (Some (np.T a))
  end.

(** [t._backward()] *)
Definition backward (t : ref) : M unit :=
  o ← read t; call (_backward o).

End Methods.
End Tensor.

(** The two assignments of [__truediv__._backward] as array computations:
    the value of [self.grad], and the value of [other.grad] given the
    [self.grad] just assigned. *)
Definition truediv_self_grad (np_pow : float → float → float) (y : np.ndarray)
    (g : option np.ndarray) : result np.ndarray :=
  result_bind (np_power np_pow y (VInt (-1))) (λ r, mul_grad r g).

Definition truediv_other_grad (np_pow : float → float → float) (y : np.ndarray)
    (g : option np.ndarray) (sg : np.ndarray) : result np.ndarray :=
  result_bind (np_power np_pow y (VInt (-2))) (λ r2,
  result_bind (np.mul (np.neg sg) r2) (λ p, mul_grad p g)).

(** ** Factories *)

Definition zeros (shape : list nat) (label : option string)
    (requires_grad : option bool) : M ref :=
  Tensor.__init__ (VArr (np.zeros shape)) (Some (Lit (default "" label)))
                  (Some (default true requires_grad)) [] "".

Section Random.

(** The output stream of numpy's global generator. *)
Variable normal : nat → float.

Definition np_random_randn (shape : list nat) : M np.ndarray := λ st,
  (Ok (np.randn normal (rng_pos st) shape),
   mk_state (heap st) (rng_pos st + np.size_of shape)).

Definition randn (shape : list nat) (label : option string)
    (requires_grad : option bool) : M ref :=
  a ← np_random_randn shape;
  Tensor.__init__ (VArr a) (Some (Lit (default "" label)))
                  (Some (default true requires_grad)) [] "".

End Random.

(** ** [trace] of [draw_function] *)

Section Trace.

(** The order in which a [for] loop visits a Python set is not
    specified: [order] is any enumeration of the set. *)
Variable order : gset ref → list ref.

(** The heap the graph lives in. *)
Variable h : list Tensor.

Definition components (v : ref) : gset ref :=
  from_option _components ∅ (h !! v).

(** [build(v)], acting on the sets [nodes] and [edges] of the enclosing
    [trace]; [fuel] bounds the depth of the recursion. *)
Fixpoint build (fuel : nat) (v : ref) (acc : gset ref * gset (ref * ref))
    : option (gset ref * gset (ref * ref)) :=
  match fuel with
  | 0 => None
  | S fuel' =>
      if decide (v ∈ acc.1) then Some acc
      else
        foldl (λ acc component,
                 '(nodes, edges) ← acc;
                 build fuel' component (nodes, {[(component, v)]} ∪ edges))
              (Some ({[v]} ∪ acc.1, acc.2))
              (order (components v))
  end.

Definition trace (root : ref) : option (gset ref * gset (ref * ref)) :=
  build (S (length h)) root (∅, ∅).

(** Every operand of an object of the heap is an object of the heap. *)
Definition heap_closed : Prop :=
  Forall (λ t, ∀ c, c ∈ _components t → c < length h) h.

(** [v] is reachable from [root] along operand references. *)
Definition reachable (root : ref) : ref → Prop :=
  rtc (λ v c, c ∈ components v) root.

Variable root : ref.

(** The invariant of [build]: [gray] are the nodes whose loop is still
    running. Every other visited node has all its operands visited and
    all its edges recorded; only edges of the graph are recorded, and
    only reachable objects of the heap are visited. *)
Record walk_inv (gray nodes : gset ref) (edges : gset (ref * ref)) : Prop := {
  inv_done : ∀ w c, w ∈ nodes → w ∉ gray → c ∈ components w →
                    c ∈ nodes ∧ (c, w) ∈ edges;
  inv_edges : ∀ c w, (c, w) ∈ edges → w ∈ nodes ∧ c ∈ components w;
  inv_reach : ∀ w, w ∈ nodes → reachable root w;
  inv_valid : nodes ⊆ set_seq 0 (length h);
}.

Definition build_ok (fuel : nat) : Prop :=
  ∀ v gray nodes edges,
    walk_inv gray nodes edges →
    reachable root v →
    v ∈ (set_seq 0 (length h) : gset ref) →
    size (set_seq 0 (length h) ∖ nodes) < fuel →
    ∃ nodes' edges',
      build fuel v (nodes, edges) = Some (nodes', edges') ∧
      walk_inv gray nodes' edges' ∧
      nodes ⊆ nodes' ∧ edges ⊆ edges' ∧ v ∈ nodes'.

End Trace.

(** An edge with [x] at one of its ends. *)
Definition incident (x : ref) (e : ref * ref) : Prop := e.1 = x ∨ e.2 = x.

#[global] Instance incident_dec x e : Decision (incident x e).
Proof. unfold incident. apply _. Defined.

(** ** Reading the state *)

Definition grad_of (st : state) (r : ref) : option np.ndarray :=
  heap st !! r ≫= grad.
Definition data_of (st : state) (r : ref) : option np.ndarray :=
  data <$> heap st !! r.
Definition backward_of (st : state) (r : ref) : option closure :=
  _backward <$> heap st !! r.

Definition requires_grad_of (st : state) (r : ref) : option bool :=
  requires_grad <$> heap st !! r.

(** The state after a new object [t] has been created. *)
Definition push (st : state) (t : Tensor) : state :=
  mk_state (heap st ++ [t]) (rng_pos st).

(** The state after [r.grad = g]. *)
Definition assign_grad (r : ref) (g : option np.ndarray) (st : state) : state :=
  mk_state (alter (with_grad g) r (heap st)) (rng_pos st).

(** The object an operator builds: [Tensor(d, requires_grad=True,
    _components=comps, _operator=op)], with [c] bound to [_backward]. *)
Definition out_node (d : np.ndarray) (c : closure) (comps : gset ref)
    (op : string) : Tensor :=
  mk_Tensor d (Lit "") true None c (np.shape d) comps op.

(** The leaf a non-Tensor operand [v] is coerced into. *)
Definition coerced_leaf (v : value) (a : np.ndarray) : Tensor :=
  mk_Tensor a (StrOf v) false None Lambda_None (np.shape a) ∅ "".

(** [st'] still holds every object of [st], with the same data. *)
Definition data_preserved (st st' : state) : Prop :=
  ∀ r t, heap st !! r = Some t → ∃ t', heap st' !! r = Some t' ∧ data t' = data t.

(** ** What a closure belongs to *)

(** The node a closure belongs to, and the operands it writes to. *)
Definition node (c : closure) : option ref :=
  match c with
  | Lambda_None => None
  | Add_backward _ _ out | Sub_backward _ _ out | Mul_backward _ _ out
  | Truediv_backward _ _ out | Matmul_backward _ _ out
  | Exp_backward _ out | Neg_backward _ out | T_backward _ out => Some out
  end.

Definition operands (c : closure) : list ref :=
  match c with
  | Lambda_None => []
  | Add_backward self other _ | Sub_backward self other _ | Mul_backward self other _
  | Truediv_backward self other _ | Matmul_backward self other _ => [self; other]
  | Exp_backward self _ | Neg_backward self _ | T_backward self _ => [self]
  end.

(** The rules of the operators that broadcast their operands. *)
Definition elementwise (c : closure) : bool :=
  match c with
  | Add_backward _ _ _ | Sub_backward _ _ _ | Mul_backward _ _ _
  | Truediv_backward _ _ _ => true
  | _ => false
  end.

(** [fits st c]: in [st], the closure [c] is the rule of a node built by
    its operator, that is, the data of the node is the forward result on
    the data of the operands; for matrix-multiply both operands are
    matrices. *)
Inductive fits (np_exp : float → float) (np_pow : float → float → float)
    (st : state) : closure → Prop :=
| fits_add self other out ts to tout :
    out ≠ self → out ≠ other →
    heap st !! self = Some ts → heap st !! other = Some to →
    heap st !! out = Some tout →
    np.add (data ts) (data to) = Ok (data tout) →
    fits np_exp np_pow st (Add_backward self other out)
| fits_sub self other out ts to tout :
    out ≠ self → out ≠ other →
    heap st !! self = Some ts → heap st !! other = Some to →
    heap st !! out = Some tout →
    np.sub (data ts) (data to) = Ok (data tout) →
    fits np_exp np_pow st (Sub_backward self other out)
| fits_mul self other out ts to tout :
    out ≠ self → out ≠ other →
    heap st !! self = Some ts → heap st !! other = Some to →
    heap st !! out = Some tout →
    np.mul (data ts) (data to) = Ok (data tout) →
    fits np_exp np_pow st (Mul_backward self other out)
| fits_truediv self other out ts to tout r :
    out ≠ self → out ≠ other →
    heap st !! self = Some ts → heap st !! other = Some to →
    heap st !! out = Some tout →
    np_power np_pow (data to) (VInt (-1)) = Ok r →
    np.mul (data ts) r = Ok (data tout) →
    fits np_exp np_pow st (Truediv_backward self other out)
| fits_matmul self other out ts to tout :
    out ≠ self → out ≠ other →
    heap st !! self = Some ts → heap st !! other = Some to →
    heap st !! out = Some tout →
    length (np.shape (data ts)) = 2 → length (np.shape (data to)) = 2 →
    np.matmul (data ts) (data to) = Ok (data tout) →
    fits np_exp np_pow st (Matmul_backward self other out)
| fits_exp self out ts tout :
    out ≠ self →
    heap st !! self = Some ts → heap st !! out = Some tout →
    data tout = np.map1 np_exp (data ts) →
    fits np_exp np_pow st (Exp_backward self out)
| fits_neg self out ts tout :
    out ≠ self →
    heap st !! self = Some ts → heap st !! out = Some tout →
    data tout = np.neg (data ts) →
    fits np_exp np_pow st (Neg_backward self out)
| fits_T self out ts tout :
    out ≠ self →
    heap st !! self = Some ts → heap st !! out = Some tout →
    data tout = np.T (data ts) →
    fits np_exp np_pow st (T_backward self out).

(** ** A reference instance of the numeric primitives

    The theorems below hold for every [np_exp], [np_pow] and [normal];
    closed examples are evaluated with these. *)

(** The Taylor polynomial of degree 24 of the exponential, by Horner's rule. *)
Definition exp_series (x : float) : float :=
  foldr (λ k acc, (1 + x * acc / Z_to_float (Z.of_nat k))%float) 1%float (seq 1 24).

(** The integer a float denotes, when it denotes one. *)
Definition float_to_Z (y : float) : option Z :=
  match Prim2SF y with
  | S754_zero _ => Some 0%Z
  | S754_finite s m e =>
      let v := if s then Z.neg m else Z.pos m in
      if (0 <=? e)%Z then Some (v * 2 ^ e)%Z
      else if (v mod 2 ^ (- e) =? 0)%Z then Some (v / 2 ^ (- e))%Z else None
  | _ => None
  end.

(** Powers with an integral exponent, by repeated multiplication. *)
Definition pow_integral (x y : float) : float :=
  match float_to_Z y with
  | Some n =>
      let p := Nat.iter (Z.abs_nat n) (λ acc, (acc * x)%float) 1%float in
      if (n <? 0)%Z then (1 / p)%float else p
  | None => nan
  end.

(** A generator that counts. *)
Definition counting (i : nat) : float := Z_to_float (Z.of_nat i).

Definition empty_state : state := mk_state [] 0.

Definition run {A} (m : M A) : result A * state := m empty_state.

(** ** Example states *)

Definition matrix22 (x0 x1 x2 x3 : float) : np.ndarray :=
  np.mk_ndarray [2; 2] [x0; x1; x2; x3].

Definition ones22 : np.ndarray := matrix22 1 1 1 1.

(** [a = Tensor([[1, 2], [3, 4]], requires_grad=True)] and
    [b = Tensor([[2, 4], [8, 16]])] in a fresh interpreter. *)
Definition t_a : Tensor :=
  mk_Tensor (matrix22 1 2 3 4) (Lit "") true None Lambda_None [2; 2] ∅ "".
Definition t_b : Tensor :=
  mk_Tensor (matrix22 2 4 8 16) (Lit "") false None Lambda_None [2; 2] ∅ "".
Definition st_ab : state := mk_state [t_a; t_b] 0.

(** [out = a / b; out.grad = ones] on top of [st_ab]. *)
Definition t_quotient : Tensor :=
  mk_Tensor (matrix22 0.5 0.5 0.375 0.25) (Lit "") true (Some ones22)
            (Truediv_backward 0 1 2) [2; 2] {[0; 1]} "/".
Definition st_div : state := mk_state [t_a; t_b; t_quotient] 0.

(** A diamond: [x = Tensor([1, 2], requires_grad=True); p = x.exp();
    q = -x; root = p + q]. *)
Definition h_diamond : list Tensor :=
  [ mk_Tensor (np.mk_ndarray [2] [1; 2]%float) (Lit "") true None Lambda_None [2] ∅ "";
    out_node (np.map1 exp_series (np.mk_ndarray [2] [1; 2]%float))
             (Exp_backward 0 1) {[0]} "exp";
    out_node (np.mk_ndarray [2] [-1; -2]%float) (Neg_backward 0 2) {[0]} "neg";
    out_node (np.mk_ndarray [2] [exp_series 1 + -1; exp_series 2 + -2]%float)
             (Add_backward 1 2 3) {[1; 2]} "+" ].

(** [out = a + 5; out.grad = ones] on top of [st_ab]: the coerced leaf is
    object 2 and [out] is object 3. *)
Definition t_five : Tensor :=
  coerced_leaf (VInt 5) (np.mk_ndarray [] [5%float]).
Definition t_sum : Tensor :=
  mk_Tensor (matrix22 6 7 8 9) (Lit "") true (Some ones22)
            (Add_backward 0 2 3) [2; 2] {[0; 2]} "+".
Definition st_plus5 : state := mk_state [t_a; t_b; t_five; t_sum] 0.

(** [v = Tensor([1, 2], requires_grad=True)] and
    [m = Tensor([[1, 2, 3], [4, 5, 6]])] in a fresh interpreter. *)
Definition t_v : Tensor :=
  mk_Tensor (np.mk_ndarray [2] [1; 2]%float) (Lit "") true None Lambda_None [2] ∅ "".
Definition t_m : Tensor :=
  mk_Tensor (np.mk_ndarray [2; 3] [1; 2; 3; 4; 5; 6]%float) (Lit "") false None
            Lambda_None [2; 3] ∅ "".
Definition st_vm : state := mk_state [t_v; t_m] 0.

(** [x = Tensor([], requires_grad=True); y = x.exp()] in a fresh
    interpreter: an operand without elements. *)
Definition t_none : Tensor :=
  mk_Tensor (np.mk_ndarray [0] []) (Lit "") true None Lambda_None [0] ∅ "".
Definition t_none_exp : Tensor :=
  out_node (np.mk_ndarray [0] []) (Exp_backward 0 1) {[0]} "exp".
Definition st_none : state := mk_state [t_none; t_none_exp] 0.

(** ** The common shape of the operators

    The five binary methods with a nested [def _backward] are one
    sequence of statements, up to the array operation [f], the closure
    [rule], the tag, and whether the binding of [out._backward] stands
    under [if self.requires_grad]; so are the three unary methods. *)

Definition binary_operator (f : np.ndarray → np.ndarray → result np.ndarray)
    (rule : ref → ref → ref → closure) (guarded : bool) (tag : string)
    (self : ref) (other : operand) : M ref :=
  other ← Tensor.coerce other;
  x ← get_data self;
  y ← get_data other;
  d ← lift (f x y);
  out ← Tensor.__init__ (VArr d) None (Some true) [self; other] tag;
  rg ← (if guarded then get_requires_grad self else mret true);
  when rg (set_backward out (rule self other out));;
  mret out.

Definition unary_operator (f : np.ndarray → np.ndarray)
    (rule : ref → ref → closure) (tag : string) (self : ref) : M ref :=
  x ← get_data self;
  out ← Tensor.__init__ (VArr (f x)) None (Some true) [self] tag;
  rg ← get_requires_grad self;
  when rg (set_backward out (rule self out));;
  mret out.

(** [x * y**-1], the forward expression of [__truediv__]. *)
Definition truediv_forward (np_pow : float → float → float) (x y : np.ndarray)
    : result np.ndarray :=
  result_bind (np_power np_pow y (VInt (-1))) (np.mul x).

(** The outcome of the coercion of the second operand, and of an
    operator, in closed form: the result and the state left behind. *)
Definition coerce_outcome (other : operand) (st : state) : result ref * state :=
  match other with
  | OTensor r => (Ok r, st)
  | OValue v =>
      match np_array v with
      | Ok a => (Ok (length (heap st)), push st (coerced_leaf v a))
      | Raise e => (Raise e, st)
      end
  end.

Definition binary_outcome (f : np.ndarray → np.ndarray → result np.ndarray)
    (rule : ref → ref → ref → closure) (guarded : bool) (tag : string)
    (self : ref) (other : operand) (st : state) : result ref * state :=
  match coerce_outcome other st with
  | (Raise e, st0) => (Raise e, st0)
  | (Ok b, st0) =>
      match heap st0 !! self, heap st0 !! b with
      | Some ts, Some tb =>
          match f (data ts) (data tb) with
          | Ok d =>
              let out := length (heap st0) in
              let c := if guarded && negb (requires_grad ts) then Lambda_None
                       else rule self b out in
              (Ok out, push st0 (out_node d c {[self; b]} tag))
          | Raise e => (Raise e, st0)
          end
      | _, _ => (Raise NoSuchObject, st0)
      end
  end.

Definition unary_outcome (f : np.ndarray → np.ndarray)
    (rule : ref → ref → closure) (tag : string) (self : ref) (st : state)
    : result ref * state :=
  match heap st !! self with
  | Some ts =>
      let out := length (heap st) in
      let c := if requires_grad ts then rule self out else Lambda_None in
      (Ok out, push st (out_node (f (data ts)) c {[self]} tag))
  | None => (Raise NoSuchObject, st)
  end.

Definition pow_outcome (np_pow : float → float → float) (self : ref) (other : value)
    (st : state) : result ref * state :=
  match heap st !! self with
  | Some ts =>
      match np_array other with
      | Ok e =>
          match np.zip np_pow (data ts) e with
          | Ok d =>
              (Ok (S (length (heap st))),
               push (push st (coerced_leaf other e))
                    (out_node d Lambda_None {[self; length (heap st)]} "**"))
          | Raise x => (Raise x, st)
          end
      | Raise x => (Raise x, st)
      end
  | None => (Raise NoSuchObject, st)
  end.

(** ** The assignments of a rule *)

Definition result_map {A B} (f : A → B) (r : result A) : result B :=
  result_bind r (λ a, Ok (f a)).

Section Values.

Variable np_exp : float → float.
Variable np_pow : float → float → float.

(** The value a rule assigns to [self.grad], from the data [x] of [self],
    the data [y] of [other] and the grad [g] of the node. *)
Definition self_value (c : closure) (x y : np.ndarray) (g : option np.ndarray)
    : result (option np.ndarray) :=
  match c with
  | Lambda_None => Ok None
  | Add_backward _ _ _ => Ok g
  | Sub_backward _ _ _ | Mul_backward _ _ _ | Neg_backward _ _ =>
      result_map (λ a, Some (np.neg a)) (as_array g)
  | Truediv_backward _ _ _ => result_map Some (truediv_self_grad np_pow y g)
  | Matmul_backward _ _ _ =>
      result_bind (as_array g) (λ a, result_map Some (np.matmul a (np.T y)))
  | Exp_backward _ _ => result_map Some (mul_grad (np.map1 np_exp x) g)
  | T_backward _ _ => result_map (λ a, Some (np.T a)) (as_array g)
  end.

(** The value a rule of a binary operator assigns to [other.grad], given
    the value [sv] it has just assigned to [self.grad]. *)
Definition other_value (c : closure) (x y : np.ndarray) (g sv : option np.ndarray)
    : result (option np.ndarray) :=
  match c with
  | Add_backward _ _ _ => Ok g
  | Sub_backward _ _ _ | Mul_backward _ _ _ =>
      result_map (λ a, Some (np.neg a)) (as_array g)
  | Truediv_backward _ _ _ =>
      result_bind (as_array sv) (λ s, result_map Some (truediv_other_grad np_pow y g s))
  | Matmul_backward _ _ _ =>
      result_bind (as_array g) (λ a, result_map Some (np.matmul (np.T x) a))
  | _ => Ok None
  end.

End Values.

(** One or two assignments in sequence, the first raise stopping the rule. *)
Definition one_assignment (self : ref) (v : result (option np.ndarray)) (st : state)
    : result () * state :=
  match v with
  | Ok a => (Ok (), assign_grad self a st)
  | Raise e => (Raise e, st)
  end.

Definition two_assignments (self other : ref) (v : result (option np.ndarray))
    (w : option np.ndarray → result (option np.ndarray)) (st : state)
    : result () * state :=
  match v with
  | Ok a =>
      match w a with
      | Ok b => (Ok (), assign_grad other b (assign_grad self a st))
      | Raise e => (Raise e, assign_grad self a st)
      end
  | Raise e => (Raise e, st)
  end.

(** [st] after [out = t] has been built and [out.grad = g] assigned. *)
Definition seeded_state (st : state) (t : Tensor) (g : np.ndarray) : state :=
  assign_grad (length (heap st)) (Some g) (push st t).

(** [st'] is [st] but for the grads of the objects in [S]. *)
Definition grads_changed (S : gset ref) (st st' : state) : Prop :=
  rng_pos st' = rng_pos st ∧
  length (heap st') = length (heap st) ∧
  ∀ i t, heap st !! i = Some t →
    ∃ g, heap st' !! i = Some (with_grad g t) ∧ (i ∉ S → g = grad t).

(** ** The interface *)

(** The calls that build a Tensor: the constructor with the arguments of
    its public signature, the factories and the operators. *)
Inductive construction :=
| Call_init (d : value) (lbl : option label_t) (rg : option bool)
| Call_zeros (shp : list nat) (lbl : option string) (rg : option bool)
| Call_randn (shp : list nat) (lbl : option string) (rg : option bool)
| Call_add (self : ref) (other : operand)
| Call_sub (self : ref) (other : operand)
| Call_mul (self : ref) (other : operand)
| Call_truediv (self : ref) (other : operand)
| Call_matmul (self : ref) (other : operand)
| Call_pow (self : ref) (other : value)
| Call_exp (self : ref)
| Call_neg (self : ref)
| Call_T (self : ref).

(** What a construction draws from the random stream. *)
Definition samples_drawn (c : construction) : nat :=
  match c with
  | Call_randn shp _ _ => np.size_of shp
  | _ => 0
  end.

Section Interface.

Variable np_exp : float → float.
Variable np_pow : float → float → float.
Variable normal : nat → float.

Definition construct (c : construction) : M ref :=
  match c with
  | Call_init d lbl rg => Tensor.__init__ d lbl rg [] ""
  | Call_zeros shp lbl rg => zeros shp lbl rg
  | Call_randn shp lbl rg => randn normal shp lbl rg
  | Call_add self other => Tensor.__add__ self other
  | Call_sub self other => Tensor.__sub__ self other
  | Call_mul self other => Tensor.__mul__ self other
  | Call_truediv self other => Tensor.__truediv__ np_pow self other
  | Call_matmul self other => Tensor.__matmul__ self other
  | Call_pow self other => Tensor.__pow__ np_pow self other
  | Call_exp self => Tensor.exp np_exp self
  | Call_neg self => Tensor.__neg__ self
  | Call_T self => Tensor.T self
  end.

(** The states a program reaches through the interface: constructions,
    assignments to a [grad] attribute, and calls of a rule. *)
Inductive api_run : state → Prop :=
| api_empty : api_run empty_state
| api_construct c st : api_run st → api_run (construct c st).2
| api_seed r g st : api_run st → api_run (set_grad r g st).2
| api_backward r st : api_run st → api_run (Tensor.backward np_exp np_pow r st).2.

End Interface.

(** The operator tag each closure goes with. *)
Definition tag_of (c : closure) : string :=
  match c with
  | Lambda_None => ""
  | Add_backward _ _ _ => "+"
  | Sub_backward _ _ _ => "-"
  | Mul_backward _ _ _ => "*"
  | Truediv_backward _ _ _ => "/"
  | Matmul_backward _ _ _ => "@"
  | Exp_backward _ _ => "exp"
  | Neg_backward _ _ => "neg"
  | T_backward _ _ => "T"
  end.

(** What holds of the object at reference [i]: the [shape] attribute is
    the shape of the data; the operands are older objects; an object has
    operands exactly when it has an operator tag, and then requires a
    gradient; the rule is the default, or a closure of this node over
    its operands, of the operator of the tag. *)
Record obj_ok (i : ref) (t : Tensor) : Prop := {
  ok_shape : shape t = np.shape (data t);
  ok_older : ∀ c, c ∈ _components t → c < i;
  ok_leaf : _components t = ∅ ↔ _operator t = "";
  ok_flag : _components t ≠ ∅ → requires_grad t = true;
  ok_rule : _backward t = Lambda_None ∨
            (node (_backward t) = Some i ∧
             list_to_set (operands (_backward t)) = _components t ∧
             tag_of (_backward t) = _operator t);
}.

Definition state_ok (st : state) : Prop :=
  ∀ i t, heap st !! i = Some t → obj_ok i t.

(** [st'] is [st] with objects added; no object of [st] is changed. *)
Definition extends (st st' : state) : Prop :=
  heap st `prefix_of` heap st'.

(** What a construction leaves behind: nothing, on some failures; the leaf
    of a coerced operand; or the new object, after that leaf if there is
    one. *)
Inductive built (st : state) : result ref → state → Prop :=
| built_raise e : built st (Raise e) st
| built_raise_leaf e t :
    obj_ok (length (heap st)) t → _components t = ∅ →
    built st (Raise e) (push st t)
| built_one t :
    obj_ok (length (heap st)) t →
    built st (Ok (length (heap st))) (push st t)
| built_two l t :
    obj_ok (length (heap st)) l → _components l = ∅ →
    obj_ok (S (length (heap st))) t →
    built st (Ok (S (length (heap st)))) (push (push st l) t)
| built_random n t :
    obj_ok (length (heap st)) t →
    built st (Ok (length (heap st)))
          (push (mk_state (heap st) (rng_pos st + n)) t).

(** ** [draw_function] *)

(** The calls [draw_function] makes on graphviz, in order: the
    construction of the [Digraph], [dot.node] and [dot.edge]. *)
Inductive dot_call :=
| Digraph (format : string) (graph_attr : list (string * string))
| Dot_node (name label : string) (shape_attr : option string)
| Dot_edge (tail_name head_name : string).

(** [str(t)] for a tuple of ints. *)
Definition str_tuple (s : list nat) : string :=
  match s with
  | [] => "()"
  | [d] => "(" +:+ pretty d +:+ ",)"
  | d :: s' => "(" +:+ pretty d +:+ foldr (λ x acc, ", " +:+ pretty x +:+ acc) ")" s'
  end.

Section Draw.

(** The orders in which the two [for] loops visit [nodes] and [edges]. *)
Variable order : gset ref → list ref.
Variable edge_order : gset (ref * ref) → list (ref * ref).

(** [id(n)], and [str(v)] for the values kept as labels. *)
Variable py_id : ref → N.
Variable py_str : value → string.

(** The heap the graph lives in. *)
Variable h : list Tensor.

(** [str(id(n))] *)
Definition uid (n : ref) : string := pretty (py_id n).

Definition str_label (l : label_t) : string :=
  match l with
  | Lit s => s
  | StrOf v => py_str v
  end.

(** ['{ %s | shape %s }' % (n.label, str(n.shape))] *)
Definition record_label (t : Tensor) : string :=
  "{ " +:+ str_label (label t) +:+ " | shape " +:+ str_tuple (shape t) +:+ " }".

(** The body of the loop over [nodes]. *)
Definition node_calls (n : ref) : option (list dot_call) :=
  t ← h !! n;
  Some (Dot_node (uid n) (record_label t) (Some "record")
        :: if decide (_operator t = "") then []
           else [Dot_node (uid n +:+ _operator t) (_operator t) None;
                 Dot_edge (uid n +:+ _operator t) (uid n)]).

(** The body of the loop over [edges]. *)
Definition edge_calls (e : ref * ref) : option (list dot_call) :=
  t2 ← h !! e.2;
  Some [Dot_edge (uid e.1) (uid e.2 +:+ _operator t2)].

(** [draw_function(root)]; [None] when [trace] runs out of fuel or meets
    a reference that is not in the heap. *)
Definition draw_function (root : ref) : option (list dot_call) :=
  '(nodes, edges) ← trace order h root;
  ns ← mapM node_calls (order nodes);
  es ← mapM edge_calls (edge_order edges);
  Some (Digraph "svg" [("rankdir", "LR")] :: concat ns ++ concat es).

End Draw.

(** * Properties *)

(** ** The array layer on examples *)

Example broadcast_row :
  np.add (matrix22 1 2 3 4) (np.mk_ndarray [2] [10; 20]%float)
  = Ok (matrix22 11 22 13 24).
Proof. vm_compute. reflexivity. Qed.

Example broadcast_scalar :
  np.mul (matrix22 1 2 3 4) (np.mk_ndarray [] [2%float]) = Ok (matrix22 2 4 6 8).
Proof. vm_compute. reflexivity. Qed.

Example broadcast_mismatch :
  np.add (matrix22 1 2 3 4) (np.mk_ndarray [3] [1; 2; 3]%float)
  = Raise ShapeMismatchError.
Proof. vm_compute. reflexivity. Qed.

Example matmul_matrices :
  np.matmul (matrix22 1 2 3 4) (matrix22 0 1 1 0) = Ok (matrix22 2 1 4 3).
Proof. vm_compute. reflexivity. Qed.

Example matmul_vectors :
  np.matmul (np.mk_ndarray [2] [1; 2]%float) (np.mk_ndarray [2] [3; 4]%float)
  = Ok (np.mk_ndarray [] [11%float]).
Proof. vm_compute. reflexivity. Qed.

Example matmul_scalar :
  np.matmul (np.mk_ndarray [] [2%float]) (matrix22 1 2 3 4) = Raise ShapeMismatchError.
Proof. vm_compute. reflexivity. Qed.

Example transpose_matrix : np.T (matrix22 1 2 3 4) = matrix22 1 3 2 4.
Proof. vm_compute. reflexivity. Qed.

Example array_of_nested_list :
  np_array (VList [VList [VInt 1; VFloat 2]; VList [VInt 3; VInt 4]])
  = Ok (matrix22 1 2 3 4).
Proof. vm_compute. reflexivity. Qed.

Example array_of_ragged_list :
  np_array (VList [VList [VInt 1; VInt 2]; VInt 3]) = Raise ConversionError.
Proof. vm_compute. reflexivity. Qed.

(** ** Shapes in the array layer *)

Lemma broadcast_rev_idemp s : np.broadcast_rev s s = Some s.
Proof.
  induction s as [|x s IH]; [done|]. cbn. rewrite decide_True by done. by rewrite IH.
Qed.

Lemma broadcast_rev_nil_r s : np.broadcast_rev s [] = Some s.
Proof. by destruct s. Qed.

(** The broadcast of two shapes absorbs each of them. *)
Lemma broadcast_rev_absorb s t u :
  np.broadcast_rev s t = Some u →
  np.broadcast_rev s u = Some u ∧ np.broadcast_rev u s = Some u ∧
  np.broadcast_rev t u = Some u ∧ np.broadcast_rev u t = Some u.
Proof.
  revert t u. induction s as [|x s IH]; intros t u H.
  - cbn in H. simplify_eq. rewrite broadcast_rev_nil_r, broadcast_rev_idemp. by destruct u.
  - destruct t as [|y t].
    { cbn in H. simplify_eq. rewrite broadcast_rev_idemp. done. }
    cbn in H.
    assert (∀ z, z = x ∨ z = y → (x = 1 ∨ x = z) → (y = 1 ∨ y = z) →
      (cons z <$> np.broadcast_rev s t) = Some u →
      np.broadcast_rev (x :: s) u = Some u ∧ np.broadcast_rev u (x :: s) = Some u ∧
      np.broadcast_rev (y :: t) u = Some u ∧ np.broadcast_rev u (y :: t) = Some u) as Hgo.
    { intros z Hz Hx Hy (u' & Hu' & ->)%fmap_Some.
      destruct (IH _ _ Hu') as (H1 & H2 & H3 & H4). cbn.
      rewrite H1, H2, H3, H4.
      repeat split; repeat case_decide; cbn; try done;
        first [ exfalso; lia | do 2 f_equal; lia ]. }
    destruct (decide (x = y)) as [->|]; [apply (Hgo y); auto|].
    destruct (decide (x = 1)) as [->|]; [apply (Hgo y); auto|].
    destruct (decide (y = 1)) as [->|]; [apply (Hgo x); auto|done].
Qed.

Lemma broadcast_shapes_idemp s : np.broadcast_shapes s s = Some s.
Proof.
  unfold np.broadcast_shapes. rewrite broadcast_rev_idemp. cbn.
  by rewrite reverse_involutive.
Qed.

Lemma broadcast_shapes_nil_r s : np.broadcast_shapes s [] = Some s.
Proof.
  unfold np.broadcast_shapes. rewrite reverse_nil, broadcast_rev_nil_r. cbn.
  by rewrite reverse_involutive.
Qed.

Lemma broadcast_shapes_absorb s t u :
  np.broadcast_shapes s t = Some u →
  np.broadcast_shapes t u = Some u ∧ np.broadcast_shapes u t = Some u.
Proof.
  unfold np.broadcast_shapes. intros (u' & Hu' & ->)%fmap_Some.
  destruct (broadcast_rev_absorb _ _ _ Hu') as (_ & _ & H3 & H4).
  by rewrite !reverse_involutive, H3, H4.
Qed.

Lemma shape_build s f : np.shape (np.build s f) = s.
Proof. done. Qed.

Lemma zip_Ok op a b c :
  np.zip op a b = Ok c → np.broadcast_shapes (np.shape a) (np.shape b) = Some (np.shape c).
Proof.
  unfold np.zip. destruct (np.broadcast_shapes _ _); [|done]. by intros [= <-].
Qed.

Lemma zip_shapes op a b s :
  np.broadcast_shapes (np.shape a) (np.shape b) = Some s →
  ∃ c, np.zip op a b = Ok c ∧ np.shape c = s.
Proof. unfold np.zip. intros ->. eauto. Qed.

Lemma shape_neg a : np.shape (np.neg a) = np.shape a.
Proof. done. Qed.

Lemma shape_map1 f a : np.shape (np.map1 f a) = np.shape a.
Proof. done. Qed.

Lemma shape_T a : np.shape (np.T a) = reverse (np.shape a).
Proof. done. Qed.

Lemma np_array_int_small z :
  is_infinity (Z_to_float z) = false →
  np_array (VInt z) = Ok (np.mk_ndarray [] [Z_to_float z]).
Proof. cbn. by intros ->. Qed.

Lemma power_int_shape np_pow a z :
  is_infinity (Z_to_float z) = false →
  ∃ r, np_power np_pow a (VInt z) = Ok r ∧ np.shape r = np.shape a.
Proof.
  intros Hz. unfold np_power. rewrite (np_array_int_small _ Hz). cbn [result_bind].
  apply zip_shapes. apply broadcast_shapes_nil_r.
Qed.

(** [a @ b] for two matrices. *)
Lemma matmul_2d a b n k k' m :
  np.shape a = [n; k] → np.shape b = [k'; m] →
  (k = k' → ∃ c, np.matmul a b = Ok c ∧ np.shape c = [n; m]) ∧
  (k ≠ k' → np.matmul a b = Raise ShapeMismatchError).
Proof.
  intros Ha Hb. unfold np.matmul. rewrite Ha, Hb. cbn.
  split; intros Hk; case_decide; try done. eauto.
Qed.

Lemma mul_same_shape a b :
  np.shape a = np.shape b → ∃ c, np.mul a b = Ok c ∧ np.shape c = np.shape b.
Proof. intros H. apply zip_shapes. rewrite H. apply broadcast_shapes_idemp. Qed.

Lemma minus_one_finite : is_infinity (Z_to_float (-1)) = false.
Proof. vm_compute. reflexivity. Qed.

Lemma minus_two_finite : is_infinity (Z_to_float (-2)) = false.
Proof. vm_compute. reflexivity. Qed.

(** The four products of the rule of divide succeed on a gradient of the
    shape of the node. *)
Lemma truediv_products np_pow x y r d g :
  np_power np_pow y (VInt (-1)) = Ok r →
  np.mul x r = Ok d →
  np.shape g = np.shape d →
  ∃ sg r2 p og,
    np.mul r g = Ok sg ∧
    np_power np_pow y (VInt (-2)) = Ok r2 ∧
    np.mul (np.neg sg) r2 = Ok p ∧
    np.mul p g = Ok og ∧
    np.shape sg = np.shape d ∧ np.shape og = np.shape d.
Proof.
  intros Hr Hd Hg.
  destruct (power_int_shape np_pow y (-1) minus_one_finite) as (r' & Hr' & Hsr).
  destruct (power_int_shape np_pow y (-2) minus_two_finite) as (r2 & Hr2 & Hsr2).
  rewrite Hr in Hr'. injection Hr' as <-.
  apply zip_Ok, broadcast_shapes_absorb in Hd as [Hrd Hdr].
  destruct (zip_shapes PrimFloat.mul r g (np.shape d)) as (sg & Hsg & Hssg);
    [by rewrite Hg|].
  destruct (zip_shapes PrimFloat.mul (np.neg sg) r2 (np.shape d)) as (p & Hp & Hsp);
    [by rewrite shape_neg, Hssg, Hsr2, <- Hsr|].
  destruct (mul_same_shape p g) as (og & Hog & Hsog); [congruence|].
  exists sg, r2, p, og. do 4 (split; [done|]). split; [done|]. by rewrite Hsog, Hg.
Qed.

(** The two assignments of the rule of divide succeed on a gradient of
    the shape of the node, and give arrays of that shape. *)
Lemma truediv_grads_shape np_pow x y r d g :
  np_power np_pow y (VInt (-1)) = Ok r →
  np.mul x r = Ok d →
  np.shape g = np.shape d →
  ∃ sg og,
    truediv_self_grad np_pow y (Some g) = Ok sg ∧
    truediv_other_grad np_pow y (Some g) sg = Ok og ∧
    np.shape sg = np.shape d ∧ np.shape og = np.shape d.
Proof.
  intros Hr Hd Hg.
  destruct (truediv_products np_pow x y r d g Hr Hd Hg)
    as (sg & r2 & p & og & Hsg & Hr2 & Hp & Hog & Hs1 & Hs2).
  exists sg, og. unfold truediv_self_grad, truediv_other_grad.
  rewrite Hr, Hr2. cbn [result_bind mul_grad]. rewrite Hsg, Hp. cbn [result_bind].
  by rewrite Hog.
Qed.

(** Both products of the rule of matrix-multiply succeed for two
    matrices and a gradient of the shape of the node, and give arrays of
    the shapes of the operands. *)
Lemma matmul_products x y d g :
  length (np.shape x) = 2 → length (np.shape y) = 2 →
  np.matmul x y = Ok d →
  np.shape g = np.shape d →
  ∃ sg og,
    np.matmul g (np.T y) = Ok sg ∧
    np.matmul (np.T x) g = Ok og ∧
    np.shape sg = np.shape x ∧ np.shape og = np.shape y.
Proof.
  intros H2x H2y Hd Hg.
  destruct (np.shape x) as [|n [|k [|]]] eqn:Hsx; try done.
  destruct (np.shape y) as [|k' [|m [|]]] eqn:Hsy; try done.
  destruct (matmul_2d _ _ _ _ _ _ Hsx Hsy) as [Hok Hbad].
  destruct (decide (k = k')) as [<-|Hk]; [|rewrite Hbad in Hd; done].
  destruct (Hok eq_refl) as (d' & Hd' & Hsd). rewrite Hd in Hd'. injection Hd' as <-.
  rewrite Hsd in Hg.
  destruct (matmul_2d g (np.T y) n m m k Hg) as [Hself _]; [by rewrite shape_T, Hsy|].
  destruct (Hself eq_refl) as (sg & Hsg & Hssg).
  destruct (matmul_2d (np.T x) g k n n m) as [Hother _]; [by rewrite shape_T, Hsx|done|].
  destruct (Hother eq_refl) as (og & Hog & Hsog).
  by exists sg, og.
Qed.

Lemma size_of_cons d s : np.size_of (d :: s) = d * np.size_of s.
Proof. done. Qed.

Lemma length_unravel s i : length (np.unravel s i) = length s.
Proof. revert i. induction s as [|d s IH]; intros i; cbn; [done|]. by rewrite IH. Qed.

(** Within bounds, the index of an operand of the full shape is the index
    itself. *)
Lemma broadcast_index_unravel s i :
  i < np.size_of s → np.broadcast_index s (np.unravel s i) = np.unravel s i.
Proof.
  unfold np.broadcast_index. rewrite length_unravel, Nat.sub_diag. cbn [drop].
  revert i. induction s as [|d s IH]; intros i Hi; [done|].
  rewrite size_of_cons in Hi.
  assert (0 < np.size_of s) as Hpos by (destruct (np.size_of s); lia).
  cbn [np.unravel zip_with]. f_equal.
  - case_decide as Hd; [|done]. subst d. symmetry. apply Nat.div_small. lia.
  - apply IH. apply Nat.mod_upper_bound. lia.
Qed.

Lemma ravel_unravel s i : i < np.size_of s → np.ravel s (np.unravel s i) = i.
Proof.
  revert i. induction s as [|d s IH]; intros i Hi; [cbn in *; lia|].
  rewrite size_of_cons in Hi.
  assert (np.size_of s ≠ 0) as Hpos by (destruct (np.size_of s); lia).
  cbn [np.unravel np.ravel]. rewrite IH by by apply Nat.mod_upper_bound.
  rewrite (Nat.div_mod_eq i (np.size_of s)) at 3. lia.
Qed.

(** Without broadcasting, [zip] combines the elements position by position. *)
Lemma zip_same_shape op a b :
  np.shape a = np.shape b →
  length (np.elems a) = np.size_of (np.shape a) →
  length (np.elems b) = np.size_of (np.shape b) →
  np.zip op a b = Ok (np.mk_ndarray (np.shape a) (zip_with op (np.elems a) (np.elems b))).
Proof.
  intros Hs Ha Hb. unfold np.zip. rewrite <- Hs, broadcast_shapes_idemp.
  f_equal. unfold np.build. f_equal. rewrite <- Hs in Hb.
  apply list_eq. intros i. rewrite list_lookup_fmap, lookup_zip_with.
  destruct (decide (i < np.size_of (np.shape a))) as [Hi|Hi].
  - rewrite lookup_seq_lt by done. cbn. unfold np.item. rewrite <- Hs.
    rewrite broadcast_index_unravel, ravel_unravel by done.
    destruct (lookup_lt_is_Some_2 (np.elems a) i) as [x Hx]; [lia|].
    destruct (lookup_lt_is_Some_2 (np.elems b) i) as [y Hy]; [lia|].
    rewrite Hx, Hy. cbn.
    by rewrite (nth_lookup_Some _ _ _ _ Hx), (nth_lookup_Some _ _ _ _ Hy).
  - rewrite lookup_seq_ge by lia. rewrite (lookup_ge_None_2 (np.elems a)) by lia. done.
Qed.

(** ** Stepping through a computation *)

Lemma bind_ok {A B} (m : M A) (k : A → M B) st a st' :
  m st = (Ok a, st') → (m ≫= k) st = k a st'.
Proof. intros H. unfold mbind, M_bind. by rewrite H. Qed.

Lemma bind_raise {A B} (m : M A) (k : A → M B) st e st' :
  m st = (Raise e, st') → (m ≫= k) st = (Raise e, st').
Proof. intros H. unfold mbind, M_bind. by rewrite H. Qed.

Lemma read_ok st r t : heap st !! r = Some t → read r st = (Ok t, st).
Proof. intros H. unfold read. by rewrite H. Qed.

Lemma get_data_ok st r t : heap st !! r = Some t → get_data r st = (Ok (data t), st).
Proof. intros H. unfold get_data. by rewrite (bind_ok _ _ _ _ _ (read_ok _ _ _ H)). Qed.

Lemma get_grad_ok st r t : heap st !! r = Some t → get_grad r st = (Ok (grad t), st).
Proof. intros H. unfold get_grad. by rewrite (bind_ok _ _ _ _ _ (read_ok _ _ _ H)). Qed.

Lemma get_requires_grad_ok st r t :
  heap st !! r = Some t → get_requires_grad r st = (Ok (requires_grad t), st).
Proof. intros H. unfold get_requires_grad. by rewrite (bind_ok _ _ _ _ _ (read_ok _ _ _ H)). Qed.

Lemma write_ok st r f t :
  heap st !! r = Some t →
  write r f st = (Ok (), mk_state (alter f r (heap st)) (rng_pos st)).
Proof. intros H. unfold write. by rewrite H. Qed.

Lemma lift_ok {A} (r : result A) st : lift r st = (r, st).
Proof. done. Qed.

Lemma init_ok d a lbl rg comps op st :
  np_array d = Ok a →
  Tensor.__init__ d lbl rg comps op st =
    (Ok (length (heap st)),
     mk_state (heap st ++ [mk_Tensor a (default (Lit "") lbl) (default false rg) None
                             Lambda_None (np.shape a) (list_to_set comps) op])
              (rng_pos st)).
Proof. intros H. unfold Tensor.__init__. rewrite (bind_ok _ _ st a st); [done|]. by rewrite lift_ok, H. Qed.

Lemma set_grad_ok st r g t :
  heap st !! r = Some t →
  set_grad r g st = (Ok (), assign_grad r g st).
Proof. apply write_ok. Qed.

Lemma set_backward_ok st r c t :
  heap st !! r = Some t →
  set_backward r c st =
    (Ok (), mk_state (alter (with_backward c) r (heap st)) (rng_pos st)).
Proof. apply write_ok. Qed.

Lemma lift_eq {A} (r : result A) a st : r = Ok a → lift r st = (Ok a, st).
Proof. by intros ->. Qed.

Lemma lookup_snoc_new (l : list Tensor) t : (l ++ [t]) !! length l = Some t.
Proof. by rewrite lookup_app_r, Nat.sub_diag. Qed.

Lemma lookup_snoc_old (l : list Tensor) t r x : l !! r = Some x → (l ++ [t]) !! r = Some x.
Proof. apply lookup_app_l_Some. Qed.

Lemma alter_snoc_new (l : list Tensor) t f : alter f (length l) (l ++ [t]) = l ++ [f t].
Proof. by rewrite alter_app_r_alt, Nat.sub_diag. Qed.

Lemma lookup_alter_same (l : list Tensor) f r t :
  l !! r = Some t → alter f r l !! r = Some (f t).
Proof. intros H. by rewrite list_lookup_alter_eq, H. Qed.

Lemma lookup_alter_other (l : list Tensor) f r r' t :
  r ≠ r' → l !! r' = Some t → alter f r l !! r' = Some t.
Proof. intros Hne H. by rewrite list_lookup_alter_ne. Qed.

Ltac solve_lookup :=
  unfold assign_grad; cbn [heap rng_pos];
  first [ eassumption
        | apply lookup_snoc_new
        | apply lookup_snoc_old; solve_lookup
        | apply lookup_alter_same; solve_lookup
        | apply lookup_alter_other; [ congruence | solve_lookup ] ].

Ltac use_grad :=
  cbn [grad with_grad];
  repeat match goal with H : grad _ = _ |- _ => rewrite H end.

Ltac solve_step :=
  first [ eassumption
        | apply get_data_ok; solve_lookup
        | apply get_grad_ok; solve_lookup
        | apply get_requires_grad_ok; solve_lookup
        | apply read_ok; solve_lookup
        | eapply set_grad_ok; solve_lookup
        | eapply set_backward_ok; solve_lookup
        | apply lift_eq; cbn [data with_grad];
          first [ eassumption | reflexivity | use_grad; reflexivity ]
        | apply init_ok; first [ eassumption | reflexivity ] ].

Ltac step := erewrite bind_ok; [ | solve_step ]; cbn [heap rng_pos data with_grad].

Lemma pair_set (a b : ref) : list_to_set [a; b] =@{gset ref} {[a; b]}.
Proof. cbn. by rewrite (right_id_L ∅ (∪)). Qed.

Lemma single_set (a : ref) : list_to_set [a] =@{gset ref} {[a]}.
Proof. cbn. by rewrite (right_id_L ∅ (∪)). Qed.

(** What each constructor call and operator returns and allocates. *)

Lemma coerce_tensor r st : Tensor.coerce (OTensor r) st = (Ok r, st).
Proof. done. Qed.

Lemma coerce_value v a st :
  np_array v = Ok a →
  Tensor.coerce (OValue v) st = (Ok (length (heap st)), push st (coerced_leaf v a)).
Proof. intros H. cbn. by rewrite (init_ok _ _ _ _ _ _ _ H). Qed.

Ltac finish_op :=
  rewrite ?pair_set, ?single_set;
  cbn [heap rng_pos]; unfold push, out_node, mret, M_ret, with_backward;
  cbn [heap rng_pos data label requires_grad grad _backward shape _components
       _operator default from_option];
  rewrite ?alter_snoc_new; reflexivity.

Ltac run_op := repeat step; finish_op.

Ltac run_guarded_op ts :=
  repeat step; unfold when; destruct (requires_grad ts); run_op.

Lemma add_spec st self other b st0 ts tb d :
  Tensor.coerce other st = (Ok b, st0) →
  heap st0 !! self = Some ts →
  heap st0 !! b = Some tb →
  np.add (data ts) (data tb) = Ok d →
  Tensor.__add__ self other st =
    (Ok (length (heap st0)),
     push st0 (out_node d (Add_backward self b (length (heap st0))) {[self; b]} "+")).
Proof. intros Hc Hs Hb Hd. unfold Tensor.__add__. run_op. Qed.

Lemma sub_spec st self other b st0 ts tb d :
  Tensor.coerce other st = (Ok b, st0) →
  heap st0 !! self = Some ts →
  heap st0 !! b = Some tb →
  np.sub (data ts) (data tb) = Ok d →
  Tensor.__sub__ self other st =
    (Ok (length (heap st0)),
     push st0 (out_node d (if requires_grad ts
                           then Sub_backward self b (length (heap st0))
                           else Lambda_None) {[self; b]} "-")).
Proof. intros Hc Hs Hb Hd. unfold Tensor.__sub__. run_guarded_op ts. Qed.

Lemma mul_spec st self other b st0 ts tb d :
  Tensor.coerce other st = (Ok b, st0) →
  heap st0 !! self = Some ts →
  heap st0 !! b = Some tb →
  np.mul (data ts) (data tb) = Ok d →
  Tensor.__mul__ self other st =
    (Ok (length (heap st0)),
     push st0 (out_node d (if requires_grad ts
                           then Mul_backward self b (length (heap st0))
                           else Lambda_None) {[self; b]} "*")).
Proof. intros Hc Hs Hb Hd. unfold Tensor.__mul__. run_guarded_op ts. Qed.

Lemma truediv_spec np_pow st self other b st0 ts tb r d :
  Tensor.coerce other st = (Ok b, st0) →
  heap st0 !! self = Some ts →
  heap st0 !! b = Some tb →
  np_power np_pow (data tb) (VInt (-1)) = Ok r →
  np.mul (data ts) r = Ok d →
  Tensor.__truediv__ np_pow self other st =
    (Ok (length (heap st0)),
     push st0 (out_node d (if requires_grad ts
                           then Truediv_backward self b (length (heap st0))
                           else Lambda_None) {[self; b]} "/")).
Proof. intros Hc Hs Hb Hr Hd. unfold Tensor.__truediv__. run_guarded_op ts. Qed.

Lemma matmul_spec st self other b st0 ts tb d :
  Tensor.coerce other st = (Ok b, st0) →
  heap st0 !! self = Some ts →
  heap st0 !! b = Some tb →
  np.matmul (data ts) (data tb) = Ok d →
  Tensor.__matmul__ self other st =
    (Ok (length (heap st0)),
     push st0 (out_node d (if requires_grad ts
                           then Matmul_backward self b (length (heap st0))
                           else Lambda_None) {[self; b]} "@")).
Proof. intros Hc Hs Hb Hd. unfold Tensor.__matmul__. run_guarded_op ts. Qed.

Lemma pow_spec np_pow st self other ts d e :
  heap st !! self = Some ts →
  np_power np_pow (data ts) other = Ok d →
  np_array other = Ok e →
  Tensor.__pow__ np_pow self other st =
    (Ok (S (length (heap st))),
     push (push st (coerced_leaf other e))
          (out_node d Lambda_None {[self; length (heap st)]} "**")).
Proof.
  intros Hs Hd He. unfold Tensor.__pow__. repeat step.
  rewrite pair_set. unfold push, out_node, coerced_leaf, mret, M_ret.
  cbn [heap rng_pos default from_option]. by rewrite length_app, Nat.add_1_r.
Qed.

Lemma exp_spec np_exp st self ts :
  heap st !! self = Some ts →
  Tensor.exp np_exp self st =
    (Ok (length (heap st)),
     push st (out_node (np.map1 np_exp (data ts))
                (if requires_grad ts then Exp_backward self (length (heap st))
                 else Lambda_None) {[self]} "exp")).
Proof. intros Hs. unfold Tensor.exp. run_guarded_op ts. Qed.

Lemma neg_spec st self ts :
  heap st !! self = Some ts →
  Tensor.__neg__ self st =
    (Ok (length (heap st)),
     push st (out_node (np.neg (data ts))
                (if requires_grad ts then Neg_backward self (length (heap st))
                 else Lambda_None) {[self]} "neg")).
Proof. intros Hs. unfold Tensor.__neg__. run_guarded_op ts. Qed.

Lemma T_spec st self ts :
  heap st !! self = Some ts →
  Tensor.T self st =
    (Ok (length (heap st)),
     push st (out_node (np.T (data ts))
                (if requires_grad ts then T_backward self (length (heap st))
                 else Lambda_None) {[self]} "T")).
Proof. intros Hs. unfold Tensor.T. run_guarded_op ts. Qed.

(** What each [_backward] function does to the state. *)

Section Calls.

Variable np_exp : float → float.
Variable np_pow : float → float → float.

Local Abbreviation call := (Tensor.call np_exp np_pow).

Lemma call_add st self other out ts to tout :
  out ≠ self →
  heap st !! self = Some ts →
  heap st !! other = Some to →
  heap st !! out = Some tout →
  call (Add_backward self other out) st =
    (Ok (), assign_grad other (grad tout) (assign_grad self (grad tout) st)).
Proof.
  intros Hne Hs Ho Hout. unfold Tensor.call. step. step. step.
  destruct (decide (self = other)) as [->|]; by erewrite set_grad_ok by solve_lookup.
Qed.

Lemma call_sub st self other out ts to tout g :
  out ≠ self →
  heap st !! self = Some ts →
  heap st !! other = Some to →
  heap st !! out = Some tout →
  grad tout = Some g →
  call (Sub_backward self other out) st =
    (Ok (), assign_grad other (Some (np.neg g)) (assign_grad self (Some (np.neg g)) st)).
Proof.
  intros Hne Hs Ho Hout Hg. unfold Tensor.call. repeat step.
  destruct (decide (self = other)) as [->|]; by erewrite set_grad_ok by solve_lookup.
Qed.

Lemma call_mul st self other out ts to tout g :
  out ≠ self →
  heap st !! self = Some ts →
  heap st !! other = Some to →
  heap st !! out = Some tout →
  grad tout = Some g →
  call (Mul_backward self other out) st =
    (Ok (), assign_grad other (Some (np.neg g)) (assign_grad self (Some (np.neg g)) st)).
Proof.
  intros Hne Hs Ho Hout Hg. unfold Tensor.call. repeat step.
  destruct (decide (self = other)) as [->|]; by erewrite set_grad_ok by solve_lookup.
Qed.

Lemma lift_raise {A} (r : result A) e st : r = Raise e → lift r st = (Raise e, st).
Proof. by intros ->. Qed.

(** Case split on the next array computation of the goal. *)
Ltac step_array :=
  match goal with
  | |- context [lift ?r ≫= _] =>
      let E := fresh "E" in
      destruct r eqn:E;
      [ erewrite bind_ok by reflexivity
      | erewrite bind_raise by reflexivity ];
      cbn [result_bind heap rng_pos data with_grad]
  end.

Lemma call_truediv_total st self other out ts to tout :
  out ≠ self →
  heap st !! self = Some ts →
  heap st !! other = Some to →
  heap st !! out = Some tout →
  call (Truediv_backward self other out) st =
    match truediv_self_grad np_pow (data to) (grad tout) with
    | Raise e => (Raise e, st)
    | Ok sg =>
        match truediv_other_grad np_pow (data to) (grad tout) sg with
        | Raise e => (Raise e, assign_grad self (Some sg) st)
        | Ok og => (Ok (), assign_grad other (Some og) (assign_grad self (Some sg) st))
        end
    end.
Proof.
  intros Hne Hs Ho Hout. unfold Tensor.call, truediv_self_grad, truediv_other_grad.
  step. step_array; [|done]. step. step_array; [|done].
  step. step. cbn [grad with_grad as_array].
  erewrite bind_ok by reflexivity.
  assert (∃ to', heap (assign_grad self (Some a0) st) !! other = Some to'
                 ∧ data to' = data to) as (to' & Ho' & Hd).
  { destruct (decide (self = other)) as [->|].
    - eexists; split; [solve_lookup|]. cbn. congruence.
    - eexists; split; [solve_lookup|done]. }
  erewrite bind_ok by (apply get_data_ok; exact Ho'). rewrite Hd.
  step_array; [|done]. step_array; [|done]. step. step_array; [|done].
  by erewrite set_grad_ok by exact Ho'.
Qed.

Lemma call_truediv st self other out ts to tout g sg og :
  out ≠ self →
  heap st !! self = Some ts →
  heap st !! other = Some to →
  heap st !! out = Some tout →
  grad tout = Some g →
  truediv_self_grad np_pow (data to) (Some g) = Ok sg →
  truediv_other_grad np_pow (data to) (Some g) sg = Ok og →
  call (Truediv_backward self other out) st =
    (Ok (), assign_grad other (Some og) (assign_grad self (Some sg) st)).
Proof.
  intros Hne Hs Ho Hout Hg Hsg Hog.
  by rewrite (call_truediv_total _ _ _ _ _ _ _ Hne Hs Ho Hout), Hg, Hsg, Hog.
Qed.

Lemma call_matmul st self other out ts to tout g sg og :
  out ≠ self →
  heap st !! self = Some ts →
  heap st !! other = Some to →
  heap st !! out = Some tout →
  grad tout = Some g →
  np.matmul g (np.T (data to)) = Ok sg →
  np.matmul (np.T (data ts)) g = Ok og →
  call (Matmul_backward self other out) st =
    (Ok (), assign_grad other (Some og) (assign_grad self (Some sg) st)).
Proof.
  intros Hne Hs Ho Hout Hg Hsg Hog. unfold Tensor.call. repeat step.
  destruct (decide (self = other)) as [->|]; by erewrite set_grad_ok by solve_lookup.
Qed.

Lemma call_exp st self out ts tout g sg :
  heap st !! self = Some ts →
  heap st !! out = Some tout →
  grad tout = Some g →
  np.mul (np.map1 np_exp (data ts)) g = Ok sg →
  call (Exp_backward self out) st = (Ok (), assign_grad self (Some sg) st).
Proof.
  intros Hs Hout Hg Hsg. unfold Tensor.call. step. step. rewrite Hg.
  cbn [mul_grad]. step. by erewrite set_grad_ok by solve_lookup.
Qed.

Lemma call_neg st self out ts tout g :
  heap st !! self = Some ts →
  heap st !! out = Some tout →
  grad tout = Some g →
  call (Neg_backward self out) st = (Ok (), assign_grad self (Some (np.neg g)) st).
Proof.
  intros Hs Hout Hg. unfold Tensor.call. repeat step.
  by erewrite set_grad_ok by solve_lookup.
Qed.

Lemma call_T st self out ts tout g :
  heap st !! self = Some ts →
  heap st !! out = Some tout →
  grad tout = Some g →
  call (T_backward self out) st = (Ok (), assign_grad self (Some (np.T g)) st).
Proof.
  intros Hs Hout Hg. unfold Tensor.call. repeat step.
  by erewrite set_grad_ok by solve_lookup.
Qed.

Lemma backward_unfold st out tout :
  heap st !! out = Some tout →
  Tensor.backward np_exp np_pow out st = call (_backward tout) st.
Proof. intros H. unfold Tensor.backward. by step. Qed.

End Calls.

(** Reading a state after assignments and allocations. *)

Lemma grad_of_Some st r g :
  grad_of st r = Some g ↔ ∃ t, heap st !! r = Some t ∧ grad t = Some g.
Proof. unfold grad_of. apply bind_Some. Qed.

Lemma backward_of_Some st r c :
  backward_of st r = Some c ↔ ∃ t, heap st !! r = Some t ∧ c = _backward t.
Proof. unfold backward_of. apply fmap_Some. Qed.

Lemma data_of_Some st r d :
  data_of st r = Some d ↔ ∃ t, heap st !! r = Some t ∧ d = data t.
Proof. unfold data_of. apply fmap_Some. Qed.

Lemma grad_of_assign_same st r g :
  is_Some (heap st !! r) → grad_of (assign_grad r g st) r = g.
Proof.
  intros [t Ht]. unfold grad_of, assign_grad. cbn [heap].
  by rewrite list_lookup_alter_eq, Ht.
Qed.

Lemma grad_of_assign_other st r r' g :
  r ≠ r' → grad_of (assign_grad r g st) r' = grad_of st r'.
Proof.
  intros Hne. unfold grad_of, assign_grad. cbn [heap]. by rewrite list_lookup_alter_ne.
Qed.

Lemma lookup_assign st r r' g :
  heap (assign_grad r g st) !! r' =
    (if decide (r = r') then with_grad g else id) <$> heap st !! r'.
Proof.
  unfold assign_grad. cbn [heap]. rewrite list_lookup_alter.
  destruct (decide (r = r')) as [->|]; [done|]. by rewrite option_fmap_id.
Qed.

Lemma is_Some_assign st r r' g :
  is_Some (heap (assign_grad r g st) !! r') ↔ is_Some (heap st !! r').
Proof. rewrite lookup_assign. apply fmap_is_Some. Qed.

Lemma data_of_assign st r r' g : data_of (assign_grad r g st) r' = data_of st r'.
Proof.
  unfold data_of. rewrite lookup_assign.
  destruct (heap st !! r'), (decide (r = r')); done.
Qed.

Lemma backward_of_assign st r r' g :
  backward_of (assign_grad r g st) r' = backward_of st r'.
Proof.
  unfold backward_of. rewrite lookup_assign.
  destruct (heap st !! r'), (decide (r = r')); done.
Qed.

Lemma lookup_push_new st t : heap (push st t) !! length (heap st) = Some t.
Proof. apply lookup_snoc_new. Qed.

Lemma lookup_push_old st t r x : heap st !! r = Some x → heap (push st t) !! r = Some x.
Proof. apply lookup_snoc_old. Qed.

(** A reference in the heap is not the next one to be allocated. *)
Lemma fresh_ne st r : is_Some (heap st !! r) → length (heap st) ≠ r.
Proof. intros H%lookup_lt_is_Some. lia. Qed.

Lemma assign_grad_twice st r g g' :
  assign_grad r g (assign_grad r g' st) = assign_grad r g st.
Proof.
  unfold assign_grad. cbn [heap rng_pos]. f_equal.
  rewrite list_alter_alter_eq. by apply list_alter_ext.
Qed.

(** ** Objects keep their data *)

Lemma data_preserved_push st t : data_preserved st (push st t).
Proof. intros r x Hr. exists x. split; [by apply lookup_push_old|done]. Qed.

Lemma data_preserved_assign st r g : data_preserved st (assign_grad r g st).
Proof.
  intros r' t Hr. rewrite lookup_assign, Hr. cbn.
  eexists. split; [done|]. by destruct (decide _).
Qed.

Lemma data_preserved_trans st1 st2 st3 :
  data_preserved st1 st2 → data_preserved st2 st3 → data_preserved st1 st3.
Proof.
  intros H12 H23 r t Hr. destruct (H12 r t Hr) as (t2 & Hr2 & Hd2).
  destruct (H23 r t2 Hr2) as (t3 & Hr3 & Hd3). exists t3. split; [done|congruence].
Qed.

Section Fits.

Variable np_exp : float → float.
Variable np_pow : float → float → float.

Local Abbreviation fits := (fits np_exp np_pow).

(** A rule fits for as long as its node and operands live, whatever is
    allocated and whichever grads are assigned in between. *)
Lemma fits_preserved st st' c :
  data_preserved st st' → fits st c → fits st' c.
Proof.
  intros Hp Hfit.
  destruct Hfit;
    repeat match goal with
    | H : heap st !! _ = Some _ |- _ =>
        apply Hp in H as (? & ? & ?)
    end;
    econstructor; try eassumption;
    repeat match goal with H : data _ = data _ |- _ => rewrite H; clear H end;
    eassumption.
Qed.

(** The rule an operator binds fits in the state the operator returns. *)

Ltac fits_binary :=
  first [ by apply fresh_ne | by apply lookup_push_old | apply lookup_push_new
        | eassumption | done ].

Lemma fits_add_built st self other b st0 ts tb d :
  Tensor.coerce other st = (Ok b, st0) →
  heap st0 !! self = Some ts → heap st0 !! b = Some tb →
  np.add (data ts) (data tb) = Ok d →
  ∃ out st1, Tensor.__add__ self other st = (Ok out, st1) ∧
    fits st1 (Add_backward self b out).
Proof.
  intros Hc Hs Hb Hd. eexists _, _. split; [by eapply add_spec|].
  eapply fits_add; fits_binary.
Qed.

Lemma fits_sub_built st self other b st0 ts tb d :
  Tensor.coerce other st = (Ok b, st0) →
  heap st0 !! self = Some ts → heap st0 !! b = Some tb →
  np.sub (data ts) (data tb) = Ok d →
  ∃ out st1, Tensor.__sub__ self other st = (Ok out, st1) ∧
    fits st1 (Sub_backward self b out).
Proof.
  intros Hc Hs Hb Hd. eexists _, _. split; [by eapply sub_spec|].
  eapply fits_sub; fits_binary.
Qed.

Lemma fits_mul_built st self other b st0 ts tb d :
  Tensor.coerce other st = (Ok b, st0) →
  heap st0 !! self = Some ts → heap st0 !! b = Some tb →
  np.mul (data ts) (data tb) = Ok d →
  ∃ out st1, Tensor.__mul__ self other st = (Ok out, st1) ∧
    fits st1 (Mul_backward self b out).
Proof.
  intros Hc Hs Hb Hd. eexists _, _. split; [by eapply mul_spec|].
  eapply fits_mul; fits_binary.
Qed.

Lemma fits_truediv_built st self other b st0 ts tb r d :
  Tensor.coerce other st = (Ok b, st0) →
  heap st0 !! self = Some ts → heap st0 !! b = Some tb →
  np_power np_pow (data tb) (VInt (-1)) = Ok r →
  np.mul (data ts) r = Ok d →
  ∃ out st1, Tensor.__truediv__ np_pow self other st = (Ok out, st1) ∧
    fits st1 (Truediv_backward self b out).
Proof.
  intros Hc Hs Hb Hr Hd. eexists _, _. split; [by eapply truediv_spec|].
  eapply fits_truediv; fits_binary.
Qed.

Lemma fits_matmul_built st self other b st0 ts tb d :
  Tensor.coerce other st = (Ok b, st0) →
  heap st0 !! self = Some ts → heap st0 !! b = Some tb →
  length (np.shape (data ts)) = 2 → length (np.shape (data tb)) = 2 →
  np.matmul (data ts) (data tb) = Ok d →
  ∃ out st1, Tensor.__matmul__ self other st = (Ok out, st1) ∧
    fits st1 (Matmul_backward self b out).
Proof.
  intros Hc Hs Hb H2s H2b Hd. eexists _, _. split; [by eapply matmul_spec|].
  eapply fits_matmul; fits_binary.
Qed.

Lemma fits_exp_built st self ts :
  heap st !! self = Some ts →
  ∃ out st1, Tensor.exp np_exp self st = (Ok out, st1) ∧
    fits st1 (Exp_backward self out).
Proof.
  intros Hs. eexists _, _. split; [by eapply exp_spec|].
  eapply fits_exp; fits_binary.
Qed.

Lemma fits_neg_built st self ts :
  heap st !! self = Some ts →
  ∃ out st1, Tensor.__neg__ self st = (Ok out, st1) ∧
    fits st1 (Neg_backward self out).
Proof.
  intros Hs. eexists _, _. split; [by eapply neg_spec|].
  eapply fits_neg; fits_binary.
Qed.

Lemma fits_T_built st self ts :
  heap st !! self = Some ts →
  ∃ out st1, Tensor.T self st = (Ok out, st1) ∧
    fits st1 (T_backward self out).
Proof.
  intros Hs. eexists _, _. split; [by eapply T_spec|].
  eapply fits_T; fits_binary.
Qed.

End Fits.

(** ** Heaps stay closed under allocation and assignment *)

Lemma heap_closed_nil : heap_closed [].
Proof. constructor. Qed.

Lemma heap_closed_snoc h t :
  heap_closed h → (∀ c, c ∈ _components t → c < length h) → heap_closed (h ++ [t]).
Proof.
  unfold heap_closed. intros Hh Ht. rewrite length_app. apply Forall_app. split.
  - eapply Forall_impl; [exact Hh|]. intros x Hx c Hc. specialize (Hx c Hc). lia.
  - apply Forall_singleton. intros c Hc. specialize (Ht c Hc). lia.
Qed.

Lemma heap_closed_alter_grad h r g :
  heap_closed h → heap_closed (alter (with_grad g) r h).
Proof.
  unfold heap_closed. rewrite length_alter. intros Hh.
  apply Forall_forall. intros t (i & Hi)%list_elem_of_lookup_1 c Hc.
  rewrite list_lookup_alter in Hi. destruct (decide (r = i)) as [->|].
  - apply fmap_Some in Hi as (t' & Ht' & ->). cbn in Hc.
    eapply (proj1 (Forall_forall _ _) Hh); [|exact Hc]. by eapply list_elem_of_lookup_2.
  - eapply (proj1 (Forall_forall _ _) Hh); [|exact Hc]. by eapply list_elem_of_lookup_2.
Qed.

(** ** The operators and their backward rules *)

Section Rules.

Variable np_exp : float → float.
Variable np_pow : float → float → float.

Local Abbreviation backward := (Tensor.backward np_exp np_pow).

(** C1. For Tensors [a], [b] with [a.requires_grad] true and
    [out = a * b]: the rule bound to [out._backward] is the closure of
    [__mul__], and calling it in any later state where [out.grad] holds
    an array [g] assigns [-g] to [a.grad] and to [b.grad] (not
    [b.data * g] and [a.data * g]). *)
Theorem mul_backward_negates st a b ta tb d :
  heap st !! a = Some ta →
  heap st !! b = Some tb →
  requires_grad ta = true →
  np.mul (data ta) (data tb) = Ok d →
  ∃ out st1,
    Tensor.__mul__ a (OTensor b) st = (Ok out, st1) ∧
    backward_of st1 out = Some (Mul_backward a b out) ∧
    ∀ st2 g,
      backward_of st2 out = Some (Mul_backward a b out) →
      is_Some (heap st2 !! a) →
      is_Some (heap st2 !! b) →
      grad_of st2 out = Some g →
      ∃ st3,
        backward out st2 = (Ok (), st3) ∧
        grad_of st3 a = Some (np.neg g) ∧
        grad_of st3 b = Some (np.neg g) ∧
        grad_of st3 out = Some g.
Proof.
  intros Ha Hb Hrg Hd. eexists _, _. split; [|split].
  - by apply (mul_spec _ _ _ _ _ _ _ _ (coerce_tensor _ _) Ha Hb Hd).
  - unfold backward_of. by rewrite lookup_push_new, Hrg.
  - intros st2 g (tout & Hout & Hc)%backward_of_Some [ta' Ha'] [tb' Hb'].
    intros (tout' & Hout' & Hg)%grad_of_Some. simplify_eq.
    pose proof (fresh_ne st a (mk_is_Some _ _ Ha)) as Hne.
    pose proof (fresh_ne st b (mk_is_Some _ _ Hb)) as Hne'.
    eexists. split; [|split; [|split]].
    + rewrite (backward_unfold _ _ _ _ _ Hout), <- Hc.
      by eapply call_mul.
    + destruct (decide (b = a)) as [->|].
      * apply grad_of_assign_same. by rewrite is_Some_assign.
      * rewrite grad_of_assign_other by done. by apply grad_of_assign_same.
    + apply grad_of_assign_same. by rewrite is_Some_assign.
    + rewrite !grad_of_assign_other by done. apply grad_of_Some. eauto.
Qed.

(** C5. For Tensors [a] and [b], [out = a + b] is a new object whose
    data is the sum [a.data + b.data] of the array layer (position by
    position when the shapes agree), whose operands are the set [{a, b}],
    whose operator tag is ["+"], and whose [requires_grad] is true
    whatever the flags of [a] and [b]; when the shapes do not broadcast,
    the sum raises and nothing is built. *)
Theorem add_forward st a b ta tb :
  heap st !! a = Some ta →
  heap st !! b = Some tb →
  match np.add (data ta) (data tb) with
  | Ok d =>
      ∃ out st1 tout,
        Tensor.__add__ a (OTensor b) st = (Ok out, st1) ∧
        heap st !! out = None ∧
        heap st1 !! out = Some tout ∧
        data tout = d ∧
        (np.shape (data ta) = np.shape (data tb) →
         length (np.elems (data ta)) = np.size_of (np.shape (data ta)) →
         length (np.elems (data tb)) = np.size_of (np.shape (data tb)) →
         np.shape d = np.shape (data ta) ∧
         np.elems d = zip_with PrimFloat.add (np.elems (data ta)) (np.elems (data tb))) ∧
        _components tout = {[a; b]} ∧
        _operator tout = "+" ∧
        requires_grad tout = true
  | Raise e => Tensor.__add__ a (OTensor b) st = (Raise e, st)
  end.
Proof.
  intros Ha Hb. destruct (np.add (data ta) (data tb)) as [d|e] eqn:Hd.
  - eexists _, _, _. split.
    + by apply (add_spec _ _ _ _ _ _ _ _ (coerce_tensor _ _) Ha Hb Hd).
    + split; [by apply lookup_ge_None_2|]. split; [apply lookup_push_new|].
      split; [done|]. split; [|done].
      intros Hs Hla Hlb. unfold np.add in Hd.
      rewrite (zip_same_shape _ _ _ Hs Hla Hlb) in Hd. by injection Hd as <-.
  - unfold Tensor.__add__. rewrite (bind_ok _ _ _ _ _ (coerce_tensor _ _)).
    do 2 step. by erewrite bind_raise by (by apply lift_raise).
Qed.

(** C3. Which rule an operator binds to [out._backward]. With [b] the
    second operand after coercion: subtract, multiply, divide and
    matrix-multiply bind their own closure when [self.requires_grad] is
    true and leave the no-op default otherwise; add binds its closure
    whatever the flags; power leaves the no-op default. *)
Theorem backward_installation st self other b st0 ts tb :
  Tensor.coerce other st = (Ok b, st0) →
  heap st0 !! self = Some ts →
  heap st0 !! b = Some tb →
  let out := length (heap st0) in
  (∀ d, np.sub (data ts) (data tb) = Ok d →
     ∃ st1, Tensor.__sub__ self other st = (Ok out, st1) ∧
       backward_of st1 out =
         Some (if requires_grad ts then Sub_backward self b out else Lambda_None)) ∧
  (∀ d, np.mul (data ts) (data tb) = Ok d →
     ∃ st1, Tensor.__mul__ self other st = (Ok out, st1) ∧
       backward_of st1 out =
         Some (if requires_grad ts then Mul_backward self b out else Lambda_None)) ∧
  (∀ r d, np_power np_pow (data tb) (VInt (-1)) = Ok r →
     np.mul (data ts) r = Ok d →
     ∃ st1, Tensor.__truediv__ np_pow self other st = (Ok out, st1) ∧
       backward_of st1 out =
         Some (if requires_grad ts then Truediv_backward self b out else Lambda_None)) ∧
  (∀ d, np.matmul (data ts) (data tb) = Ok d →
     ∃ st1, Tensor.__matmul__ self other st = (Ok out, st1) ∧
       backward_of st1 out =
         Some (if requires_grad ts then Matmul_backward self b out else Lambda_None)) ∧
  (∀ d, np.add (data ts) (data tb) = Ok d →
     ∃ st1, Tensor.__add__ self other st = (Ok out, st1) ∧
       backward_of st1 out = Some (Add_backward self b out)) ∧
  (∀ v e d, np_array v = Ok e →
     np_power np_pow (data ts) v = Ok d →
     ∃ st1, Tensor.__pow__ np_pow self v st0 = (Ok (S out), st1) ∧
       backward_of st1 (S out) = Some Lambda_None).
Proof.
  intros Hc Hs Hb. cbv zeta. repeat split.
  - intros d Hd. eexists. split; [by eapply sub_spec|].
    unfold backward_of. by rewrite lookup_push_new.
  - intros d Hd. eexists. split; [by eapply mul_spec|].
    unfold backward_of. by rewrite lookup_push_new.
  - intros r d Hr Hd. eexists. split; [by eapply truediv_spec|].
    unfold backward_of. by rewrite lookup_push_new.
  - intros d Hd. eexists. split; [by eapply matmul_spec|].
    unfold backward_of. by rewrite lookup_push_new.
  - intros d Hd. eexists. split; [by eapply add_spec|].
    unfold backward_of. by rewrite lookup_push_new.
  - intros v e d He Hd. eexists. split; [by eapply pow_spec|].
    unfold backward_of.
    replace (S (length (heap st0)))
      with (length (heap (push st0 (coerced_leaf v e))))
      by (unfold push; cbn [heap]; rewrite length_app; cbn; lia).
    by rewrite lookup_push_new.
Qed.

(** C6. For [out = a / b] with [a.requires_grad] true: the data of [out]
    is [a.data * b.data**-1], and calling the rule of [out] when
    [out.grad] holds [g] first assigns [sg = b.data**-1 * g] to [a.grad]
    and then [-sg * b.data**-2 * g] to [b.grad]; these products exist
    when [g] has the shape of the data of [out]. *)
Theorem truediv_rule st a b ta tb r d :
  heap st !! a = Some ta →
  heap st !! b = Some tb →
  requires_grad ta = true →
  np_power np_pow (data tb) (VInt (-1)) = Ok r →
  np.mul (data ta) r = Ok d →
  ∃ out st1,
    Tensor.__truediv__ np_pow a (OTensor b) st = (Ok out, st1) ∧
    data_of st1 out = Some d ∧
    backward_of st1 out = Some (Truediv_backward a b out) ∧
    ∀ st2 g,
      backward_of st2 out = Some (Truediv_backward a b out) →
      is_Some (heap st2 !! a) →
      data_of st2 b = Some (data tb) →
      grad_of st2 out = Some g →
      (∀ sg r2 p og,
         np.mul r g = Ok sg →
         np_power np_pow (data tb) (VInt (-2)) = Ok r2 →
         np.mul (np.neg sg) r2 = Ok p →
         np.mul p g = Ok og →
         ∃ st3,
           backward out st2 = (Ok (), st3) ∧
           grad_of st3 a = Some (if decide (a = b) then og else sg) ∧
           grad_of st3 b = Some og) ∧
      (np.shape g = np.shape d →
       ∃ sg r2 p og,
         np.mul r g = Ok sg ∧
         np_power np_pow (data tb) (VInt (-2)) = Ok r2 ∧
         np.mul (np.neg sg) r2 = Ok p ∧
         np.mul p g = Ok og).
Proof.
  intros Ha Hb Hrg Hr Hd. eexists _, _. split; [|split; [|split]].
  - by apply (truediv_spec _ _ _ _ _ _ _ _ _ _ (coerce_tensor _ _) Ha Hb Hr Hd).
  - unfold data_of. by rewrite lookup_push_new.
  - unfold backward_of. by rewrite lookup_push_new, Hrg.
  - intros st2 g (tout & Hout & Hc)%backward_of_Some [ta' Ha'].
    intros (tb' & Hb' & Hdb)%data_of_Some (tout' & Hout' & Hg)%grad_of_Some.
    simplify_eq. split.
    + intros sg r2 p og Hsg Hr2 Hp Hog.
      pose proof (fresh_ne st a (mk_is_Some _ _ Ha)) as Hne.
      eexists. split; [|split].
      * rewrite (backward_unfold _ _ _ _ _ Hout), <- Hc.
        eapply call_truediv; try done.
        -- unfold truediv_self_grad. rewrite <- Hdb, Hr. cbn. exact Hsg.
        -- unfold truediv_other_grad. rewrite <- Hdb, Hr2. cbn. rewrite Hp. exact Hog.
      * destruct (decide (a = b)) as [->|].
        -- apply grad_of_assign_same. by rewrite is_Some_assign.
        -- rewrite grad_of_assign_other by done. by apply grad_of_assign_same.
      * apply grad_of_assign_same. by rewrite is_Some_assign.
    + intros Hsg.
      destruct (truediv_products np_pow _ _ _ _ g Hr Hd Hsg)
        as (sg & r2 & p & og & ? & ? & ? & ? & _). by exists sg, r2, p, og.
Qed.

(** C7, as the code has it. The rule of divide assigns [self.grad]
    before it reads it: whatever [self.grad] held before the call, unset
    or set, the call gives the same outcome, and when it completes the
    same state, hence the same [other.grad]. *)
Theorem truediv_ignores_prior_grad st self other out ts to tout g0 g1 :
  out ≠ self →
  heap st !! self = Some ts →
  heap st !! other = Some to →
  heap st !! out = Some tout →
  let before g := assign_grad self g st in
  let after g := Tensor.call np_exp np_pow (Truediv_backward self other out) (before g) in
  (after g0).1 = (after g1).1 ∧
  ((after g0).1 = Ok () → (after g0).2 = (after g1).2).
Proof.
  intros Hne Hs Ho Hout. cbv zeta.
  assert (∀ g, ∃ ts' to',
    heap (assign_grad self g st) !! self = Some ts' ∧
    heap (assign_grad self g st) !! other = Some to' ∧
    heap (assign_grad self g st) !! out = Some tout ∧
    data to' = data to) as Hlook.
  { intros g. rewrite !lookup_assign, Hs, Ho, Hout.
    destruct (decide (self = out)); [congruence|].
    destruct (decide (self = self)); [|done].
    eexists _, _. repeat split. by destruct (decide (self = other)). }
  destruct (Hlook g0) as (ts0 & to0 & Hs0 & Ho0 & Hout0 & Hd0).
  destruct (Hlook g1) as (ts1 & to1 & Hs1 & Ho1 & Hout1 & Hd1).
  rewrite (call_truediv_total _ _ _ _ _ _ _ _ _ Hne Hs0 Ho0 Hout0).
  rewrite (call_truediv_total _ _ _ _ _ _ _ _ _ Hne Hs1 Ho1 Hout1).
  rewrite Hd0, Hd1.
  destruct (truediv_self_grad _ _ _) as [sg|e]; [|done].
  rewrite !assign_grad_twice.
  by destruct (truediv_other_grad _ _ _ _).
Qed.

Lemma requires_grad_of_assign st r r' g :
  requires_grad_of (assign_grad r g st) r' = requires_grad_of st r'.
Proof.
  unfold requires_grad_of. rewrite lookup_assign.
  destruct (heap st !! r'), (decide (r = r')); done.
Qed.

(** [out.grad = g; out._backward()] right after [out] has been built
    with the rule [c] bound. *)
Lemma seed_then_backward st t c g :
  _backward t = c →
  (set_grad (length (heap st)) (Some g);; backward (length (heap st))) (push st t) =
    Tensor.call np_exp np_pow c (assign_grad (length (heap st)) (Some g) (push st t)).
Proof.
  intros <-. erewrite bind_ok by (eapply set_grad_ok, lookup_push_new).
  erewrite backward_unfold
    by (rewrite lookup_assign, lookup_push_new; by destruct (decide _)).
  done.
Qed.


(** C4, as the code has it. For [a = Tensor([0.0], requires_grad=True)],
    with [np.exp(0.0) = 1.0]: [exp(a).data] is [[1.0]], and after
    [out.grad = [1.0]] and [out._backward()], [a.grad] is [[1.0]]. With
    the defaults of the constructor, [requires_grad] is false, [exp]
    binds no rule, and [a.grad] is still [None] after the same steps. *)
Theorem exp_round_trip st (flag : option bool) :
  np_exp 0%float = 1%float →
  let one := np.mk_ndarray [1] [1%float] in
  let steps :=
    a ← Tensor.__init__ (VList [VFloat 0%float]) None flag [] "";
    out ← Tensor.exp np_exp a;
    set_grad out (Some one);;
    backward out;;
    d ← get_data out;
    g ← get_grad a;
    mret (d, g) in
  (steps st).1 = Ok (one, if default false flag then Some one else None).
Proof.
  intros Hexp. cbv zeta.
  set (a := length (heap st)).
  set (zero := np.mk_ndarray [1] [0%float]).
  set (one := np.mk_ndarray [1] [1%float]).
  set (ta := mk_Tensor zero (Lit "") (default false flag) None Lambda_None [1] ∅ "").
  set (c := if default false flag then Exp_backward a (S a) else Lambda_None).
  set (tout := out_node one c {[a]} "exp").
  set (st3 := assign_grad (S a) (Some one) (push (push st ta) tout)).
  assert (length (heap (push st ta)) = S a) as Hlen
    by (unfold push; cbn [heap]; rewrite length_app; cbn; lia).
  assert (np.map1 np_exp zero = one) as Hmap
    by (unfold np.map1; cbn; by rewrite Hexp).
  assert (heap st3 !! a = Some ta) as Ha.
  { unfold st3. rewrite lookup_assign.
    erewrite lookup_push_old by apply lookup_push_new.
    destruct (decide (S a = a)); [lia|done]. }
  assert (heap st3 !! S a = Some (with_grad (Some one) tout)) as Hout.
  { unfold st3. rewrite lookup_assign, <- Hlen, lookup_push_new.
    by destruct (decide _). }
  assert (Tensor.__init__ (VList [VFloat 0%float]) None flag [] "" st
          = (Ok a, push st ta)) as H1 by (by apply init_ok).
  assert (Tensor.exp np_exp a (push st ta) = (Ok (S a), push (push st ta) tout)) as H2.
  { rewrite (exp_spec _ _ _ ta) by apply lookup_push_new.
    rewrite Hlen. cbn [data requires_grad ta]. by rewrite Hmap. }
  assert (set_grad (S a) (Some one) (push (push st ta) tout) = (Ok (), st3)) as H3.
  { eapply set_grad_ok. rewrite <- Hlen. apply lookup_push_new. }
  rewrite (bind_ok _ _ _ _ _ H1), (bind_ok _ _ _ _ _ H2), (bind_ok _ _ _ _ _ H3).
  assert (backward (S a) st3 =
            (Ok (), if default false flag then assign_grad a (Some one) st3 else st3))
    as H4.
  { erewrite backward_unfold by exact Hout. cbn [_backward with_grad tout out_node].
    unfold c. destruct (default false flag); [|reflexivity].
    eapply call_exp; [exact Ha|exact Hout|reflexivity|].
    cbn [data ta]. rewrite Hmap. reflexivity. }
  rewrite (bind_ok _ _ _ _ _ H4). clear H1 H2 H3 H4.
  destruct (default false flag).
  - erewrite bind_ok by (eapply get_data_ok; rewrite lookup_assign, Hout; done).
    erewrite bind_ok by (eapply get_grad_ok; eapply lookup_alter_same; exact Ha).
    destruct (decide (a = S a)); [lia|]. reflexivity.
  - erewrite bind_ok by (eapply get_data_ok; exact Hout).
    erewrite bind_ok by (eapply get_grad_ok; exact Ha).
    reflexivity.
Qed.

(** C9. [zeros(shape)] and [randn(shape)] (for [(2, 3)] as for any
    shape) return a new leaf of that shape, all of whose elements are 0
    for [zeros], and whose [requires_grad] is true when the argument is
    left out; the constructor with [requires_grad] left out sets it to
    false. *)
Theorem factories st (normal : nat → float) (shp : list nat) :
  (∃ t, zeros shp None None st = (Ok (length (heap st)), push st t) ∧
     shape t = shp ∧ np.shape (data t) = shp ∧
     np.elems (data t) = replicate (np.size_of shp) 0%float ∧
     _components t = ∅ ∧ _operator t = "" ∧ requires_grad t = true) ∧
  (∃ t st1, randn normal shp None None st = (Ok (length (heap st)), st1) ∧
     heap st1 = heap st ++ [t] ∧
     shape t = shp ∧ np.shape (data t) = shp ∧
     length (np.elems (data t)) = np.size_of shp ∧
     _components t = ∅ ∧ _operator t = "" ∧ requires_grad t = true) ∧
  (∀ d lbl comps op,
     match np_array d with
     | Ok a =>
         ∃ t, Tensor.__init__ d lbl None comps op st = (Ok (length (heap st)), push st t) ∧
              data t = a ∧ requires_grad t = false
     | Raise e => Tensor.__init__ d lbl None comps op st = (Raise e, st)
     end).
Proof.
  repeat split.
  - eexists. split; [unfold zeros; by apply init_ok|]. done.
  - eexists _, _. split.
    { unfold randn. erewrite bind_ok by reflexivity.
      erewrite init_ok by reflexivity. cbn [heap rng_pos]. reflexivity. }
    split; [reflexivity|]. cbn. by rewrite length_map, length_seq.
  - intros d lbl comps op. destruct (np_array d) as [a|e] eqn:E.
    + eexists. split; [by apply init_ok|done].
    + unfold Tensor.__init__. by erewrite bind_raise by (by apply lift_raise).
Qed.

End Rules.

(** ** The rules at concrete states *)

(** C1 at [a * b] in [st_ab]. *)
Lemma mul_backward_negates_witness :
  ∃ out st1,
    Tensor.__mul__ 0 (OTensor 1) st_ab = (Ok out, st1) ∧
    backward_of st1 out = Some (Mul_backward 0 1 out) ∧
    ∀ st2 g,
      backward_of st2 out = Some (Mul_backward 0 1 out) →
      is_Some (heap st2 !! 0) →
      is_Some (heap st2 !! 1) →
      grad_of st2 out = Some g →
      ∃ st3,
        Tensor.backward exp_series pow_integral out st2 = (Ok (), st3) ∧
        grad_of st3 0 = Some (np.neg g) ∧
        grad_of st3 1 = Some (np.neg g) ∧
        grad_of st3 out = Some g.
Proof.
  eapply (mul_backward_negates exp_series pow_integral st_ab 0 1 t_a t_b);
    [reflexivity | reflexivity | reflexivity | vm_compute; reflexivity].
Defined.

Example st_ab_built :
  run (Tensor.__init__ (VList [VList [VInt 1; VInt 2]; VList [VInt 3; VInt 4]])
         None (Some true) [] "";;
       Tensor.__init__ (VList [VList [VInt 2; VInt 4]; VList [VInt 8; VInt 16]])
         None None [] "") = (Ok 1, st_ab).
Proof. vm_compute. reflexivity. Qed.

Example st_div_built :
  (out ← Tensor.__truediv__ pow_integral 0 (OTensor 1); set_grad out (Some ones22)) st_ab
  = (Ok (), st_div).
Proof. vm_compute. reflexivity. Qed.

(** C5 at [a + b] in [st_ab]. *)
Lemma add_forward_witness :
  match np.add (data t_a) (data t_b) with
  | Ok d =>
      ∃ out st1 tout,
        Tensor.__add__ 0 (OTensor 1) st_ab = (Ok out, st1) ∧
        heap st_ab !! out = None ∧
        heap st1 !! out = Some tout ∧
        data tout = d ∧
        (np.shape (data t_a) = np.shape (data t_b) →
         length (np.elems (data t_a)) = np.size_of (np.shape (data t_a)) →
         length (np.elems (data t_b)) = np.size_of (np.shape (data t_b)) →
         np.shape d = np.shape (data t_a) ∧
         np.elems d = zip_with PrimFloat.add (np.elems (data t_a)) (np.elems (data t_b))) ∧
        _components tout = {[0; 1]} ∧
        _operator tout = "+" ∧
        requires_grad tout = true
  | Raise e => Tensor.__add__ 0 (OTensor 1) st_ab = (Raise e, st_ab)
  end.
Proof. apply (add_forward st_ab 0 1 t_a t_b); reflexivity. Defined.

Example add_in_st_ab :
  np.add (data t_a) (data t_b) = Ok (matrix22 3 6 11 20).
Proof. vm_compute. reflexivity. Qed.

(** C3 at the operators applied to [a] and [b] in [st_ab]. *)
Lemma backward_installation_witness :
  (let out := 2 in
  (∀ d, np.sub (data t_a) (data t_b) = Ok d →
     ∃ st1, Tensor.__sub__ 0 (OTensor 1) st_ab = (Ok out, st1) ∧
       backward_of st1 out =
         Some (if requires_grad t_a then Sub_backward 0 1 out else Lambda_None)) ∧
  (∀ d, np.mul (data t_a) (data t_b) = Ok d →
     ∃ st1, Tensor.__mul__ 0 (OTensor 1) st_ab = (Ok out, st1) ∧
       backward_of st1 out =
         Some (if requires_grad t_a then Mul_backward 0 1 out else Lambda_None)) ∧
  (∀ r d, np_power pow_integral (data t_b) (VInt (-1)) = Ok r →
     np.mul (data t_a) r = Ok d →
     ∃ st1, Tensor.__truediv__ pow_integral 0 (OTensor 1) st_ab = (Ok out, st1) ∧
       backward_of st1 out =
         Some (if requires_grad t_a then Truediv_backward 0 1 out else Lambda_None)) ∧
  (∀ d, np.matmul (data t_a) (data t_b) = Ok d →
     ∃ st1, Tensor.__matmul__ 0 (OTensor 1) st_ab = (Ok out, st1) ∧
       backward_of st1 out =
         Some (if requires_grad t_a then Matmul_backward 0 1 out else Lambda_None)) ∧
  (∀ d, np.add (data t_a) (data t_b) = Ok d →
     ∃ st1, Tensor.__add__ 0 (OTensor 1) st_ab = (Ok out, st1) ∧
       backward_of st1 out = Some (Add_backward 0 1 out)) ∧
  (∀ v e d, np_array v = Ok e →
     np_power pow_integral (data t_a) v = Ok d →
     ∃ st1, Tensor.__pow__ pow_integral 0 v st_ab = (Ok (S out), st1) ∧
       backward_of st1 (S out) = Some Lambda_None)).
Proof.
  apply (backward_installation pow_integral st_ab 0 (OTensor 1) 1 st_ab t_a t_b);
    reflexivity.
Defined.

(** C6 at [a / b] in [st_ab]. *)
Lemma truediv_rule_witness :
  ∃ out st1,
    Tensor.__truediv__ pow_integral 0 (OTensor 1) st_ab = (Ok out, st1) ∧
    data_of st1 out = Some (matrix22 0.5 0.5 0.375 0.25) ∧
    backward_of st1 out = Some (Truediv_backward 0 1 out) ∧
    ∀ st2 g,
      backward_of st2 out = Some (Truediv_backward 0 1 out) →
      is_Some (heap st2 !! 0) →
      data_of st2 1 = Some (data t_b) →
      grad_of st2 out = Some g →
      (∀ sg r2 p og,
         np.mul (matrix22 0.5 0.25 0.125 0.0625) g = Ok sg →
         np_power pow_integral (data t_b) (VInt (-2)) = Ok r2 →
         np.mul (np.neg sg) r2 = Ok p →
         np.mul p g = Ok og →
         ∃ st3,
           Tensor.backward exp_series pow_integral out st2 = (Ok (), st3) ∧
           grad_of st3 0 = Some (if decide (0 = 1) then og else sg) ∧
           grad_of st3 1 = Some og) ∧
      (np.shape g = np.shape (matrix22 0.5 0.5 0.375 0.25) →
       ∃ sg r2 p og,
         np.mul (matrix22 0.5 0.25 0.125 0.0625) g = Ok sg ∧
         np_power pow_integral (data t_b) (VInt (-2)) = Ok r2 ∧
         np.mul (np.neg sg) r2 = Ok p ∧
         np.mul p g = Ok og).
Proof.
  apply (truediv_rule exp_series pow_integral st_ab 0 1 t_a t_b
           (matrix22 0.5 0.25 0.125 0.0625) (matrix22 0.5 0.5 0.375 0.25));
    [reflexivity | reflexivity | reflexivity
    | vm_compute; reflexivity | vm_compute; reflexivity].
Defined.

(** C7, refuted as stated: with [a.grad] unset before the call, the rule
    of [a / b] completes and writes into [b.grad] the same array as with
    [a.grad = [[7, 7], [7, 7]]] before the call. *)
Lemma truediv_prior_grad_counterexample :
  let after g :=
    Tensor.call exp_series pow_integral (Truediv_backward 0 1 2)
                (assign_grad 0 g st_div) in
  let written := matrix22 (-0.125) (-0.015625) (-0.001953125) (-0.000244140625) in
  (after None).1 = Ok () ∧
  grad_of (after None).2 1 = Some written ∧
  grad_of (after (Some (matrix22 7 7 7 7))).2 1 = Some written.
Proof. vm_compute. done. Qed.

(** C7, as the code has it, at the rule of [a / b] in [st_div]. *)
Lemma truediv_ignores_prior_grad_witness :
  let before g := assign_grad 0 g st_div in
  let after g :=
    Tensor.call exp_series pow_integral (Truediv_backward 0 1 2) (before g) in
  (after None).1 = (after (Some (matrix22 7 7 7 7))).1 ∧
  ((after None).1 = Ok () → (after None).2 = (after (Some (matrix22 7 7 7 7))).2).
Proof.
  apply (truediv_ignores_prior_grad exp_series pow_integral st_div 0 1 2
           t_a t_b t_quotient None (Some (matrix22 7 7 7 7)));
    [lia | reflexivity | reflexivity | reflexivity].
Defined.

(** C4, refuted as stated: for [a = Tensor([0.0])] with the defaults of
    the constructor, [exp(a).data] is [[1.0]], and after
    [out.grad = [1.0]] and [out._backward()], [a.grad] is [None]. *)
Lemma exp_default_counterexample :
  let one := np.mk_ndarray [1] [1%float] in
  (run (a ← Tensor.__init__ (VList [VFloat 0%float]) None None [] "";
        out ← Tensor.exp exp_series a;
        set_grad out (Some one);;
        Tensor.backward exp_series pow_integral out;;
        d ← get_data out;
        g ← get_grad a;
        mret (d, g))).1 = Ok (one, None).
Proof. vm_compute. reflexivity. Qed.

(** C4, as the code has it, in a fresh interpreter with [exp_series]. *)
Lemma exp_round_trip_witness :
  exp_series 0%float = 1%float ∧
  let one := np.mk_ndarray [1] [1%float] in
  let steps :=
    a ← Tensor.__init__ (VList [VFloat 0%float]) None (Some true) [] "";
    out ← Tensor.exp exp_series a;
    set_grad out (Some one);;
    Tensor.backward exp_series pow_integral out;;
    d ← get_data out;
    g ← get_grad a;
    mret (d, g) in
  (steps empty_state).1 = Ok (one, Some one).
Proof.
  assert (exp_series 0%float = 1%float) as H by (vm_compute; reflexivity).
  split; [exact H|].
  exact (exp_round_trip exp_series pow_integral empty_state (Some true) H).
Defined.



(** The gradients [b] receives in [st_ab] with [out.grad] set to ones,
    under each of the four operators. *)
Example other_grads_in_st_ab :
  let grad_b_after (op : ref → operand → M ref) :=
    grad_of ((out ← op 0 (OTensor 1); set_grad out (Some ones22);;
              Tensor.backward exp_series pow_integral out) st_ab).2 1 in
  grad_b_after Tensor.__sub__ = Some (matrix22 (-1) (-1) (-1) (-1)) ∧
  grad_b_after Tensor.__mul__ = Some (matrix22 (-1) (-1) (-1) (-1)) ∧
  grad_b_after (Tensor.__truediv__ pow_integral) =
    Some (matrix22 (-0.125) (-0.015625) (-0.001953125) (-0.000244140625)) ∧
  grad_b_after Tensor.__matmul__ = Some (matrix22 4 4 6 6).
Proof. vm_compute. done. Qed.

(** A constant is coerced into a leaf whose [requires_grad] is false, and
    the rule of [a - 5] still assigns the grad of that leaf (object 2). *)
Example coerced_constant_gets_grad :
  let st := ((out ← Tensor.__sub__ 0 (OValue (VInt 5)); set_grad out (Some ones22);;
              Tensor.backward exp_series pow_integral out) st_ab).2 in
  requires_grad_of st 2 = Some false ∧
  grad_of st 2 = Some (matrix22 (-1) (-1) (-1) (-1)).
Proof. vm_compute. done. Qed.

(** ** Correctness of [trace] *)

Section TraceCorrect.

Variable order : gset ref → list ref.
Hypothesis order_perm : ∀ X, order X ≡ₚ elements X.

Variable h : list Tensor.
Hypothesis closed : heap_closed h.

Variable root : ref.

Local Abbreviation universe := (set_seq 0 (length h) : gset ref).
Local Abbreviation reachable := (reachable h).
Local Abbreviation walk_inv := (walk_inv h root).
Local Abbreviation build_ok := (build_ok order h root).

Lemma components_valid v c : c ∈ components h v → c ∈ universe.
Proof.
  unfold components. intros Hc. apply elem_of_set_seq. split; [lia|]. cbn.
  destruct (h !! v) as [t|] eqn:Hv; cbn in Hc; [|set_solver].
  eapply (proj1 (Forall_forall _ _) closed); [|done]. by eapply list_elem_of_lookup_2.
Qed.

Lemma elem_of_order X c : c ∈ order X ↔ c ∈ X.
Proof. by rewrite order_perm, elem_of_elements. Qed.

Lemma loop_ok fuel v gray :
  build_ok fuel →
  reachable root v →
  ∀ l nodes edges,
    (∀ c, c ∈ l → c ∈ components h v) →
    walk_inv ({[v]} ∪ gray) nodes edges →
    v ∈ nodes →
    size (universe ∖ nodes) < fuel →
    ∃ nodes' edges',
      foldl (λ acc component,
               '(nodes, edges) ← acc;
               build order h fuel component (nodes, {[(component, v)]} ∪ edges))
            (Some (nodes, edges)) l = Some (nodes', edges') ∧
      walk_inv ({[v]} ∪ gray) nodes' edges' ∧
      nodes ⊆ nodes' ∧ edges ⊆ edges' ∧
      ∀ c, c ∈ l → c ∈ nodes' ∧ (c, v) ∈ edges'.
Proof.
  intros IH Hv l. induction l as [|c l IHl]; intros nodes edges Hl Hinv Hin Hsize.
  - exists nodes, edges. do 4 (split; [done|]). intros c Hc. by apply elem_of_nil in Hc.
  - cbn [foldl mbind option_bind].
    assert (c ∈ components h v) as Hc by (apply Hl; left).
    destruct (IH c ({[v]} ∪ gray) nodes ({[(c, v)]} ∪ edges))
      as (nodes1 & edges1 & Hb & Hinv1 & Hn1 & He1 & Hc1); [| | |done|].
    { destruct Hinv as [H1 H2 H3 H4]. split; [| |done|done].
      - intros w c' Hw Hg Hc'. destruct (H1 w c' Hw Hg Hc'). set_solver.
      - intros c' w [Heq%elem_of_singleton|He]%elem_of_union; [|by apply H2].
        by simplify_eq. }
    { eapply rtc_r; [exact Hv|exact Hc]. }
    { by eapply components_valid. }
    rewrite Hb.
    destruct (IHl nodes1 edges1) as (nodes2 & edges2 & Hf & Hinv2 & Hn2 & He2 & Hl2).
    { intros c' Hc'. apply Hl. by right. }
    { done. }
    { set_solver. }
    { eapply Nat.le_lt_trans; [|exact Hsize]. apply subseteq_size. set_solver. }
    exists nodes2, edges2. do 2 (split; [done|]). do 2 (split; [set_solver|]).
    intros c' [->|Hc']%elem_of_cons; [set_solver|by apply Hl2].
Qed.

Lemma build_correct fuel : build_ok fuel.
Proof.
  induction fuel as [|fuel IH]; intros v gray nodes edges Hinv Hv Hval Hsize; [lia|].
  cbn [build fst snd]. destruct (decide (v ∈ nodes)) as [Hin|Hnin].
  { exists nodes, edges. by do 4 (split; [done|]). }
  destruct (loop_ok fuel v gray IH Hv (order (components h v)) ({[v]} ∪ nodes) edges)
    as (nodes' & edges' & Hf & Hinv' & Hn & He & Hl).
  - intros c. by rewrite elem_of_order.
  - destruct Hinv as [H1 H2 H3 H4]. split.
    + intros w c Hw Hg Hc. destruct (H1 w c) as [??]; set_solver.
    + intros c w Hcw. destruct (H2 c w Hcw). set_solver.
    + intros w [->%elem_of_singleton|Hw]%elem_of_union; [done|by apply H3].
    + set_solver.
  - set_solver.
  - assert (universe ∖ ({[v]} ∪ nodes) ⊂ universe ∖ nodes) as Hsub by set_solver.
    apply subset_size in Hsub. lia.
  - exists nodes', edges'. split; [done|]. split; [|set_solver].
    destruct Hinv' as [H1 H2 H3 H4]. split; [|done|done|done].
    intros w c Hw Hg Hc. destruct (decide (w = v)) as [->|Hne].
    + apply Hl. by rewrite elem_of_order.
    + apply (H1 w c); set_solver.
Qed.

Lemma trace_correct :
  root < length h →
  ∃ nodes edges,
    trace order h root = Some (nodes, edges) ∧
    (∀ v, v ∈ nodes ↔ reachable root v) ∧
    (∀ c v, (c, v) ∈ edges ↔ reachable root v ∧ c ∈ components h v).
Proof.
  intros Hroot.
  destruct (build_correct (S (length h)) root ∅ ∅ ∅)
    as (nodes & edges & Hb & [H1 H2 H3 H4] & _ & _ & Hin).
  - split; set_solver.
  - apply rtc_refl.
  - apply elem_of_set_seq. lia.
  - rewrite difference_empty_L, size_set_seq. lia.
  - exists nodes, edges. split; [done|].
    assert (∀ v, reachable root v → v ∈ nodes) as Hall.
    { intros v Hv. eapply (rtc_ind_r (λ v, v ∈ nodes)); [exact Hin| |exact Hv].
      intros w c _ Hc Hw. eapply H1; [exact Hw|set_solver|exact Hc]. }
    split.
    + intros v. split; [apply H3|apply Hall].
    + intros c v. split.
      * intros [??]%H2. split; [by apply H3|done].
      * intros [Hv Hc]. eapply H1; [by apply Hall|set_solver|done].
Qed.

End TraceCorrect.

Lemma filter_absent (l : list ref) (x : ref) :
  x ∉ l → filter (λ v, v = x) l = [].
Proof.
  induction l as [|y l IH]; [done|]. intros [Hne Hx]%not_elem_of_cons.
  rewrite filter_cons_False by done. by apply IH.
Qed.

Lemma count_in_NoDup (l : list ref) (x : ref) :
  NoDup l → x ∈ l → length (filter (λ v, v = x) l) = 1.
Proof.
  induction 1 as [|y l Hy Hnd IH]; intros Hx; [by apply elem_of_nil in Hx|].
  destruct (decide (y = x)) as [->|Hne].
  - rewrite filter_cons_True by done. cbn. by rewrite filter_absent.
  - rewrite filter_cons_False by done.
    apply IH. apply elem_of_cons in Hx as [->|]; done.
Qed.

(** C8. On a heap whose operands are all in the heap, whatever the order
    in which sets are iterated, [trace(root)] returns the set of the
    objects reachable from [root] along operand references and the set of
    the pairs (operand, consumer) with a reachable consumer. On a
    diamond, where a leaf is an operand of exactly two reachable objects
    [p] and [q], the leaf is one element of the nodes, and the edges at
    the leaf are the two edges to [p] and to [q]. *)
Theorem trace_reachable (order : gset ref → list ref) (h : list Tensor) (root : ref) :
  (∀ X, order X ≡ₚ elements X) →
  heap_closed h →
  root < length h →
  ∃ nodes edges,
    trace order h root = Some (nodes, edges) ∧
    (∀ v, v ∈ nodes ↔ reachable h root v) ∧
    (∀ c v, (c, v) ∈ edges ↔ reachable h root v ∧ c ∈ components h v) ∧
    (∀ leaf p q,
       components h leaf = ∅ →
       p ≠ q →
       reachable h root p → leaf ∈ components h p →
       reachable h root q → leaf ∈ components h q →
       (∀ w, reachable h root w → leaf ∈ components h w → w = p ∨ w = q) →
       leaf ∈ nodes ∧
       length (filter (λ v, v = leaf) (elements nodes)) = 1 ∧
       filter (incident leaf) edges = {[(leaf, p); (leaf, q)]} ∧
       size (filter (incident leaf) edges) = 2).
Proof.
  intros Hord Hcl Hroot.
  destruct (trace_correct order Hord h Hcl root Hroot) as (nodes & edges & Ht & Hn & He).
  exists nodes, edges. do 3 (split; [done|]).
  intros leaf p q Hleaf Hpq Hp Hlp Hq Hlq Honly.
  assert (leaf ∈ nodes) as Hin.
  { apply Hn. eapply rtc_r; [exact Hp|exact Hlp]. }
  assert (filter (incident leaf) edges = {[(leaf, p); (leaf, q)]}) as Hf.
  { apply set_eq. intros [c v]. rewrite elem_of_filter, He. unfold incident. cbn.
    rewrite elem_of_union, !elem_of_singleton. split.
    - intros [[->| ->] [Hv Hc]].
      + destruct (Honly v Hv Hc) as [->| ->]; auto.
      + rewrite Hleaf in Hc. set_solver.
    - intros [?|?]; simplify_eq; auto. }
  split; [done|]. split; [|split; [done|]].
  - apply count_in_NoDup; [apply NoDup_elements|by apply elem_of_elements].
  - rewrite Hf, size_union, !size_singleton; [done|].
    apply disjoint_singleton_l. rewrite elem_of_singleton. congruence.
Qed.

Example h_diamond_built :
  run (x ← Tensor.__init__ (VList [VInt 1; VInt 2]) None (Some true) [] "";
       p ← Tensor.exp exp_series x;
       q ← Tensor.__neg__ x;
       Tensor.__add__ p (OTensor q)) = (Ok 3, mk_state h_diamond 0).
Proof. vm_compute. reflexivity. Qed.

Example trace_diamond :
  trace elements h_diamond 3 =
    Some ({[0; 1; 2; 3]}, {[(0, 1); (0, 2); (1, 3); (2, 3)]}).
Proof. vm_compute. reflexivity. Qed.

Lemma h_diamond_closed : heap_closed h_diamond.
Proof.
  unfold heap_closed, h_diamond.
  repeat (apply List.Forall_cons; [cbn; intros c; set_unfold; lia|]).
  apply List.Forall_nil.
Qed.

(** C8 at the root of the diamond. *)
Lemma trace_reachable_witness :
  ∃ nodes edges,
    trace elements h_diamond 3 = Some (nodes, edges) ∧
    (∀ v, v ∈ nodes ↔ reachable h_diamond 3 v) ∧
    (∀ c v, (c, v) ∈ edges ↔ reachable h_diamond 3 v ∧ c ∈ components h_diamond v) ∧
    (∀ leaf p q,
       components h_diamond leaf = ∅ →
       p ≠ q →
       reachable h_diamond 3 p → leaf ∈ components h_diamond p →
       reachable h_diamond 3 q → leaf ∈ components h_diamond q →
       (∀ w, reachable h_diamond 3 w → leaf ∈ components h_diamond w → w = p ∨ w = q) →
       leaf ∈ nodes ∧
       length (filter (λ v, v = leaf) (elements nodes)) = 1 ∧
       filter (incident leaf) edges = {[(leaf, p); (leaf, q)]} ∧
       size (filter (incident leaf) edges) = 2).
Proof.
  apply (trace_reachable elements h_diamond 3);
    [reflexivity | exact h_diamond_closed | cbn; lia].
Defined.

(** ** The shape of the gradients a rule writes *)

Section GradShape.

Variable np_exp : float → float.
Variable np_pow : float → float → float.

Local Abbreviation fits := (fits np_exp np_pow).

Lemma grad_of_two st self other g1 g2 r :
  is_Some (heap st !! self) → is_Some (heap st !! other) →
  r ∈ [self; other] →
  grad_of (assign_grad other g2 (assign_grad self g1 st)) r =
    if decide (r = other) then g2 else g1.
Proof.
  intros Hs Ho Hr. destruct (decide (r = other)) as [->|Hne].
  - apply grad_of_assign_same. by rewrite is_Some_assign.
  - rewrite grad_of_assign_other by done.
    assert (r = self) as -> by set_solver. by apply grad_of_assign_same.
Qed.

(** C2, as the code has it. When the rule [c] of a node is called with
    the grad of the node holding an array of the shape of the node's
    data, the call completes and every operand gets a grad: of the shape
    of the node's data for add, subtract, multiply and divide (the
    operand's own shape exactly when it was not broadcast), and of the
    shape of the operand's data for exp, neg, T and the product of two
    matrices. *)
Theorem grad_shape st c out tout g :
  fits st c →
  node c = Some out →
  heap st !! out = Some tout →
  grad tout = Some g →
  np.shape g = np.shape (data tout) →
  ∃ st',
    Tensor.call np_exp np_pow c st = (Ok (), st') ∧
    ∀ r tr, r ∈ operands c → heap st !! r = Some tr →
      ∃ gr, grad_of st' r = Some gr ∧
        np.shape gr = if elementwise c then np.shape (data tout)
                      else np.shape (data tr).
Proof.
  intros Hfit Hnode Hout Hg Hsg.
  destruct Hfit as
    [ self other o ts to tout' Hne Hne' Hs Ho Hout' Hfw
    | self other o ts to tout' Hne Hne' Hs Ho Hout' Hfw
    | self other o ts to tout' Hne Hne' Hs Ho Hout' Hfw
    | self other o ts to tout' r Hne Hne' Hs Ho Hout' Hr Hfw
    | self other o ts to tout' Hne Hne' Hs Ho Hout' H2s H2o Hfw
    | self o ts tout' Hne Hs Hout' Hfw
    | self o ts tout' Hne Hs Hout' Hfw
    | self o ts tout' Hne Hs Hout' Hfw ];
    cbn in Hnode; simplify_eq; cbn [operands elementwise].
  - eexists. split; [by eapply call_add|]. intros r tr Hr _.
    rewrite grad_of_two by eauto. rewrite Hg. exists g. by destruct (decide _).
  - eexists. split; [by eapply call_sub|]. intros r tr Hr _.
    rewrite grad_of_two by eauto. exists (np.neg g). by destruct (decide _).
  - eexists. split; [by eapply call_mul|]. intros r tr Hr _.
    rewrite grad_of_two by eauto. exists (np.neg g). by destruct (decide _).
  - destruct (truediv_grads_shape np_pow _ _ _ _ g Hr Hfw Hsg)
      as (sg & og & Hsg' & Hog & Hs1 & Hs2).
    eexists. split; [by eapply call_truediv|]. intros r' tr Hr' _.
    rewrite grad_of_two by eauto. destruct (decide _); eauto.
  - destruct (matmul_products _ _ _ g H2s H2o Hfw Hsg) as (sg & og & Hsg' & Hog & Hssg & Hsog).
    eexists. split; [by eapply call_matmul|]. intros r tr Hr Htr.
    rewrite grad_of_two by eauto. destruct (decide (r = other)) as [->|Hne2].
    + exists og. split; [done|]. simplify_eq. congruence.
    + assert (r = self) as -> by set_solver. exists sg. split; [done|].
      simplify_eq. congruence.
  - destruct (mul_same_shape (np.map1 np_exp (data ts)) g) as (sg & Hsg' & Hssg).
    { rewrite Hsg, Hfw. done. }
    eexists. split; [by eapply call_exp|]. intros r tr ->%list_elem_of_singleton Htr.
    simplify_eq. exists sg. split; [by apply grad_of_assign_same|].
    rewrite Hssg, Hsg, Hfw. done.
  - eexists. split; [by eapply call_neg|]. intros r tr ->%list_elem_of_singleton Htr.
    simplify_eq. exists (np.neg g). split; [by apply grad_of_assign_same|].
    rewrite shape_neg, Hsg, Hfw. done.
  - eexists. split; [by eapply call_T|]. intros r tr ->%list_elem_of_singleton Htr.
    simplify_eq. exists (np.T g). split; [by apply grad_of_assign_same|].
    rewrite shape_T, Hsg, Hfw, shape_T. apply reverse_involutive.
Qed.

End GradShape.

Example st_plus5_built :
  (out ← Tensor.__add__ 0 (OValue (VInt 5)); set_grad out (Some ones22)) st_ab
  = (Ok (), st_plus5).
Proof. vm_compute. reflexivity. Qed.

(** C2, refuted as stated: after [out = a + 5] with [a] of shape (2, 2),
    [out.grad = ones((2, 2))] and [out._backward()], the leaf coerced
    from 5 has data of shape [()] and a grad of shape (2, 2). *)
Lemma coerced_leaf_grad_counterexample :
  let st := (Tensor.backward exp_series pow_integral 3 st_plus5).2 in
  np.shape <$> data_of st 2 = Some [] ∧
  np.shape <$> grad_of st 2 = Some [2; 2].
Proof. vm_compute. done. Qed.

(** C2, as the code has it, at the rule of [a + 5] in [st_plus5]. *)
Lemma grad_shape_witness :
  ∃ st',
    Tensor.call exp_series pow_integral (Add_backward 0 2 3) st_plus5 = (Ok (), st') ∧
    ∀ r tr, r ∈ operands (Add_backward 0 2 3) → heap st_plus5 !! r = Some tr →
      ∃ gr, grad_of st' r = Some gr ∧
        np.shape gr = if elementwise (Add_backward 0 2 3) then np.shape (data t_sum)
                      else np.shape (data tr).
Proof.
  apply (grad_shape exp_series pow_integral st_plus5 (Add_backward 0 2 3) 3 t_sum ones22);
    [ | reflexivity | reflexivity | reflexivity | reflexivity ].
  apply (fits_add exp_series pow_integral st_plus5 0 2 3 t_a t_five t_sum);
    [lia | lia | reflexivity | reflexivity | reflexivity | vm_compute; reflexivity].
Defined.

(** ** The operators in closed form *)

Lemma add_skeleton self other :
  Tensor.__add__ self other = binary_operator np.add Add_backward false "+" self other.
Proof. reflexivity. Qed.
Lemma sub_skeleton self other :
  Tensor.__sub__ self other = binary_operator np.sub Sub_backward true "-" self other.
Proof. reflexivity. Qed.
Lemma exp_skeleton np_exp self :
  Tensor.exp np_exp self = unary_operator (np.map1 np_exp) Exp_backward "exp" self.
Proof. reflexivity. Qed.

Lemma read_none st r : heap st !! r = None → read r st = (Raise NoSuchObject, st).
Proof. intros H. unfold read. by rewrite H. Qed.

Lemma get_data_none st r : heap st !! r = None → get_data r st = (Raise NoSuchObject, st).
Proof. intros H. unfold get_data. by rewrite (bind_raise _ _ _ _ _ (read_none _ _ H)). Qed.

Lemma init_raise d e lbl rg comps op st :
  np_array d = Raise e → Tensor.__init__ d lbl rg comps op st = (Raise e, st).
Proof.
  intros H. unfold Tensor.__init__. by erewrite bind_raise by (by apply lift_raise).
Qed.

Lemma coerce_is_outcome other st : Tensor.coerce other st = coerce_outcome other st.
Proof.
  destruct other as [r|v]; [done|]. cbn [coerce_outcome].
  destruct (np_array v) as [a|e] eqn:E; [by apply coerce_value|].
  by apply init_raise.
Qed.

Lemma binary_operator_outcome f rule guarded tag self other st :
  binary_operator f rule guarded tag self other st
  = binary_outcome f rule guarded tag self other st.
Proof.
  unfold binary_operator, binary_outcome. rewrite <- coerce_is_outcome.
  destruct (Tensor.coerce other st) as [[b|e] st0] eqn:Hc;
    [rewrite (bind_ok _ _ _ _ _ Hc)|by rewrite (bind_raise _ _ _ _ _ Hc)].
  destruct (heap st0 !! self) as [ts|] eqn:Hs;
    [|by erewrite bind_raise by by apply get_data_none].
  step.
  destruct (heap st0 !! b) as [tb|] eqn:Hb;
    [|by erewrite bind_raise by by apply get_data_none].
  step.
  destruct (f (data ts) (data tb)) as [d|e] eqn:Hd;
    [|by erewrite bind_raise by by apply lift_raise].
  do 2 step. destruct guarded; cbn [andb].
  - step. unfold when. destruct (requires_grad ts); cbn [negb]; run_op.
  - erewrite bind_ok by reflexivity. unfold when. run_op.
Qed.

Lemma unary_operator_outcome f rule tag self st :
  unary_operator f rule tag self st = unary_outcome f rule tag self st.
Proof.
  unfold unary_operator, unary_outcome.
  destruct (heap st !! self) as [ts|] eqn:Hs;
    [|by erewrite bind_raise by by apply get_data_none].
  do 3 step. unfold when. destruct (requires_grad ts); run_op.
Qed.

Lemma truediv_skeleton np_pow self other st :
  Tensor.__truediv__ np_pow self other st
  = binary_operator (truediv_forward np_pow) Truediv_backward true "/" self other st.
Proof.
  rewrite binary_operator_outcome. unfold Tensor.__truediv__, binary_outcome.
  rewrite <- coerce_is_outcome.
  destruct (Tensor.coerce other st) as [[b|e] st0] eqn:Hc;
    [rewrite (bind_ok _ _ _ _ _ Hc)|by rewrite (bind_raise _ _ _ _ _ Hc)].
  destruct (heap st0 !! self) as [ts|] eqn:Hs;
    [|by erewrite bind_raise by by apply get_data_none].
  step.
  destruct (heap st0 !! b) as [tb|] eqn:Hb;
    [|by erewrite bind_raise by by apply get_data_none].
  step. unfold truediv_forward.
  destruct (np_power np_pow (data tb) (VInt (-1))) as [r|e] eqn:Hr;
    [|by erewrite bind_raise by by apply lift_raise].
  step. cbn [result_bind].
  destruct (np.mul (data ts) r) as [d|e] eqn:Hd;
    [|by erewrite bind_raise by by apply lift_raise].
  do 3 step. unfold when. destruct (requires_grad ts); cbn [negb andb]; run_op.
Qed.

(** ** The effect of a rule *)

Section Effects.
Variable np_exp : float → float.
Variable np_pow : float → float → float.

Local Abbreviation self_value := (self_value np_exp np_pow).
Local Abbreviation other_value := (other_value np_pow).
Local Abbreviation call := (Tensor.call np_exp np_pow).

Lemma call_binary_effect c self other out st ts to tout :
  operands c = [self; other] →
  node c = Some out →
  out ≠ self →
  heap st !! self = Some ts →
  heap st !! other = Some to →
  heap st !! out = Some tout →
  call c st =
    two_assignments self other
      (self_value c (data ts) (data to) (grad tout))
      (other_value c (data ts) (data to) (grad tout)) st.
Proof.
  intros Hops Hnode Hne Hs Ho Hout.
  assert (∀ g, ∃ to', heap (assign_grad self g st) !! other = Some to'
                      ∧ data to' = data to) as Hother.
  { intros g. rewrite lookup_assign, Ho. cbn. eexists. split; [done|].
    by destruct (decide _). }
  destruct c; cbn in Hops, Hnode; simplify_eq; unfold two_assignments;
    cbn [self_value other_value].
  - (* add *)
    destruct (Hother (grad tout)) as (to' & Ho' & _).
    unfold Tensor.call. repeat step. by erewrite set_grad_ok by exact Ho'.
  - (* sub *)
    destruct (Hother (Some (np.neg (default (np.zeros []) (grad tout))))) as (to' & Ho' & _).
    unfold Tensor.call. step. destruct (grad tout) as [g|] eqn:Hg; cbn;
      [|by erewrite bind_raise by reflexivity].
    erewrite bind_ok by reflexivity. step. step. rewrite Hg. cbn.
    erewrite bind_ok by reflexivity. by erewrite set_grad_ok by exact Ho'.
  - (* mul *)
    destruct (Hother (Some (np.neg (default (np.zeros []) (grad tout))))) as (to' & Ho' & _).
    unfold Tensor.call. step. destruct (grad tout) as [g|] eqn:Hg; cbn;
      [|by erewrite bind_raise by reflexivity].
    erewrite bind_ok by reflexivity. step. step. rewrite Hg. cbn.
    erewrite bind_ok by reflexivity. by erewrite set_grad_ok by exact Ho'.
  - (* truediv *)
    rewrite (call_truediv_total _ _ _ _ _ _ _ _ _ Hne Hs Ho Hout).
    destruct (truediv_self_grad _ _ _); cbn; [|done].
    by destruct (truediv_other_grad _ _ _ _).
  - (* matmul *)
    unfold Tensor.call. step. destruct (grad tout) as [g|] eqn:Hg; cbn;
      [|by erewrite bind_raise by reflexivity].
    erewrite bind_ok by reflexivity. step.
    destruct (np.matmul g (np.T (data to))) as [sg|e] eqn:Hsg; cbn;
      [|by erewrite bind_raise by reflexivity].
    erewrite bind_ok by reflexivity. step. step. step. rewrite Hg. cbn.
    erewrite bind_ok by reflexivity.
    destruct (np.matmul (np.T (data ts)) g) as [og|e] eqn:Hog; cbn;
      [|by erewrite bind_raise by reflexivity].
    erewrite bind_ok by reflexivity.
    destruct (Hother (Some sg)) as (to' & Ho' & _).
    by erewrite set_grad_ok by exact Ho'.
Qed.

Lemma call_unary_effect c self out st ts tout :
  operands c = [self] →
  node c = Some out →
  heap st !! self = Some ts →
  heap st !! out = Some tout →
  call c st = one_assignment self (self_value c (data ts) (data ts) (grad tout)) st.
Proof.
  intros Hops Hnode Hs Hout.
  destruct c; cbn in Hops, Hnode; simplify_eq; unfold one_assignment;
    cbn [self_value]; unfold Tensor.call.
  - step. step.
    destruct (mul_grad (np.map1 np_exp (data ts)) (grad tout)) as [sg|e] eqn:Hsg; cbn;
      [|by erewrite bind_raise by reflexivity].
    erewrite bind_ok by reflexivity. by erewrite set_grad_ok by exact Hs.
  - step. destruct (grad tout) as [g|] eqn:Hg; cbn;
      [|by erewrite bind_raise by reflexivity].
    erewrite bind_ok by reflexivity. by erewrite set_grad_ok by exact Hs.
  - step. destruct (grad tout) as [g|] eqn:Hg; cbn;
      [|by erewrite bind_raise by reflexivity].
    erewrite bind_ok by reflexivity. by erewrite set_grad_ok by exact Hs.
Qed.

End Effects.

(** ** Well-formed states *)

(** A new object [t] keeps the state well formed. *)
Lemma state_ok_push st t :
  state_ok st → obj_ok (length (heap st)) t → state_ok (push st t).
Proof.
  intros Hst Ht i x. unfold push. cbn [heap]. intros Hx.
  apply lookup_app_Some in Hx as [Hx|[Hlen Hx]]; [by apply Hst|].
  apply list_lookup_singleton_Some in Hx as [Hi ->].
  by replace i with (length (heap st)) by lia.
Qed.

Lemma state_ok_assign st r g : state_ok st → state_ok (assign_grad r g st).
Proof.
  intros Hst i x. rewrite lookup_assign. intros (t & Ht & ->)%fmap_Some.
  destruct (decide (r = i)); [|by apply Hst]. destruct (Hst i t Ht). by split.
Qed.

Lemma obj_ok_leaf i a lbl rg : obj_ok i (mk_Tensor a lbl rg None Lambda_None (np.shape a) ∅ "").
Proof. split; cbn; [done|set_solver|done|done|by left]. Qed.

Lemma obj_ok_out i d c comps tag :
  (∀ x, x ∈ comps → x < i) → comps ≠ ∅ → tag ≠ "" →
  c = Lambda_None ∨ (node c = Some i ∧ list_to_set (operands c) = comps ∧ tag_of c = tag) →
  obj_ok i (out_node d c comps tag).
Proof. intros H1 H2 H3 H4. split; cbn; try done. Qed.

Lemma extends_refl st : extends st st.
Proof. unfold extends. reflexivity. Qed.

Lemma extends_push st t : extends st (push st t).
Proof. by exists [t]. Qed.

Lemma extends_trans st1 st2 st3 : extends st1 st2 → extends st2 st3 → extends st1 st3.
Proof. unfold extends. intros H1 H2. by etrans. Qed.

Lemma length_push st t : length (heap (push st t)) = S (length (heap st)).
Proof. unfold push. cbn. rewrite length_app. cbn. lia. Qed.

Lemma pair_not_empty (a b : ref) : ({[a; b]} : gset ref) ≠ ∅.
Proof. set_solver. Qed.

Lemma single_not_empty (a : ref) : ({[a]} : gset ref) ≠ ∅.
Proof. set_solver. Qed.

Lemma binary_built f rule guarded tag self other st :
  tag ≠ "" →
  (∀ s o out, node (rule s o out) = Some out ∧ operands (rule s o out) = [s; o] ∧
              tag_of (rule s o out) = tag) →
  built st (binary_outcome f rule guarded tag self other st).1
           (binary_outcome f rule guarded tag self other st).2.
Proof.
  intros Htag Hrule. unfold binary_outcome.
  assert (∀ b st0 ts tb d, heap st0 !! self = Some ts → heap st0 !! b = Some tb →
    obj_ok (length (heap st0))
      (out_node d (if guarded && negb (requires_grad ts) then Lambda_None
                   else rule self b (length (heap st0))) {[self; b]} tag)) as Hout.
  { intros b st0 ts tb d Hs Hb. apply obj_ok_out; [|apply pair_not_empty|done|].
    - intros x [->%elem_of_singleton| ->%elem_of_singleton]%elem_of_union;
        by eapply lookup_lt_Some.
    - destruct (guarded && negb (requires_grad ts)); [by left|right].
      destruct (Hrule self b (length (heap st0))) as (-> & -> & ->).
      by rewrite pair_set. }
  destruct other as [b|v]; cbn [coerce_outcome].
  - destruct (heap st !! self) as [ts|] eqn:Hs; [|apply built_raise].
    destruct (heap st !! b) as [tb|] eqn:Hb; [|apply built_raise].
    destruct (f (data ts) (data tb)) as [d|e]; [|apply built_raise].
    cbn. apply built_one. by eapply Hout.
  - destruct (np_array v) as [a|e] eqn:Ha; [|apply built_raise].
    assert (obj_ok (length (heap st)) (coerced_leaf v a)) as Hleaf by apply obj_ok_leaf.
    destruct (heap (push st (coerced_leaf v a)) !! self) as [ts|] eqn:Hs;
      [|by apply built_raise_leaf].
    rewrite lookup_push_new.
    destruct (f (data ts) (data (coerced_leaf v a))) as [d|e]; [|by apply built_raise_leaf].
    cbn [fst snd]. rewrite length_push. apply built_two; [done|done|].
    rewrite <- (length_push st (coerced_leaf v a)). eapply Hout; [done|].
    apply lookup_push_new.
Qed.

Lemma unary_built f rule tag self st :
  tag ≠ "" →
  (∀ s out, node (rule s out) = Some out ∧ operands (rule s out) = [s] ∧
            tag_of (rule s out) = tag) →
  built st (unary_outcome f rule tag self st).1 (unary_outcome f rule tag self st).2.
Proof.
  intros Htag Hrule. unfold unary_outcome.
  destruct (heap st !! self) as [ts|] eqn:Hs; [|apply built_raise].
  cbn. apply built_one. apply obj_ok_out; [|apply single_not_empty|done|].
  - intros x ->%elem_of_singleton. by eapply lookup_lt_Some.
  - destruct (requires_grad ts); [right|by left].
    destruct (Hrule self (length (heap st))) as (-> & -> & ->). by rewrite single_set.
Qed.

Lemma pow_is_outcome np_pow self other st :
  Tensor.__pow__ np_pow self other st = pow_outcome np_pow self other st.
Proof.
  unfold pow_outcome.
  destruct (heap st !! self) as [ts|] eqn:Hs;
    [|unfold Tensor.__pow__; by erewrite bind_raise by by apply get_data_none].
  destruct (np_array other) as [e|x] eqn:He.
  - destruct (np.zip np_pow (data ts) e) as [d|x] eqn:Hd.
    + eapply pow_spec; [done| |done]. unfold np_power. by rewrite He.
    + unfold Tensor.__pow__. step.
      erewrite bind_raise; [done|]. apply lift_raise. unfold np_power. by rewrite He.
  - unfold Tensor.__pow__. step.
    erewrite bind_raise; [done|]. apply lift_raise. unfold np_power. by rewrite He.
Qed.

Section Built.
Variable np_exp : float → float.
Variable np_pow : float → float → float.
Variable normal : nat → float.

Local Abbreviation construct := (construct np_exp np_pow normal).

Lemma construct_built c st : built st (construct c st).1 (construct c st).2.
Proof.
  destruct c as [d lbl rg|shp lbl rg|shp lbl rg|self other|self other|self other
                |self other|self other|self other|self|self|self]; cbn [construct].
  - destruct (np_array d) as [a|e] eqn:Ha.
    + rewrite (init_ok _ _ _ _ _ _ _ Ha). cbn. apply built_one, obj_ok_leaf.
    + rewrite (init_raise _ _ _ _ _ _ _ Ha). apply built_raise.
  - unfold zeros. erewrite init_ok by reflexivity. cbn. apply built_one, obj_ok_leaf.
  - unfold randn. erewrite bind_ok by reflexivity. erewrite init_ok by reflexivity.
    cbn. apply (built_random st (np.size_of shp)), obj_ok_leaf.
  - rewrite add_skeleton, binary_operator_outcome. by apply binary_built.
  - rewrite sub_skeleton, binary_operator_outcome. by apply binary_built.
  - change (Tensor.__mul__ self other)
      with (binary_operator np.mul Mul_backward true "*" self other).
    rewrite binary_operator_outcome. by apply binary_built.
  - rewrite truediv_skeleton, binary_operator_outcome. by apply binary_built.
  - change (Tensor.__matmul__ self other)
      with (binary_operator np.matmul Matmul_backward true "@" self other).
    rewrite binary_operator_outcome. by apply binary_built.
  - rewrite pow_is_outcome. unfold pow_outcome.
    destruct (heap st !! self) as [ts|] eqn:Hs; [|apply built_raise].
    destruct (np_array other) as [e|x]; [|apply built_raise].
    destruct (np.zip np_pow (data ts) e) as [d|x]; [|apply built_raise].
    cbn. apply built_two; [apply obj_ok_leaf|done|].
    apply obj_ok_out; [|apply pair_not_empty|done|by left].
    intros x [->%elem_of_singleton| ->%elem_of_singleton]%elem_of_union; [|lia].
    apply lookup_lt_Some in Hs. lia.
  - change (Tensor.exp np_exp self)
      with (unary_operator (np.map1 np_exp) Exp_backward "exp" self).
    rewrite unary_operator_outcome. by apply unary_built.
  - change (Tensor.__neg__ self) with (unary_operator np.neg Neg_backward "neg" self).
    rewrite unary_operator_outcome. by apply unary_built.
  - change (Tensor.T self) with (unary_operator np.T T_backward "T" self).
    rewrite unary_operator_outcome. by apply unary_built.
Qed.

Lemma built_extends st r st' : built st r st' → extends st st'.
Proof.
  destruct 1; unfold extends, push; cbn [heap]; try reflexivity.
  - by exists [t].
  - by exists [t].
  - rewrite <- app_assoc. by eexists.
  - by exists [t].
Qed.

Lemma built_fresh st out st' :
  built st (Ok out) st' →
  heap st !! out = None ∧ is_Some (heap st' !! out) ∧ length (heap st') = S out.
Proof.
  inversion 1; subst; unfold push; cbn [heap]; rewrite ?length_app; cbn [length].
  - split; [by apply lookup_ge_None_2|]. rewrite lookup_snoc_new. split; [eauto|lia].
  - split; [apply lookup_ge_None_2; lia|]. split; [|lia].
    replace (S (length (heap st))) with (length (heap st ++ [l]))
      by (rewrite length_app; cbn; lia).
    rewrite lookup_snoc_new. eauto.
  - split; [by apply lookup_ge_None_2|]. rewrite lookup_snoc_new. split; [eauto|lia].
Qed.

Lemma built_ok st r st' : built st r st' → state_ok st → state_ok st'.
Proof.
  destruct 1; intros Hst; try done.
  - by apply state_ok_push.
  - by apply state_ok_push.
  - apply state_ok_push; [by apply state_ok_push|]. by rewrite length_push.
  - by apply (state_ok_push (mk_state (heap st) (rng_pos st + n))).
Qed.

End Built.

(** ** States that differ in grads only *)

Lemma with_grad_same t : with_grad (grad t) t = t.
Proof. by destruct t. Qed.

Lemma grads_changed_refl S st : grads_changed S st st.
Proof.
  split; [done|]. split; [done|]. intros i t Ht. exists (grad t).
  by rewrite with_grad_same.
Qed.

Lemma grads_changed_assign S st st' r g :
  r ∈ S → grads_changed S st st' → grads_changed S st (assign_grad r g st').
Proof.
  intros Hr (Hrng & Hlen & Hobj). split; [done|].
  split; [unfold assign_grad; cbn [heap]; by rewrite length_alter|].
  intros i t Ht. destruct (Hobj i t Ht) as (g' & Hi & Hg').
  rewrite lookup_assign, Hi. cbn. destruct (decide (r = i)) as [->|].
  - exists g. split; [done|]. intros Hn. by destruct Hn.
  - by exists g'.
Qed.

Lemma assign_grad_comm st r r' g g' :
  r ≠ r' →
  assign_grad r g (assign_grad r' g' st) = assign_grad r' g' (assign_grad r g st).
Proof.
  intros Hne. unfold assign_grad. cbn [heap rng_pos]. f_equal.
  by apply list_alter_alter_ne.
Qed.

(** Assigning again the two grads a rule has assigned changes nothing. *)
Lemma assign_pair_again st self other a b a' b' :
  assign_grad other b (assign_grad self a (assign_grad other b' (assign_grad self a' st)))
  = assign_grad other b (assign_grad self a st).
Proof.
  destruct (decide (self = other)) as [->|Hne].
  - by rewrite !assign_grad_twice.
  - rewrite (assign_grad_comm _ self other a b') by done.
    by rewrite !assign_grad_twice.
Qed.

Section Backward.
Variable np_exp : float → float.
Variable np_pow : float → float → float.

Local Abbreviation backward := (Tensor.backward np_exp np_pow).
Local Abbreviation self_value := (self_value np_exp np_pow).
Local Abbreviation other_value := (other_value np_pow).

(** In a well-formed state a rule is the default, or one assignment to
    the single operand of its node, or two assignments to its two
    operands, which are older than the node. *)
Lemma backward_cases st out tout :
  state_ok st →
  heap st !! out = Some tout →
  (_backward tout = Lambda_None ∧ backward out st = (Ok (), st)) ∨
  (∃ self ts,
     operands (_backward tout) = [self] ∧ _components tout = {[self]} ∧
     self < out ∧ heap st !! self = Some ts ∧
     backward out st =
       one_assignment self
         (self_value (_backward tout) (data ts) (data ts) (grad tout)) st) ∨
  (∃ self other ts to,
     operands (_backward tout) = [self; other] ∧ _components tout = {[self; other]} ∧
     self < out ∧ other < out ∧
     heap st !! self = Some ts ∧ heap st !! other = Some to ∧
     backward out st =
       two_assignments self other
         (self_value (_backward tout) (data ts) (data to) (grad tout))
         (other_value (_backward tout) (data ts) (data to) (grad tout)) st).
Proof.
  intros Hst Hout. rewrite (backward_unfold _ _ _ _ _ Hout).
  destruct (Hst out tout Hout) as [_ Hold _ _ [Hdef|(Hnode & Hops & _)]].
  { left. by rewrite Hdef. }
  assert (∀ r, r ∈ _components tout → r < out ∧ is_Some (heap st !! r)) as Hvalid.
  { intros r Hr. split; [by apply Hold|]. apply lookup_lt_is_Some.
    apply Hold in Hr. apply lookup_lt_Some in Hout. lia. }
  destruct (_backward tout) as [|s o x|s o x|s o x|s o x|s o x|s x|s x|s x] eqn:Hc;
    cbn [node operands] in Hnode, Hops; simplify_eq.
  1-5: right; right;
    destruct (Hvalid s) as [Hs [ts Hts]]; [rewrite <- Hops; set_solver|];
    destruct (Hvalid o) as [Ho [to Hto]]; [rewrite <- Hops; set_solver|];
    exists s, o, ts, to; rewrite <- Hops, pair_set;
    do 6 (split; [done|]);
    (eapply call_binary_effect; [done|done|lia|done|done|done]).
  1-3: right; left;
    destruct (Hvalid s) as [Hs [ts Hts]]; [rewrite <- Hops; set_solver|];
    exists s, ts; rewrite <- Hops, single_set;
    do 4 (split; [done|]);
    (eapply call_unary_effect; [done|done|done|done]).
Qed.

Lemma one_assignment_changed S self v st :
  self ∈ S → grads_changed S st (one_assignment self v st).2.
Proof.
  intros Hs. unfold one_assignment. destruct v; cbn; [|apply grads_changed_refl].
  by apply grads_changed_assign, grads_changed_refl.
Qed.

Lemma two_assignments_changed S self other v w st :
  self ∈ S → other ∈ S → grads_changed S st (two_assignments self other v w st).2.
Proof.
  intros Hs Ho. unfold two_assignments. destruct v as [a|]; cbn; [|apply grads_changed_refl].
  destruct (w a); cbn; repeat apply grads_changed_assign; try done;
    apply grads_changed_refl.
Qed.

Lemma one_assignment_ok self v st : state_ok st → state_ok (one_assignment self v st).2.
Proof. intros Hst. unfold one_assignment. destruct v; cbn; [by apply state_ok_assign|done]. Qed.

Lemma two_assignments_ok self other v w st :
  state_ok st → state_ok (two_assignments self other v w st).2.
Proof.
  intros Hst. unfold two_assignments. destruct v as [a|]; cbn; [|done].
  destruct (w a); cbn; by repeat apply state_ok_assign.
Qed.

Lemma backward_none st r : heap st !! r = None → backward r st = (Raise NoSuchObject, st).
Proof.
  intros H. unfold Tensor.backward. by rewrite (bind_raise _ _ _ _ _ (read_none _ _ H)).
Qed.

(** Calling a rule keeps the state well formed, whatever the outcome. *)
Lemma backward_keeps_ok st r : state_ok st → state_ok (backward r st).2.
Proof.
  intros Hst. destruct (heap st !! r) as [t|] eqn:Hr; [|by rewrite backward_none].
  destruct (backward_cases st r t Hst Hr)
    as [[_ ->]|[(s & ts & _ & _ & _ & _ & ->)|(s & o & ts & to & _ & _ & _ & _ & _ & _ & ->)]];
    [done|by apply one_assignment_ok|by apply two_assignments_ok].
Qed.

Lemma set_grad_keeps_ok st r g : state_ok st → state_ok (set_grad r g st).2.
Proof.
  intros Hst. destruct (heap st !! r) as [t|] eqn:Hr.
  - rewrite (set_grad_ok _ _ _ _ Hr). by apply state_ok_assign.
  - unfold set_grad, write. by rewrite Hr.
Qed.

End Backward.

(** ** The invariant of the interface, and what a rule changes *)

Lemma state_ok_empty : state_ok empty_state.
Proof. intros i t H. cbn in H. by rewrite lookup_nil in H. Qed.

Section ApiProps.
Variable np_exp : float → float.
Variable np_pow : float → float → float.
Variable normal : nat → float.

Local Abbreviation api_run := (api_run np_exp np_pow normal).

Lemma api_run_state_ok st : api_run st → state_ok st.
Proof.
  induction 1 as [|c st _ IH|r g st _ IH|r st _ IH].
  - apply state_ok_empty.
  - eapply built_ok; [apply construct_built|done].
  - by apply set_grad_keeps_ok.
  - by apply backward_keeps_ok.
Qed.

(** X1. In every state a program reaches through the interface, every
    Tensor object is well formed: its [shape] attribute is the shape of
    its data; its operands are older objects of the heap, so the graph
    has no cycle; it has operands exactly when it has an operator tag,
    and then [requires_grad] is true; and [_backward] is the no-op
    default or a closure of this very node, over exactly its operands,
    of the operator its tag names. *)
Theorem api_objects_well_formed st i t :
  api_run st →
  heap st !! i = Some t →
  shape t = np.shape (data t) ∧
  (∀ c, c ∈ _components t → c < i ∧ is_Some (heap st !! c)) ∧
  (_components t = ∅ ↔ _operator t = "") ∧
  (_components t ≠ ∅ → requires_grad t = true) ∧
  (_backward t = Lambda_None ∨
   node (_backward t) = Some i ∧
   list_to_set (operands (_backward t)) = _components t ∧
   tag_of (_backward t) = _operator t).
Proof.
  intros Hrun Hi. destruct (api_run_state_ok st Hrun i t Hi) as [H1 H2 H3 H4 H5].
  repeat split; try done; try apply H3.
  - by apply H2.
  - apply lookup_lt_is_Some. apply H2 in H. apply lookup_lt_Some in Hi. lia.
Qed.

End ApiProps.

Section BackwardProps.
Variable np_exp : float → float.
Variable np_pow : float → float → float.

Local Abbreviation backward := (Tensor.backward np_exp np_pow).

(** X2. Calling [out._backward()] changes nothing but the [grad] of
    the operands of [out], whatever the outcome: no data, label, flag,
    rule or other grad is touched, no object is created and no random
    number is drawn. *)
Theorem backward_local st out tout :
  state_ok st →
  heap st !! out = Some tout →
  grads_changed (_components tout) st (backward out st).2.
Proof.
  intros Hst Hout.
  destruct (backward_cases np_exp np_pow st out tout Hst Hout)
    as [[_ ->]|[(s & ts & _ & -> & _ & _ & ->)
               |(s & o & ts & to & _ & -> & _ & _ & _ & _ & ->)]].
  - apply grads_changed_refl.
  - apply one_assignment_changed. set_solver.
  - apply two_assignments_changed; set_solver.
Qed.

(** X3. With [out.grad] still [None]: the default rule does nothing;
    the rule of add completes and assigns [None] to both operands; the
    rules of subtract, multiply, matrix-multiply, neg and T raise before
    their first assignment and leave the state as it was; so does the
    rule of exp when [self.data] has an element, and the rule of divide
    when [other.data] has one. When that array has no element, the
    product with [None] is the empty array of its shape: the rule of
    exp completes and assigns it to [self.grad], the rule of divide
    completes and assigns it to both grads. *)
Theorem unset_grad_rules st out tout :
  state_ok st →
  heap st !! out = Some tout →
  grad tout = None →
  backward out st =
    match _backward tout with
    | Lambda_None => (Ok (), st)
    | Add_backward self other _ =>
        (Ok (), assign_grad other None (assign_grad self None st))
    | Exp_backward self _ =>
        match data_of st self with
        | Some x =>
            if decide (np.size_of (np.shape x) = 0)
            then (Ok (), assign_grad self (Some (np.mk_ndarray (np.shape x) [])) st)
            else (Raise UnsetGradientError, st)
        | None => (Raise NoSuchObject, st)
        end
    | Truediv_backward self other _ =>
        match data_of st other with
        | Some y =>
            if decide (np.size_of (np.shape y) = 0)
            then (Ok (), assign_grad other (Some (np.mk_ndarray (np.shape y) []))
                           (assign_grad self (Some (np.mk_ndarray (np.shape y) [])) st))
            else (Raise UnsetGradientError, st)
        | None => (Raise NoSuchObject, st)
        end
    | _ => (Raise UnsetGradientError, st)
    end.
Proof.
  intros Hst Hout Hg.
  destruct (backward_cases np_exp np_pow st out tout Hst Hout)
    as [[Hc ->]|[(s & ts & Hops & _ & _ & Hs & ->)
               |(s & o & ts & to & Hops & _ & _ & _ & _ & Ho & ->)]].
  - by rewrite Hc.
  - rewrite Hg. destruct (_backward tout); cbn in Hops; simplify_eq; try done.
    unfold data_of. rewrite Hs.
    cbn [fmap option_fmap option_map self_value mul_grad np.shape np.map1].
    by case_decide.
  - rewrite Hg. destruct (_backward tout); cbn in Hops; simplify_eq; try done.
    unfold data_of. rewrite Ho. cbn [fmap option_fmap option_map].
    unfold two_assignments, self_value, other_value, result_map,
      truediv_self_grad, truediv_other_grad.
    destruct (power_int_shape np_pow (data to) (-1) minus_one_finite) as (r & -> & Hr).
    destruct (power_int_shape np_pow (data to) (-2) minus_two_finite) as (r2 & -> & Hr2).
    cbn [result_bind mul_grad]. rewrite Hr.
    case_decide as Hsize; [|done]. cbn [result_bind as_array].
    destruct (mul_same_shape (np.neg (np.mk_ndarray (np.shape (data to)) [])) r2)
      as (p & -> & Hp); [by rewrite shape_neg, Hr2|].
    cbn [result_bind]. rewrite Hp, Hr2. by case_decide.
Qed.


Lemma lookup_assign_Some st r g i t' :
  heap (assign_grad r g st) !! i = Some t' →
  ∃ t, heap st !! i = Some t ∧ data t' = data t ∧ (r ≠ i → t' = t).
Proof.
  rewrite lookup_assign. intros (t & Ht & ->)%fmap_Some. exists t. split; [done|].
  by destruct (decide (r = i)).
Qed.

Lemma assign_absorbed st self other a b r g0 :
  r = self ∨ r = other →
  assign_grad other b (assign_grad self a (assign_grad r g0 st))
  = assign_grad other b (assign_grad self a st).
Proof.
  intros [->| ->]; [by rewrite assign_grad_twice|].
  destruct (decide (self = other)) as [->|Hne]; [by rewrite !assign_grad_twice|].
  rewrite (assign_grad_comm _ self other) by done. by rewrite assign_grad_twice.
Qed.

(** X4. A rule overwrites, it does not accumulate: when [out] has a
    rule of its own, whatever an operand of [out] held in [grad] before
    the call, the call has the same outcome, and when it completes the
    same final state. *)
Theorem backward_overwrites st out tout r g0 :
  state_ok st →
  heap st !! out = Some tout →
  _backward tout ≠ Lambda_None →
  r ∈ _components tout →
  let before := backward out st in
  let after := backward out (assign_grad r g0 st) in
  after.1 = before.1 ∧ (before.1 = Ok () → after.2 = before.2).
Proof.
  intros Hst Hout Hrule Hr. cbv zeta.
  assert (r ≠ out) as Hne.
  { destruct (Hst out tout Hout) as [_ Hold _ _ _]. apply Hold in Hr. lia. }
  assert (heap (assign_grad r g0 st) !! out = Some tout) as Hout'.
  { rewrite lookup_assign, Hout. by destruct (decide (r = out)). }
  pose proof (state_ok_assign st r g0 Hst) as Hst'.
  destruct (backward_cases np_exp np_pow _ out tout Hst Hout)
    as [[Hc _]|[(s & ts & Hops & Hcomp & _ & Hs & ->)
               |(s & o & ts & to & Hops & Hcomp & _ & _ & Hs & Ho & ->)]]; [done| |];
  destruct (backward_cases np_exp np_pow _ out tout Hst' Hout')
    as [[Hc _]|[(s' & ts' & Hops' & _ & _ & Hs' & ->)
               |(s' & o' & ts' & to' & Hops' & _ & _ & _ & Hs' & Ho' & ->)]];
    try done; try congruence.
  - assert (s' = s) as -> by congruence.
    apply lookup_assign_Some in Hs' as (t & Ht & -> & _). simplify_eq.
    rewrite Hcomp in Hr. apply elem_of_singleton in Hr as ->.
    unfold one_assignment. destruct (self_value _ _ _ _ _ _); [|done].
    split; [done|]. intros _. cbn. by rewrite assign_grad_twice.
  - assert (s' = s ∧ o' = o) as [-> ->] by (split; congruence).
    apply lookup_assign_Some in Hs' as (t & Ht & -> & _).
    apply lookup_assign_Some in Ho' as (t' & Ht' & -> & _). simplify_eq.
    rewrite Hcomp in Hr.
    assert (r = s ∨ r = o) as Hr' by set_solver.
    unfold two_assignments. destruct (self_value _ _ _ _ _ _) as [a|]; [|done].
    destruct (other_value _ _ _ _ _ _) as [b|]; [|done].
    split; [done|]. intros _. cbn. by apply assign_absorbed.
Qed.

(** X5. Calling a rule twice is calling it once: after a call of
    [out._backward()] that completes, a second call completes and
    leaves the state as the first one left it. *)
Theorem backward_idempotent st out st' :
  state_ok st →
  backward out st = (Ok (), st') →
  backward out st' = (Ok (), st').
Proof.
  intros Hst Hrun.
  destruct (heap st !! out) as [tout|] eqn:Hout;
    [|by rewrite backward_none in Hrun].
  destruct (backward_cases np_exp np_pow _ out tout Hst Hout)
    as [[Hc Hb]|[(s & ts & Hops & Hcomp & Hlt & Hs & Hb)
               |(s & o & ts & to & Hops & Hcomp & Hlt & Hlt' & Hs & Ho & Hb)]];
    rewrite Hb in Hrun.
  - by simplify_eq.
  - unfold one_assignment in Hrun.
    destruct (self_value _ _ _ _ _ _) as [a|] eqn:Ha; [|done]. simplify_eq.
    assert (heap (assign_grad s a st) !! out = Some tout) as Hout'.
    { rewrite lookup_assign, Hout. destruct (decide (s = out)); [lia|done]. }
    destruct (backward_cases np_exp np_pow _ out tout (state_ok_assign st s a Hst) Hout')
      as [[Hc _]|[(s' & ts' & Hops' & _ & _ & Hs' & ->)
                 |(s' & o' & ts' & to' & Hops' & _)]]; [by rewrite Hc in Hops| |congruence].
    assert (s' = s) as -> by congruence.
    apply lookup_assign_Some in Hs' as (t & Ht & -> & _). simplify_eq.
    rewrite Ha. cbn. by rewrite assign_grad_twice.
  - unfold two_assignments in Hrun.
    destruct (self_value _ _ _ _ _ _) as [a|] eqn:Ha; [|done].
    destruct (other_value _ _ _ _ _ _) as [b|] eqn:Hb'; [|done]. simplify_eq.
    set (st1 := assign_grad o b (assign_grad s a st)).
    assert (heap st1 !! out = Some tout) as Hout'.
    { unfold st1. rewrite !lookup_assign, Hout.
      destruct (decide (s = out)); [lia|]. destruct (decide (o = out)); [lia|done]. }
    assert (state_ok st1) as Hst1 by (by do 2 apply state_ok_assign).
    destruct (backward_cases np_exp np_pow _ out tout Hst1 Hout')
      as [[Hc _]|[(s' & ts' & Hops' & _)
                 |(s' & o' & ts' & to' & Hops' & _ & _ & _ & Hs' & Ho' & ->)]];
      [by rewrite Hc in Hops|congruence|].
    assert (s' = s ∧ o' = o) as [-> ->] by (split; congruence).
    apply lookup_assign_Some in Hs' as (t & (t0 & Ht0 & -> & _)%lookup_assign_Some & -> & _).
    apply lookup_assign_Some in Ho' as (t' & (t1 & Ht1 & -> & _)%lookup_assign_Some & -> & _).
    simplify_eq. rewrite Ha. cbn. rewrite Hb'. cbn. unfold st1.
    by rewrite assign_pair_again.
Qed.

End BackwardProps.

(** ** What a construction changes, and the forward results *)

Lemma built_at_most_two st r st' :
  built st r st' → length (heap st') ≤ length (heap st) + 2.
Proof.
  destruct 1; unfold push; cbn [heap]; rewrite ?length_app; cbn [length]; lia.
Qed.

Lemma binary_outcome_rng f rule guarded tag self other st :
  rng_pos (binary_outcome f rule guarded tag self other st).2 = rng_pos st.
Proof.
  unfold binary_outcome, coerce_outcome. destruct other as [b|v].
  - destruct (heap st !! self), (heap st !! b); try done. by destruct (f _ _).
  - destruct (np_array v); [|done].
    destruct (heap _ !! self); [|done]. rewrite lookup_push_new. by destruct (f _ _).
Qed.

Lemma unary_outcome_rng f rule tag self st :
  rng_pos (unary_outcome f rule tag self st).2 = rng_pos st.
Proof. unfold unary_outcome. by destruct (heap st !! self). Qed.

Section Forward.
Variable np_exp : float → float.
Variable np_pow : float → float → float.
Variable normal : nat → float.

Local Abbreviation construct := (construct np_exp np_pow normal).

Lemma construct_rng c st :
  rng_pos (construct c st).2 = rng_pos st + samples_drawn c.
Proof.
  destruct c as [d lbl rg|shp lbl rg|shp lbl rg|self other|self other|self other
                |self other|self other|self other|self|self|self];
    cbn [construct samples_drawn]; rewrite ?Nat.add_0_r.
  - destruct (np_array d) as [a|e] eqn:Ha.
    + by rewrite (init_ok _ _ _ _ _ _ _ Ha).
    + by rewrite (init_raise _ _ _ _ _ _ _ Ha).
  - unfold zeros. by erewrite init_ok by reflexivity.
  - unfold randn. erewrite bind_ok by reflexivity. by erewrite init_ok by reflexivity.
  - rewrite add_skeleton, binary_operator_outcome. apply binary_outcome_rng.
  - rewrite sub_skeleton, binary_operator_outcome. apply binary_outcome_rng.
  - change (Tensor.__mul__ self other)
      with (binary_operator np.mul Mul_backward true "*" self other).
    rewrite binary_operator_outcome. apply binary_outcome_rng.
  - rewrite truediv_skeleton, binary_operator_outcome. apply binary_outcome_rng.
  - change (Tensor.__matmul__ self other)
      with (binary_operator np.matmul Matmul_backward true "@" self other).
    rewrite binary_operator_outcome. apply binary_outcome_rng.
  - rewrite pow_is_outcome. unfold pow_outcome.
    destruct (heap st !! self); [|done]. destruct (np_array other); [|done].
    by destruct (np.zip _ _ _).
  - change (Tensor.exp np_exp self)
      with (unary_operator (np.map1 np_exp) Exp_backward "exp" self).
    rewrite unary_operator_outcome. apply unary_outcome_rng.
  - change (Tensor.__neg__ self) with (unary_operator np.neg Neg_backward "neg" self).
    rewrite unary_operator_outcome. apply unary_outcome_rng.
  - change (Tensor.T self) with (unary_operator np.T T_backward "T" self).
    rewrite unary_operator_outcome. apply unary_outcome_rng.
Qed.

(** X6. Whatever it returns or raises, a call of the constructor, of
    a factory or of an operator leaves every existing object as it was,
    creates at most two objects, and draws random numbers only in
    [randn]; a Tensor it returns is a new object, the last one
    created. *)
Theorem construct_frame c st :
  let r := (construct c st).1 in
  let st' := (construct c st).2 in
  heap st `prefix_of` heap st' ∧
  length (heap st') ≤ length (heap st) + 2 ∧
  rng_pos st' = rng_pos st + samples_drawn c ∧
  ∀ out, r = Ok out →
    heap st !! out = None ∧ is_Some (heap st' !! out) ∧ length (heap st') = S out.
Proof.
  cbv zeta. pose proof (construct_built np_exp np_pow normal c st) as Hb.
  split; [by eapply built_extends|].
  split; [by eapply built_at_most_two|].
  split; [apply construct_rng|].
  intros out Hout. rewrite Hout in Hb. by apply built_fresh.
Qed.

(** X7. For two Tensors, subtract, multiply, divide and
    matrix-multiply either return a new object whose data is the result
    of the array operation ([self.data * other.data**-1] for divide),
    whose [shape] is the shape of that result, whose operands are
    [{self, other}], with the operator tag, [requires_grad] true, no
    grad and the empty label; or, when the array operation raises, raise
    the same exception and leave the state as it was. *)
Theorem binary_forward st self b ts tb :
  heap st !! self = Some ts →
  heap st !! b = Some tb →
  let out := length (heap st) in
  let spec (op : ref → operand → M ref)
           (f : np.ndarray → np.ndarray → result np.ndarray) (tag : string) :=
    match f (data ts) (data tb) with
    | Ok d =>
        ∃ tout, op self (OTensor b) st = (Ok out, push st tout) ∧
          data tout = d ∧ shape tout = np.shape d ∧
          _components tout = {[self; b]} ∧ _operator tout = tag ∧
          requires_grad tout = true ∧ grad tout = None ∧ label tout = Lit ""
    | Raise e => op self (OTensor b) st = (Raise e, st)
    end in
  spec Tensor.__sub__ np.sub "-" ∧
  spec Tensor.__mul__ np.mul "*" ∧
  spec (Tensor.__truediv__ np_pow) (truediv_forward np_pow) "/" ∧
  spec Tensor.__matmul__ np.matmul "@".
Proof.
  intros Hs Hb. cbv zeta.
  assert (∀ f rule guarded tag,
    match f (data ts) (data tb) with
    | Ok d =>
        ∃ tout, binary_outcome f rule guarded tag self (OTensor b) st
                = (Ok (length (heap st)), push st tout) ∧
          data tout = d ∧ shape tout = np.shape d ∧
          _components tout = {[self; b]} ∧ _operator tout = tag ∧
          requires_grad tout = true ∧ grad tout = None ∧ label tout = Lit ""
    | Raise e => binary_outcome f rule guarded tag self (OTensor b) st = (Raise e, st)
    end) as Hall.
  { intros f rule guarded tag. unfold binary_outcome, coerce_outcome. rewrite Hs, Hb.
    destruct (f (data ts) (data tb)) as [d|e]; [|done]. eexists. by split. }
  repeat split.
  - rewrite sub_skeleton, binary_operator_outcome. apply Hall.
  - change (Tensor.__mul__ self (OTensor b))
      with (binary_operator np.mul Mul_backward true "*" self (OTensor b)).
    rewrite binary_operator_outcome. apply Hall.
  - rewrite truediv_skeleton, binary_operator_outcome. apply Hall.
  - change (Tensor.__matmul__ self (OTensor b))
      with (binary_operator np.matmul Matmul_backward true "@" self (OTensor b)).
    rewrite binary_operator_outcome. apply Hall.
Qed.

End Forward.

(** ** The rules, after their operators *)

Lemma lookup_seeded_old st t g r x :
  heap st !! r = Some x → heap (seeded_state st t g) !! r = Some x.
Proof.
  intros Hr. unfold seeded_state. rewrite lookup_assign, (lookup_push_old _ _ _ _ Hr).
  destruct (decide (length (heap st) = r)) as [He|]; [|done].
  apply lookup_lt_Some in Hr. lia.
Qed.

Lemma lookup_seeded_new st t g :
  heap (seeded_state st t g) !! length (heap st) = Some (with_grad (Some g) t).
Proof.
  unfold seeded_state. rewrite lookup_assign, lookup_push_new. by destruct (decide _).
Qed.

Lemma grad_of_seeded_new st t g v w a b :
  is_Some (heap st !! a) → is_Some (heap st !! b) →
  grad_of (assign_grad b w (assign_grad a v (seeded_state st t g))) (length (heap st)) = Some g.
Proof.
  intros Ha%fresh_ne Hb%fresh_ne. rewrite !grad_of_assign_other by done.
  unfold grad_of. by rewrite lookup_seeded_new.
Qed.

Lemma grad_of_pair st a b v w :
  is_Some (heap st !! a) → is_Some (heap st !! b) →
  grad_of (assign_grad b w (assign_grad a v st)) a = (if decide (a = b) then w else v) ∧
  grad_of (assign_grad b w (assign_grad a v st)) b = w.
Proof.
  intros Ha Hb. split.
  - destruct (decide (a = b)) as [->|].
    + apply grad_of_assign_same. by rewrite is_Some_assign.
    + rewrite grad_of_assign_other by done. by apply grad_of_assign_same.
  - apply grad_of_assign_same. by rewrite is_Some_assign.
Qed.

(** An operand of shape [()] is combined with every element. *)
Lemma zip_scalar op a y :
  length (np.elems a) = np.size_of (np.shape a) →
  np.zip op a (np.mk_ndarray [] [y])
  = Ok (np.mk_ndarray (np.shape a) (map (λ x, op x y) (np.elems a))).
Proof.
  intros Ha. unfold np.zip. cbn [np.shape]. rewrite broadcast_shapes_nil_r.
  f_equal. unfold np.build. f_equal.
  apply list_eq. intros i. rewrite !list_lookup_fmap.
  destruct (decide (i < np.size_of (np.shape a))) as [Hi|Hi].
  - rewrite lookup_seq_lt by done. cbn. unfold np.item. cbn [np.shape np.elems].
    rewrite broadcast_index_unravel, ravel_unravel by done.
    destruct (lookup_lt_is_Some_2 (np.elems a) i) as [x Hx]; [lia|].
    rewrite Hx. cbn. by rewrite (nth_lookup_Some _ _ _ _ Hx).
  - rewrite lookup_seq_ge by lia. by rewrite (lookup_ge_None_2 (np.elems a)) by lia.
Qed.

(** [a @ b] rejects an operand of shape [()]. *)
Lemma matmul_scalar_r a b : np.shape b = [] → np.matmul a b = Raise ShapeMismatchError.
Proof. intros Hb. unfold np.matmul. rewrite Hb. by destruct (reverse (np.shape a)). Qed.

Lemma grad_of_seeded_old st t g r x :
  heap st !! r = Some x → grad_of (seeded_state st t g) r = grad x.
Proof. intros Hr. unfold grad_of. by rewrite (lookup_seeded_old _ _ _ _ _ Hr). Qed.

Lemma get_grad_assign st a g x :
  heap st !! a = Some x →
  get_grad a (assign_grad a g st) = (Ok g, assign_grad a g st).
Proof.
  intros Ha. rewrite (get_grad_ok _ _ (with_grad g x)); [done|].
  rewrite lookup_assign, Ha. cbn. by destruct (decide (a = a)).
Qed.

Section RuleTables.
Variable np_exp : float → float.
Variable np_pow : float → float → float.

Local Abbreviation backward := (Tensor.backward np_exp np_pow).
Local Abbreviation self_value := (self_value np_exp np_pow).
Local Abbreviation other_value := (other_value np_pow).

Lemma seed_and_call st t g :
  (set_grad (length (heap st)) (Some g);; backward (length (heap st))) (push st t)
  = Tensor.call np_exp np_pow (_backward t) (seeded_state st t g).
Proof. by apply seed_then_backward. Qed.

Lemma seeded_binary st self b ts tb tout g :
  heap st !! self = Some ts →
  heap st !! b = Some tb →
  operands (_backward tout) = [self; b] →
  node (_backward tout) = Some (length (heap st)) →
  (set_grad (length (heap st)) (Some g);; backward (length (heap st))) (push st tout)
  = two_assignments self b
      (self_value (_backward tout) (data ts) (data tb) (Some g))
      (other_value (_backward tout) (data ts) (data tb) (Some g))
      (seeded_state st tout g).
Proof.
  intros Hs Hb Hops Hnode. rewrite seed_and_call.
  eapply (call_binary_effect _ _ _ _ _ _ _ _ _ (with_grad (Some g) tout));
    [done|done| | | |].
  - apply fresh_ne. eauto.
  - by apply lookup_seeded_old.
  - by apply lookup_seeded_old.
  - apply lookup_seeded_new.
Qed.

Lemma seeded_unary st self ts tout g :
  heap st !! self = Some ts →
  operands (_backward tout) = [self] →
  node (_backward tout) = Some (length (heap st)) →
  (set_grad (length (heap st)) (Some g);; backward (length (heap st))) (push st tout)
  = one_assignment self (self_value (_backward tout) (data ts) (data ts) (Some g))
      (seeded_state st tout g).
Proof.
  intros Hs Hops Hnode. rewrite seed_and_call.
  eapply (call_unary_effect _ _ _ _ _ _ _ (with_grad (Some g) tout)); [done|done| |].
  - by apply lookup_seeded_old.
  - apply lookup_seeded_new.
Qed.

(** X8. For [out = a + b], whatever the flags of [a] and [b]: after
    [out.grad = g] and [out._backward()], [a.grad], [b.grad] and
    [out.grad] all hold [g], and the flags of [a] and [b] are what they
    were. *)
Theorem add_rule st a b ta tb d g :
  heap st !! a = Some ta →
  heap st !! b = Some tb →
  np.add (data ta) (data tb) = Ok d →
  let out := length (heap st) in
  ∃ st1 st3,
    Tensor.__add__ a (OTensor b) st = (Ok out, st1) ∧
    (set_grad out (Some g);; backward out) st1 = (Ok (), st3) ∧
    grad_of st3 a = Some g ∧ grad_of st3 b = Some g ∧ grad_of st3 out = Some g ∧
    requires_grad_of st3 a = Some (requires_grad ta) ∧
    requires_grad_of st3 b = Some (requires_grad tb).
Proof.
  intros Ha Hb Hd. cbv zeta. eexists _, _.
  split; [by apply (add_spec _ _ _ _ _ _ _ _ (coerce_tensor _ _) Ha Hb Hd)|].
  rewrite (seeded_binary st a b ta tb _ g Ha Hb) by reflexivity. cbn.
  split; [done|].
  assert (is_Some (heap (seeded_state st
      (out_node d (Add_backward a b (length (heap st))) {[a; b]} "+") g) !! a)) as Ha'
    by (erewrite lookup_seeded_old by done; eauto).
  assert (is_Some (heap (seeded_state st
      (out_node d (Add_backward a b (length (heap st))) {[a; b]} "+") g) !! b)) as Hb'
    by (erewrite lookup_seeded_old by done; eauto).
  destruct (grad_of_pair _ a b (Some g) (Some g) Ha' Hb') as [-> ->].
  split; [by destruct (decide (a = b))|]. split; [done|].
  split; [apply grad_of_seeded_new; eauto|].
  rewrite !requires_grad_of_assign. unfold requires_grad_of, seeded_state.
  rewrite !lookup_assign, (lookup_push_old _ _ _ _ Ha), (lookup_push_old _ _ _ _ Hb).
  by destruct (decide _), (decide _).
Qed.

(** X9. For [out = a - b]: after [out.grad = g] and
    [out._backward()], both [a.grad] and [b.grad] hold [-g] when
    [a.requires_grad] is true (the same rule as multiply: [a] does not
    get [g]), and both are what they were when it is false. *)
Theorem sub_rule st a b ta tb d g :
  heap st !! a = Some ta →
  heap st !! b = Some tb →
  np.sub (data ta) (data tb) = Ok d →
  let out := length (heap st) in
  ∃ st1 st3,
    Tensor.__sub__ a (OTensor b) st = (Ok out, st1) ∧
    (set_grad out (Some g);; backward out) st1 = (Ok (), st3) ∧
    grad_of st3 a = (if requires_grad ta then Some (np.neg g) else grad ta) ∧
    grad_of st3 b = (if requires_grad ta then Some (np.neg g) else grad tb) ∧
    grad_of st3 out = Some g.
Proof.
  intros Ha Hb Hd. cbv zeta.
  pose proof (sub_spec _ _ _ _ _ _ _ _ (coerce_tensor _ _) Ha Hb Hd) as Hop.
  destruct (requires_grad ta); eexists _, _; (split; [exact Hop|]).
  - rewrite (seeded_binary st a b ta tb _ g Ha Hb) by reflexivity. cbn.
    split; [done|].
    edestruct (grad_of_pair (seeded_state st
        (out_node d (Sub_backward a b (length (heap st))) {[a; b]} "-") g)
      a b (Some (np.neg g)) (Some (np.neg g))) as [-> ->];
      [erewrite lookup_seeded_old by done; eauto..|].
    split; [by destruct (decide (a = b))|]. split; [done|].
    apply grad_of_seeded_new; eauto.
  - rewrite seed_and_call. cbn. split; [done|].
    rewrite (grad_of_seeded_old _ _ _ _ _ Ha), (grad_of_seeded_old _ _ _ _ _ Hb).
    split; [done|]. split; [done|]. unfold grad_of. by rewrite lookup_seeded_new.
Qed.

(** X10. For [out = a @ b] with [a.requires_grad] true: the data of
    [out] is [a.data @ b.data], and after [out.grad = g] the rule
    assigns [g @ b.data.T] to [a.grad] and then [a.data.T @ g] to
    [b.grad] (which is what [a.grad] holds in the end when [a] is [b]);
    for two matrices and [g] of the shape of [out] both products exist
    and have the shapes of [a.data] and [b.data]. *)
Theorem matmul_rule st a b ta tb d g :
  heap st !! a = Some ta →
  heap st !! b = Some tb →
  requires_grad ta = true →
  np.matmul (data ta) (data tb) = Ok d →
  let out := length (heap st) in
  ∃ st1,
    Tensor.__matmul__ a (OTensor b) st = (Ok out, st1) ∧
    data_of st1 out = Some d ∧
    (∀ sg og,
       np.matmul g (np.T (data tb)) = Ok sg →
       np.matmul (np.T (data ta)) g = Ok og →
       ∃ st3,
         (set_grad out (Some g);; backward out) st1 = (Ok (), st3) ∧
         grad_of st3 a = Some (if decide (a = b) then og else sg) ∧
         grad_of st3 b = Some og ∧
         grad_of st3 out = Some g) ∧
    (length (np.shape (data ta)) = 2 → length (np.shape (data tb)) = 2 →
     np.shape g = np.shape d →
     ∃ sg og,
       np.matmul g (np.T (data tb)) = Ok sg ∧
       np.matmul (np.T (data ta)) g = Ok og ∧
       np.shape sg = np.shape (data ta) ∧ np.shape og = np.shape (data tb)).
Proof.
  intros Ha Hb Hrg Hd. cbv zeta. eexists.
  split; [by apply (matmul_spec _ _ _ _ _ _ _ _ (coerce_tensor _ _) Ha Hb Hd)|].
  split; [unfold data_of; by rewrite lookup_push_new|]. rewrite Hrg. split.
  - intros sg og Hsg Hog. eexists.
    rewrite (seeded_binary st a b ta tb _ g Ha Hb) by reflexivity.
    cbn. rewrite Hsg. cbn. rewrite Hog. cbn. split; [done|].
    edestruct (grad_of_pair (seeded_state st
        (out_node d (Matmul_backward a b (length (heap st))) {[a; b]} "@") g)
      a b (Some sg) (Some og)) as [-> ->];
      [erewrite lookup_seeded_old by done; eauto..|].
    split; [by destruct (decide (a = b))|]. split; [done|].
    apply grad_of_seeded_new; eauto.
  - intros H2a H2b Hg. by apply (matmul_products _ _ d).
Qed.

(** X11. For [out = -a], [out = a.T()] and [out = a.exp()]: after
    [out.grad = g] and [out._backward()], [a.grad] holds [-g], [g.T] and
    [np.exp(a.data) * g] respectively when [a.requires_grad] is true
    (for exp the call raises when the product does), and is what it was
    when [a.requires_grad] is false. *)
Theorem unary_rules st a ta g :
  heap st !! a = Some ta →
  let after (op : ref → M ref) :=
    (out ← op a; set_grad out (Some g);; backward out;; get_grad a) st in
  let expect (v : result np.ndarray) :=
    if requires_grad ta then result_map Some v else Ok (grad ta) in
  (after Tensor.__neg__).1 = expect (Ok (np.neg g)) ∧
  (after Tensor.T).1 = expect (Ok (np.T g)) ∧
  (after (Tensor.exp np_exp)).1 = expect (np.mul (np.map1 np_exp (data ta)) g).
Proof.
  intros Ha. cbv zeta.
  assert (∀ (op : ref → M ref) f rule tag v,
    op a st = (Ok (length (heap st)),
               push st (out_node (f (data ta))
                          (if requires_grad ta then rule a (length (heap st))
                           else Lambda_None) {[a]} tag)) →
    (∀ out, operands (rule a out) = [a] ∧ node (rule a out) = Some out ∧
            self_value (rule a out) (data ta) (data ta) (Some g) = result_map Some v) →
    ((out ← op a; set_grad out (Some g);; backward out;; get_grad a) st).1
    = (if requires_grad ta then result_map Some v else Ok (grad ta))) as Hall.
  { intros op f rule tag v Hop Hrule. rewrite (bind_ok _ _ _ _ _ Hop).
    assert (∀ (m1 m2 : M ()) (m3 : M (option np.ndarray)) s,
      (m1;; m2;; m3) s = ((m1;; m2);; m3) s) as Hassoc.
    { intros m1 m2 m3 s. unfold mbind, M_bind. by destruct (m1 s) as [[]]. }
    rewrite Hassoc.
    destruct (requires_grad ta).
    - destruct (Hrule (length (heap st))) as (Hops & Hnode & Hval).
      set (tout := out_node _ _ _ _).
      pose proof (seeded_unary st a ta tout g Ha Hops Hnode) as Hrun.
      cbn [_backward tout out_node] in Hrun. rewrite Hval in Hrun.
      destruct v as [x|e]; cbn in Hrun.
      + rewrite (bind_ok _ _ _ _ _ Hrun).
        by erewrite get_grad_assign by (by eapply lookup_seeded_old).
      + by rewrite (bind_raise _ _ _ _ _ Hrun).
    - set (tout := out_node _ _ _ _).
      pose proof (seed_and_call st tout g) as Hrun. cbn in Hrun.
      rewrite (bind_ok _ _ _ _ _ Hrun).
      by erewrite get_grad_ok by (by eapply lookup_seeded_old). }
  repeat split.
  - apply (Hall _ np.neg Neg_backward "neg"); [by apply neg_spec|done].
  - apply (Hall _ np.T T_backward "T"); [by apply T_spec|done].
  - apply (Hall _ (np.map1 np_exp) Exp_backward "exp"); [by apply exp_spec|].
    intros out. by repeat split.
Qed.

End RuleTables.

(** ** Unary operators, numbers as operands, and power *)

Section Operands.
Variable np_exp : float → float.
Variable np_pow : float → float → float.

Local Abbreviation backward := (Tensor.backward np_exp np_pow).

(** X12. [a.exp()], [-a] and [a.T()] always return a new object: its
    data is [np.exp(a.data)], [-a.data], [a.data.T]; its [shape] is the
    shape of [a.data], reversed for [T]; its operand is [{a}]; its tag
    is ["exp"], ["neg"], ["T"]; [requires_grad] is true and [grad] is
    [None]; and its rule is the closure of the method when
    [a.requires_grad] is true, the no-op default otherwise. *)
Theorem unary_forward st self ts :
  heap st !! self = Some ts →
  let out := length (heap st) in
  let spec (op : ref → M ref) (f : np.ndarray → np.ndarray)
           (shp : list nat → list nat) (rule : ref → ref → closure) (tag : string) :=
    ∃ tout, op self st = (Ok out, push st tout) ∧
      data tout = f (data ts) ∧ shape tout = shp (np.shape (data ts)) ∧
      _components tout = {[self]} ∧ _operator tout = tag ∧
      requires_grad tout = true ∧ grad tout = None ∧
      _backward tout = (if requires_grad ts then rule self out else Lambda_None) in
  spec (Tensor.exp np_exp) (np.map1 np_exp) id Exp_backward "exp" ∧
  spec Tensor.__neg__ np.neg id Neg_backward "neg" ∧
  spec Tensor.T np.T reverse T_backward "T".
Proof.
  intros Hs. cbv zeta. repeat split.
  - eexists. split; [by apply exp_spec|]. by repeat split.
  - eexists. split; [by apply neg_spec|]. by repeat split.
  - eexists. split; [by apply T_spec|]. by repeat split.
Qed.

(** X13. With a second operand that is not a Tensor and converts to
    an array of shape [()], such as a number: add, subtract, multiply
    and divide first create the leaf [Tensor(v, label=str(v))] and then
    the result, whose operands are [{self, leaf}] and whose shape is the
    shape of [self.data]; matrix-multiply raises. *)
Theorem scalar_operand st self ts v e :
  heap st !! self = Some ts →
  np_array v = Ok e →
  np.shape e = [] →
  let leaf := length (heap st) in
  let spec (op : ref → operand → M ref) (tag : string) :=
    ∃ tout, op self (OValue v) st = (Ok (S leaf), push (push st (coerced_leaf v e)) tout) ∧
      shape tout = np.shape (data ts) ∧ np.shape (data tout) = np.shape (data ts) ∧
      _components tout = {[self; leaf]} ∧ _operator tout = tag in
  spec Tensor.__add__ "+" ∧
  spec Tensor.__sub__ "-" ∧
  spec Tensor.__mul__ "*" ∧
  spec (Tensor.__truediv__ np_pow) "/" ∧
  (Tensor.__matmul__ self (OValue v) st).1 = Raise ShapeMismatchError.
Proof.
  intros Hs Hv He. cbv zeta.
  assert (∀ f rule guarded tag d,
    f (data ts) e = Ok d → np.shape d = np.shape (data ts) →
    ∃ tout, binary_outcome f rule guarded tag self (OValue v) st
            = (Ok (S (length (heap st))), push (push st (coerced_leaf v e)) tout) ∧
      shape tout = np.shape (data ts) ∧ np.shape (data tout) = np.shape (data ts) ∧
      _components tout = {[self; length (heap st)]} ∧ _operator tout = tag) as Hall.
  { intros f rule guarded tag d Hd Hsd. unfold binary_outcome, coerce_outcome.
    rewrite Hv, (lookup_push_old _ _ _ _ Hs), lookup_push_new. cbn [data coerced_leaf].
    rewrite Hd, length_push. eexists. split; [done|]. by repeat split. }
  assert (∀ op, ∃ d, np.zip op (data ts) e = Ok d ∧ np.shape d = np.shape (data ts))
    as Hzip.
  { intros op. apply zip_shapes. rewrite He. apply broadcast_shapes_nil_r. }
  repeat split.
  - rewrite add_skeleton, binary_operator_outcome.
    destruct (Hzip PrimFloat.add) as (d & Hd & Hsd). by eapply Hall.
  - rewrite sub_skeleton, binary_operator_outcome.
    destruct (Hzip PrimFloat.sub) as (d & Hd & Hsd). by eapply Hall.
  - change (Tensor.__mul__ self (OValue v))
      with (binary_operator np.mul Mul_backward true "*" self (OValue v)).
    rewrite binary_operator_outcome.
    destruct (Hzip PrimFloat.mul) as (d & Hd & Hsd). by eapply Hall.
  - rewrite truediv_skeleton, binary_operator_outcome.
    destruct (power_int_shape np_pow e (-1) minus_one_finite) as (r & Hr & Hsr).
    destruct (zip_shapes PrimFloat.mul (data ts) r (np.shape (data ts))) as (d & Hd & Hsd).
    { rewrite Hsr, He. apply broadcast_shapes_nil_r. }
    eapply (Hall _ _ _ _ d); [|done]. unfold truediv_forward. by rewrite Hr.
  - change (Tensor.__matmul__ self (OValue v))
      with (binary_operator np.matmul Matmul_backward true "@" self (OValue v)).
    rewrite binary_operator_outcome. unfold binary_outcome, coerce_outcome.
    rewrite Hv, (lookup_push_old _ _ _ _ Hs), lookup_push_new. cbn [data coerced_leaf].
    by rewrite (matmul_scalar_r _ _ He).
Qed.

(** X14. [a ** n] for an int [n] that converts to a finite float:
    the exponent becomes a new leaf [Tensor(n, label=str(n))] with
    [requires_grad] false; the result is built after it, with the shape
    of [a.data], each element of [a.data] raised to [n], operands
    [{a, leaf}] and tag ["**"]; and its rule is the no-op, so that
    after [out.grad = g] and [out._backward()], [a.grad] is what it was
    and the grad of the leaf is still [None]. *)
Theorem pow_forward st self ts n :
  heap st !! self = Some ts →
  is_infinity (Z_to_float n) = false →
  let leaf := length (heap st) in
  let out := S leaf in
  ∃ tleaf tout st1,
    Tensor.__pow__ np_pow self (VInt n) st = (Ok out, st1) ∧
    heap st1 = heap st ++ [tleaf; tout] ∧
    data tleaf = np.mk_ndarray [] [Z_to_float n] ∧
    label tleaf = StrOf (VInt n) ∧ requires_grad tleaf = false ∧
    _components tleaf = ∅ ∧
    shape tout = np.shape (data ts) ∧
    (length (np.elems (data ts)) = np.size_of (np.shape (data ts)) →
     data tout = np.mk_ndarray (np.shape (data ts))
                   (map (λ x, np_pow x (Z_to_float n)) (np.elems (data ts)))) ∧
    _components tout = {[self; leaf]} ∧ _operator tout = "**" ∧
    requires_grad tout = true ∧
    ∀ g, ∃ st3,
      (set_grad out (Some g);; backward out) st1 = (Ok (), st3) ∧
      grad_of st3 self = grad ts ∧ grad_of st3 leaf = None.
Proof.
  intros Hs Hn. cbv zeta.
  pose proof (np_array_int_small n Hn) as He.
  destruct (power_int_shape np_pow (data ts) n Hn) as (d & Hd & Hsd).
  set (tleaf := coerced_leaf (VInt n) (np.mk_ndarray [] [Z_to_float n])).
  set (tout := out_node d Lambda_None {[self; length (heap st)]} "**").
  exists tleaf, tout, (push (push st tleaf) tout).
  split; [by eapply pow_spec|].
  split; [unfold push; cbn [heap]; by rewrite <- app_assoc|].
  do 4 (split; [done|]). split; [done|]. split.
  { intros Hwf. unfold np_power in Hd. rewrite He in Hd. cbn [result_bind] in Hd.
    rewrite (zip_scalar _ _ _ Hwf) in Hd. by injection Hd as <-. }
  do 3 (split; [done|]). intros g. eexists.
  rewrite <- (length_push st tleaf), seed_and_call. cbn [_backward tout out_node].
  split; [done|]. split.
  - by erewrite grad_of_seeded_old by (by apply lookup_push_old).
  - by erewrite grad_of_seeded_old by apply lookup_push_new.
Qed.

End Operands.

(** ** [trace] and [draw_function] *)

(** A heap as the interface builds it is closed. *)
Lemma state_ok_closed st : state_ok st → heap_closed (heap st).
Proof.
  intros Hst. apply Forall_forall. intros t (i & Hi)%list_elem_of_lookup_1 c Hc.
  destruct (Hst i t Hi) as [_ Hold _ _ _]. apply Hold in Hc.
  apply lookup_lt_Some in Hi. lia.
Qed.

Lemma reachable_below st root v :
  state_ok st → reachable (heap st) root v → v ≤ root.
Proof.
  intros Hst. induction 1 as [|x c v Hc _ IH]; [done|].
  unfold components in Hc. destruct (heap st !! x) as [t|] eqn:Hx; [|set_solver].
  destruct (Hst x t Hx) as [_ Hold _ _ _]. apply Hold in Hc. lia.
Qed.


(** X15. On a heap of well-formed objects, as the interface builds
    them, and whatever the order in which sets are iterated, [trace]
    returns: [root] is a node, no node is newer than [root], and every
    edge goes from an older object to a newer one, both of them
    nodes. *)
Theorem trace_acyclic (order : gset ref → list ref) st root :
  (∀ X, order X ≡ₚ elements X) →
  state_ok st →
  root < length (heap st) →
  ∃ nodes edges,
    trace order (heap st) root = Some (nodes, edges) ∧
    root ∈ nodes ∧
    (∀ v, v ∈ nodes → v ≤ root) ∧
    (∀ c v, (c, v) ∈ edges → c < v ∧ c ∈ nodes ∧ v ∈ nodes).
Proof.
  intros Hord Hst Hroot.
  destruct (trace_correct order Hord (heap st) (state_ok_closed st Hst) root Hroot)
    as (nodes & edges & Ht & Hn & He).
  exists nodes, edges. split; [done|]. split; [apply Hn, rtc_refl|]. split.
  - intros v Hv%Hn. by eapply reachable_below.
  - intros c v [Hv Hc]%He. split; [|split; [|by apply Hn]].
    + unfold components in Hc. destruct (heap st !! v) as [t|] eqn:Hx; [|set_solver].
      destruct (Hst v t Hx) as [_ Hold _ _ _]. by apply Hold.
    + apply Hn. eapply rtc_r; [exact Hv|exact Hc].
Qed.



Section DrawCorrect.

Variable order : gset ref → list ref.
Variable edge_order : gset (ref * ref) → list (ref * ref).
Variable py_id : ref → N.
Variable py_str : value → string.
Variable h : list Tensor.
Variable root : ref.

Hypothesis order_perm : ∀ X, order X ≡ₚ elements X.
Hypothesis edge_order_perm : ∀ E, edge_order E ≡ₚ elements E.
Hypothesis closed : heap_closed h.
Hypothesis root_valid : root < length h.

Local Abbreviation uid := (uid py_id).
Local Abbreviation record_label := (record_label py_str).


End DrawCorrect.



Example draw_diamond :
  draw_function elements elements N.of_nat (λ _, "") h_diamond 3 =
    Some [Digraph "svg" [("rankdir", "LR")];
          Dot_node "2" "{  | shape (2,) }" (Some "record");
          Dot_node "2neg" "neg" None; Dot_edge "2neg" "2";
          Dot_node "3" "{  | shape (2,) }" (Some "record");
          Dot_node "3+" "+" None; Dot_edge "3+" "3";
          Dot_node "1" "{  | shape (2,) }" (Some "record");
          Dot_node "1exp" "exp" None; Dot_edge "1exp" "1";
          Dot_node "0" "{  | shape (2,) }" (Some "record");
          Dot_edge "0" "2neg"; Dot_edge "2" "3+"; Dot_edge "0" "1exp";
          Dot_edge "1" "3+"].
Proof. vm_compute. reflexivity. Qed.

(** ** A vector as left operand of matrix-multiply *)

(** A vector times a matrix is a vector. *)
Lemma matmul_vec_mat a b k m :
  np.shape a = [k] → np.shape b = [k; m] →
  ∃ c, np.matmul a b = Ok c ∧ np.shape c = [m].
Proof.
  intros Ha Hb. unfold np.matmul. rewrite Ha, Hb. cbn.
  case_decide; [|done]. eauto.
Qed.

(** Two vectors of different lengths have no product. *)
Lemma matmul_vec_vec a b k m :
  np.shape a = [k] → np.shape b = [m] → k ≠ m →
  np.matmul a b = Raise ShapeMismatchError.
Proof.
  intros Ha Hb Hne. unfold np.matmul. rewrite Ha, Hb. cbn. by case_decide.
Qed.

Section Vector.
Variable np_exp : float → float.
Variable np_pow : float → float → float.

Local Abbreviation backward := (Tensor.backward np_exp np_pow).

(** X17. For [out = a @ b] with [a] a vector of length [k], [b] a
    matrix of shape [(k, m)] with [k ≠ m], and [a.requires_grad] true:
    [out.data] has shape [(m,)], and after [out.grad = g] with [g] of
    that shape, [out._backward()] assigns a grad of shape [(k,)] to [a]
    and then raises, at [a.data.T @ g]; [b.grad] is what it was. *)
Theorem matmul_vector_rule st a b ta tb k m g :
  heap st !! a = Some ta →
  heap st !! b = Some tb →
  requires_grad ta = true →
  np.shape (data ta) = [k] →
  np.shape (data tb) = [k; m] →
  np.shape g = [m] →
  k ≠ m →
  let out := length (heap st) in
  ∃ st1 st3 d sg,
    Tensor.__matmul__ a (OTensor b) st = (Ok out, st1) ∧
    data_of st1 out = Some d ∧ np.shape d = [m] ∧
    (set_grad out (Some g);; backward out) st1 = (Raise ShapeMismatchError, st3) ∧
    grad_of st3 a = Some sg ∧ np.shape sg = [k] ∧
    grad_of st3 b = grad tb.
Proof.
  intros Ha Hb Hrg Hsa Hsb Hg Hne. cbv zeta.
  destruct (matmul_vec_mat (data ta) (data tb) k m Hsa Hsb) as (d & Hd & Hsd).
  destruct (matmul_vec_mat g (np.T (data tb)) m k Hg) as (sg & Hsg & Hssg).
  { by rewrite shape_T, Hsb. }
  assert (np.matmul (np.T (data ta)) g = Raise ShapeMismatchError) as Hog.
  { apply (matmul_vec_vec _ _ k m); [by rewrite shape_T, Hsa|done|done]. }
  assert (a ≠ b) as Hab by (intros ->; congruence).
  eexists _, _, d, sg.
  split; [by apply (matmul_spec _ _ _ _ _ _ _ _ (coerce_tensor _ _) Ha Hb Hd)|].
  split; [unfold data_of; by rewrite lookup_push_new|]. split; [done|].
  rewrite Hrg, (seeded_binary np_exp np_pow st a b ta tb _ g Ha Hb) by reflexivity.
  cbn. rewrite Hsg. cbn. rewrite Hog. cbn. split; [done|].
  split; [|split; [done|]].
  - apply grad_of_assign_same. erewrite lookup_seeded_old by done. eauto.
  - rewrite grad_of_assign_other by done. by apply grad_of_seeded_old.
Qed.

End Vector.

(** ** Composing rules *)

Section Chain.
Variable np_exp : float → float.
Variable np_pow : float → float → float.

Local Abbreviation backward := (Tensor.backward np_exp np_pow).

(** X18. For [n = -x; y = n.exp()] with [x.requires_grad] true:
    after [y.grad = g], [y._backward()] and then [n._backward()],
    [n.grad] holds [sg = np.exp(-x.data) * g] and [x.grad] holds [-sg];
    when that product raises, so do the steps. *)
Theorem chain_neg_exp st x tx g :
  heap st !! x = Some tx →
  requires_grad tx = true →
  let steps :=
    n ← Tensor.__neg__ x;
    y ← Tensor.exp np_exp n;
    set_grad y (Some g);;
    backward y;;
    backward n;;
    gn ← get_grad n;
    gx ← get_grad x;
    mret (gn, gx) in
  (steps st).1 =
    result_map (λ sg, (Some sg, Some (np.neg sg)))
               (np.mul (np.map1 np_exp (np.neg (data tx))) g).
Proof.
  intros Hx Hrg. cbv zeta.
  set (n := length (heap st)).
  set (tn := out_node (np.neg (data tx)) (Neg_backward x n) {[x]} "neg").
  set (ty := out_node (np.map1 np_exp (np.neg (data tx))) (Exp_backward n (S n)) {[n]} "exp").
  assert (Tensor.__neg__ x st = (Ok n, push st tn)) as H1.
  { rewrite (neg_spec _ _ _ Hx). by rewrite Hrg. }
  assert (length (heap (push st tn)) = S n) as Hlen by apply length_push.
  assert (heap (push st tn) !! n = Some tn) as Hn by apply lookup_push_new.
  assert (Tensor.exp np_exp n (push st tn) = (Ok (S n), push (push st tn) ty)) as H2.
  { rewrite (exp_spec _ _ _ _ Hn). by rewrite Hlen. }
  rewrite (bind_ok _ _ _ _ _ H1), (bind_ok _ _ _ _ _ H2).
  assert (∀ (m1 m2 : M ()) {A} (m3 : M A) s,
    (m1;; m2;; m3) s = ((m1;; m2);; m3) s) as Hassoc.
  { intros m1 m2 A m3 s. unfold mbind, M_bind. by destruct (m1 s) as [[]]. }
  rewrite Hassoc.
  pose proof (seeded_unary np_exp np_pow (push st tn) n tn ty g Hn) as Hrun.
  rewrite Hlen in Hrun. specialize (Hrun eq_refl eq_refl).
  change (self_value np_exp np_pow (_backward ty) (data tn) (data tn) (Some g))
    with (result_map Some (np.mul (np.map1 np_exp (np.neg (data tx))) g)) in Hrun.
  destruct (np.mul (np.map1 np_exp (np.neg (data tx))) g) as [sg|e] eqn:Hsg;
    cbn in Hrun; [|by rewrite (bind_raise _ _ _ _ _ Hrun)].
  rewrite (bind_ok _ _ _ _ _ Hrun).
  set (st4 := assign_grad n (Some sg) (seeded_state (push st tn) ty g)).
  assert (heap st4 !! n = Some (with_grad (Some sg) tn)) as Hn4.
  { unfold st4. rewrite lookup_assign.
    erewrite lookup_seeded_old by exact Hn. cbn. by destruct (decide (n = n)). }
  assert (heap st4 !! x = Some tx) as Hx4.
  { unfold st4. rewrite lookup_assign.
    erewrite lookup_seeded_old by (by apply lookup_push_old). cbn.
    destruct (decide (n = x)) as [He|]; [|done].
    apply lookup_lt_Some in Hx. unfold n in He. lia. }
  assert (backward n st4 = (Ok (), assign_grad x (Some (np.neg sg)) st4)) as H5.
  { rewrite (backward_unfold _ _ _ _ _ Hn4). by eapply call_neg. }
  rewrite (bind_ok _ _ _ _ _ H5).
  assert (x ≠ n) as Hne by (apply lookup_lt_Some in Hx; unfold n; lia).
  assert (heap (assign_grad x (Some (np.neg sg)) st4) !! n
          = Some (with_grad (Some sg) tn)) as Hn5.
  { rewrite lookup_assign, Hn4. cbn. by destruct (decide (x = n)). }
  rewrite (bind_ok _ _ _ _ _ (get_grad_ok _ _ _ Hn5)).
  by rewrite (bind_ok _ _ _ _ _ (get_grad_assign _ _ _ _ Hx4)).
Qed.

End Chain.

(** X18 at [a] in [st_ab]. *)
Lemma chain_neg_exp_witness :
  let steps :=
    n ← Tensor.__neg__ 0;
    y ← Tensor.exp exp_series n;
    set_grad y (Some ones22);;
    Tensor.backward exp_series pow_integral y;;
    Tensor.backward exp_series pow_integral n;;
    gn ← get_grad n;
    gx ← get_grad 0;
    mret (gn, gx) in
  (steps st_ab).1 =
    result_map (λ sg, (Some sg, Some (np.neg sg)))
               (np.mul (np.map1 exp_series (np.neg (data t_a))) ones22).
Proof.
  apply (chain_neg_exp exp_series pow_integral st_ab 0 t_a ones22); reflexivity.
Defined.

(** ** The properties at concrete states *)

Local Abbreviation api := (api_run exp_series pow_integral counting).
Local Abbreviation make := (construct exp_series pow_integral counting).

Lemma st_ab_api : api st_ab.
Proof.
  replace st_ab with
    (make (Call_init (VList [VList [VInt 2; VInt 4]; VList [VInt 8; VInt 16]]) None None)
       (make (Call_init (VList [VList [VInt 1; VInt 2]; VList [VInt 3; VInt 4]]) None (Some true))
          empty_state).2).2
    by (vm_compute; reflexivity).
  apply api_construct, api_construct, api_empty.
Qed.

Lemma st_div_api : api st_div.
Proof.
  replace st_div with
    (set_grad 2 (Some ones22) (make (Call_truediv 0 (OTensor 1)) st_ab).2).2
    by (vm_compute; reflexivity).
  apply api_seed, api_construct, st_ab_api.
Qed.

Lemma st_plus5_api : api st_plus5.
Proof.
  replace st_plus5 with
    (set_grad 3 (Some ones22) (make (Call_add 0 (OValue (VInt 5))) st_ab).2).2
    by (vm_compute; reflexivity).
  apply api_seed, api_construct, st_ab_api.
Qed.

Lemma st_none_api : api st_none.
Proof.
  replace st_none with
    (make (Call_exp 0) (make (Call_init (VList []) None (Some true)) empty_state).2).2
    by (vm_compute; reflexivity).
  apply api_construct, api_construct, api_empty.
Qed.

Lemma diamond_api : api (mk_state h_diamond 0).
Proof.
  replace (mk_state h_diamond 0) with
    (make (Call_add 1 (OTensor 2))
       (make (Call_neg 0)
          (make (Call_exp 0)
             (make (Call_init (VList [VInt 1; VInt 2]) None (Some true)) empty_state).2).2).2).2
    by (vm_compute; reflexivity).
  apply api_construct, api_construct, api_construct, api_construct, api_empty.
Qed.

(** X1 at the node of [a + 5] in [st_plus5]. *)
Lemma api_objects_well_formed_witness :
  shape t_sum = np.shape (data t_sum) ∧
  (∀ c, c ∈ _components t_sum → c < 3 ∧ is_Some (heap st_plus5 !! c)) ∧
  (_components t_sum = ∅ ↔ _operator t_sum = "") ∧
  (_components t_sum ≠ ∅ → requires_grad t_sum = true) ∧
  (_backward t_sum = Lambda_None ∨
   node (_backward t_sum) = Some 3 ∧
   list_to_set (operands (_backward t_sum)) = _components t_sum ∧
   tag_of (_backward t_sum) = _operator t_sum).
Proof.
  apply (api_objects_well_formed exp_series pow_integral counting st_plus5 3 t_sum);
    [exact st_plus5_api | reflexivity].
Defined.

(** X2 at the rule of [a / b] in [st_div]. *)
Lemma backward_local_witness :
  grads_changed (_components t_quotient) st_div
    (Tensor.backward exp_series pow_integral 2 st_div).2.
Proof.
  apply (backward_local exp_series pow_integral st_div 2 t_quotient);
    [exact (api_run_state_ok _ _ _ _ st_div_api) | reflexivity].
Defined.

(** X3 at the nodes of exp and of add in the diamond, where no grad is
    set, and at the node of exp in [st_none], whose operand is empty. *)
Lemma unset_grad_rules_witness :
  Tensor.backward exp_series pow_integral 1 (mk_state h_diamond 0)
  = (Raise UnsetGradientError, mk_state h_diamond 0) ∧
  Tensor.backward exp_series pow_integral 3 (mk_state h_diamond 0)
  = (Ok (), assign_grad 2 None (assign_grad 1 None (mk_state h_diamond 0))) ∧
  Tensor.backward exp_series pow_integral 1 st_none
  = (Ok (), assign_grad 0 (Some (np.mk_ndarray [0] [])) st_none).
Proof.
  split; [|split].
  - apply (unset_grad_rules exp_series pow_integral (mk_state h_diamond 0) 1
             (out_node (np.map1 exp_series (np.mk_ndarray [2] [1; 2]%float))
                       (Exp_backward 0 1) {[0]} "exp"));
      [exact (api_run_state_ok _ _ _ _ diamond_api) | reflexivity | reflexivity].
  - apply (unset_grad_rules exp_series pow_integral (mk_state h_diamond 0) 3
             (out_node (np.mk_ndarray [2] [exp_series 1 + -1; exp_series 2 + -2]%float)
                       (Add_backward 1 2 3) {[1; 2]} "+"));
      [exact (api_run_state_ok _ _ _ _ diamond_api) | reflexivity | reflexivity].
  - apply (unset_grad_rules exp_series pow_integral st_none 1 t_none_exp);
      [exact (api_run_state_ok _ _ _ _ st_none_api) | reflexivity | reflexivity].
Defined.

(** [x = Tensor([], requires_grad=True); y = Tensor([]); out = x / y;
    out._backward()] with [out.grad] unset: the rule completes and both
    grads are the empty array. *)
Example divide_empty_without_grad :
  let run :=
    (x ← Tensor.__init__ (VList []) None (Some true) [] "";
     y ← Tensor.__init__ (VList []) None None [] "";
     out ← Tensor.__truediv__ pow_integral x (OTensor y);
     Tensor.backward exp_series pow_integral out) empty_state in
  run.1 = Ok () ∧
  grad_of run.2 0 = Some (np.mk_ndarray [0] []) ∧
  grad_of run.2 1 = Some (np.mk_ndarray [0] []).
Proof. vm_compute. done. Qed.

(** X4 at the rule of [a / b] in [st_div], with [b.grad] set before the call. *)
Lemma backward_overwrites_witness :
  let before := Tensor.backward exp_series pow_integral 2 st_div in
  let after :=
    Tensor.backward exp_series pow_integral 2 (assign_grad 1 (Some ones22) st_div) in
  after.1 = before.1 ∧ (before.1 = Ok () → after.2 = before.2).
Proof.
  apply (backward_overwrites exp_series pow_integral st_div 2 t_quotient 1 (Some ones22));
    [exact (api_run_state_ok _ _ _ _ st_div_api) | reflexivity | discriminate
    | vm_compute; reflexivity].
Defined.

(** X5 at the rule of [a / b] in [st_div]. *)
Lemma backward_idempotent_witness :
  let st' := (Tensor.backward exp_series pow_integral 2 st_div).2 in
  Tensor.backward exp_series pow_integral 2 st' = (Ok (), st').
Proof.
  apply (backward_idempotent exp_series pow_integral st_div 2);
    [exact (api_run_state_ok _ _ _ _ st_div_api) | vm_compute; reflexivity].
Defined.

(** X7 at [a] and [b] in [st_ab]. *)
Lemma binary_forward_witness :
  let spec (op : ref → operand → M ref)
           (f : np.ndarray → np.ndarray → result np.ndarray) (tag : string) :=
    match f (data t_a) (data t_b) with
    | Ok d =>
        ∃ tout, op 0 (OTensor 1) st_ab = (Ok 2, push st_ab tout) ∧
          data tout = d ∧ shape tout = np.shape d ∧
          _components tout = {[0; 1]} ∧ _operator tout = tag ∧
          requires_grad tout = true ∧ grad tout = None ∧ label tout = Lit ""
    | Raise e => op 0 (OTensor 1) st_ab = (Raise e, st_ab)
    end in
  spec Tensor.__sub__ np.sub "-" ∧
  spec Tensor.__mul__ np.mul "*" ∧
  spec (Tensor.__truediv__ pow_integral) (truediv_forward pow_integral) "/" ∧
  spec Tensor.__matmul__ np.matmul "@".
Proof. apply (binary_forward pow_integral st_ab 0 1 t_a t_b); reflexivity. Defined.

(** X12 at [a] in [st_ab]. *)
Lemma unary_forward_witness :
  let spec (op : ref → M ref) (f : np.ndarray → np.ndarray)
           (shp : list nat → list nat) (rule : ref → ref → closure) (tag : string) :=
    ∃ tout, op 0 st_ab = (Ok 2, push st_ab tout) ∧
      data tout = f (data t_a) ∧ shape tout = shp (np.shape (data t_a)) ∧
      _components tout = {[0]} ∧ _operator tout = tag ∧
      requires_grad tout = true ∧ grad tout = None ∧
      _backward tout = (if requires_grad t_a then rule 0 2 else Lambda_None) in
  spec (Tensor.exp exp_series) (np.map1 exp_series) id Exp_backward "exp" ∧
  spec Tensor.__neg__ np.neg id Neg_backward "neg" ∧
  spec Tensor.T np.T reverse T_backward "T".
Proof. apply (unary_forward exp_series st_ab 0 t_a); reflexivity. Defined.

(** X8 at [a + b] in [st_ab]. *)
Lemma add_rule_witness :
  ∃ st1 st3,
    Tensor.__add__ 0 (OTensor 1) st_ab = (Ok 2, st1) ∧
    (set_grad 2 (Some ones22);; Tensor.backward exp_series pow_integral 2) st1
      = (Ok (), st3) ∧
    grad_of st3 0 = Some ones22 ∧ grad_of st3 1 = Some ones22 ∧
    grad_of st3 2 = Some ones22 ∧
    requires_grad_of st3 0 = Some true ∧
    requires_grad_of st3 1 = Some false.
Proof.
  apply (add_rule exp_series pow_integral st_ab 0 1 t_a t_b (matrix22 3 6 11 20) ones22);
    [reflexivity | reflexivity | vm_compute; reflexivity].
Defined.

(** X9 at [a - b] in [st_ab]. *)
Lemma sub_rule_witness :
  ∃ st1 st3,
    Tensor.__sub__ 0 (OTensor 1) st_ab = (Ok 2, st1) ∧
    (set_grad 2 (Some ones22);; Tensor.backward exp_series pow_integral 2) st1
      = (Ok (), st3) ∧
    grad_of st3 0 = Some (np.neg ones22) ∧
    grad_of st3 1 = Some (np.neg ones22) ∧
    grad_of st3 2 = Some ones22.
Proof.
  apply (sub_rule exp_series pow_integral st_ab 0 1 t_a t_b
           (matrix22 (-1) (-2) (-5) (-12)) ones22);
    [reflexivity | reflexivity | vm_compute; reflexivity].
Defined.

(** X10 at [a @ b] in [st_ab]. *)
Lemma matmul_rule_witness :
  ∃ st1,
    Tensor.__matmul__ 0 (OTensor 1) st_ab = (Ok 2, st1) ∧
    data_of st1 2 = Some (matrix22 18 36 38 76) ∧
    (∀ sg og,
       np.matmul ones22 (np.T (data t_b)) = Ok sg →
       np.matmul (np.T (data t_a)) ones22 = Ok og →
       ∃ st3,
         (set_grad 2 (Some ones22);; Tensor.backward exp_series pow_integral 2) st1
           = (Ok (), st3) ∧
         grad_of st3 0 = Some (if decide (0 = 1) then og else sg) ∧
         grad_of st3 1 = Some og ∧
         grad_of st3 2 = Some ones22) ∧
    (length (np.shape (data t_a)) = 2 → length (np.shape (data t_b)) = 2 →
     np.shape ones22 = np.shape (matrix22 18 36 38 76) →
     ∃ sg og,
       np.matmul ones22 (np.T (data t_b)) = Ok sg ∧
       np.matmul (np.T (data t_a)) ones22 = Ok og ∧
       np.shape sg = np.shape (data t_a) ∧ np.shape og = np.shape (data t_b)).
Proof.
  apply (matmul_rule exp_series pow_integral st_ab 0 1 t_a t_b
           (matrix22 18 36 38 76) ones22);
    [reflexivity | reflexivity | reflexivity | vm_compute; reflexivity].
Defined.

(** X11 at [a] in [st_ab]. *)
Lemma unary_rules_witness :
  let after (op : ref → M ref) :=
    (out ← op 0; set_grad out (Some ones22);;
     Tensor.backward exp_series pow_integral out;; get_grad 0) st_ab in
  let expect (v : result np.ndarray) :=
    if requires_grad t_a then result_map Some v else Ok (grad t_a) in
  (after Tensor.__neg__).1 = expect (Ok (np.neg ones22)) ∧
  (after Tensor.T).1 = expect (Ok (np.T ones22)) ∧
  (after (Tensor.exp exp_series)).1
    = expect (np.mul (np.map1 exp_series (data t_a)) ones22).
Proof.
  apply (unary_rules exp_series pow_integral st_ab 0 t_a ones22); reflexivity.
Defined.

(** X13 at [a] and the number 5 in [st_ab]. *)
Lemma scalar_operand_witness :
  let spec (op : ref → operand → M ref) (tag : string) :=
    ∃ tout, op 0 (OValue (VInt 5)) st_ab
            = (Ok 3, push (push st_ab (coerced_leaf (VInt 5) (np.mk_ndarray [] [5%float])))
                          tout) ∧
      shape tout = [2; 2] ∧ np.shape (data tout) = [2; 2] ∧
      _components tout = {[0; 2]} ∧ _operator tout = tag in
  spec Tensor.__add__ "+" ∧
  spec Tensor.__sub__ "-" ∧
  spec Tensor.__mul__ "*" ∧
  spec (Tensor.__truediv__ pow_integral) "/" ∧
  (Tensor.__matmul__ 0 (OValue (VInt 5)) st_ab).1 = Raise ShapeMismatchError.
Proof.
  apply (scalar_operand pow_integral st_ab 0 t_a (VInt 5) (np.mk_ndarray [] [5%float]));
    [reflexivity | vm_compute; reflexivity | reflexivity].
Defined.

(** X14 at [a ** 2] in [st_ab]. *)
Lemma pow_forward_witness :
  ∃ tleaf tout st1,
    Tensor.__pow__ pow_integral 0 (VInt 2) st_ab = (Ok 3, st1) ∧
    heap st1 = heap st_ab ++ [tleaf; tout] ∧
    data tleaf = np.mk_ndarray [] [Z_to_float 2] ∧
    label tleaf = StrOf (VInt 2) ∧ requires_grad tleaf = false ∧
    _components tleaf = ∅ ∧
    shape tout = [2; 2] ∧
    (length (np.elems (data t_a)) = np.size_of (np.shape (data t_a)) →
     data tout = np.mk_ndarray [2; 2]
                   (map (λ x, pow_integral x (Z_to_float 2)) (np.elems (data t_a)))) ∧
    _components tout = {[0; 2]} ∧ _operator tout = "**" ∧
    requires_grad tout = true ∧
    ∀ g, ∃ st3,
      (set_grad 3 (Some g);; Tensor.backward exp_series pow_integral 3) st1 = (Ok (), st3) ∧
      grad_of st3 0 = grad t_a ∧ grad_of st3 2 = None.
Proof.
  apply (pow_forward exp_series pow_integral st_ab 0 t_a 2);
    [reflexivity | vm_compute; reflexivity].
Defined.

(** X15 at the root of the diamond. *)
Lemma trace_acyclic_witness :
  ∃ nodes edges,
    trace elements h_diamond 3 = Some (nodes, edges) ∧
    3 ∈ nodes ∧
    (∀ v, v ∈ nodes → v ≤ 3) ∧
    (∀ c v, (c, v) ∈ edges → c < v ∧ c ∈ nodes ∧ v ∈ nodes).
Proof.
  apply (trace_acyclic elements (mk_state h_diamond 0) 3);
    [reflexivity | exact (api_run_state_ok _ _ _ _ diamond_api) | cbn; lia].
Defined.


(** X17 at [v @ m] in [st_vm]. *)
Lemma matmul_vector_rule_witness :
  let g := np.mk_ndarray [3] [1; 1; 1]%float in
  ∃ st1 st3 d sg,
    Tensor.__matmul__ 0 (OTensor 1) st_vm = (Ok 2, st1) ∧
    data_of st1 2 = Some d ∧ np.shape d = [3] ∧
    (set_grad 2 (Some g);; Tensor.backward exp_series pow_integral 2) st1
      = (Raise ShapeMismatchError, st3) ∧
    grad_of st3 0 = Some sg ∧ np.shape sg = [2] ∧
    grad_of st3 1 = None.
Proof.
  apply (matmul_vector_rule exp_series pow_integral st_vm 0 1 t_v t_m 2 3
           (np.mk_ndarray [3] [1; 1; 1]%float));
    [reflexivity | reflexivity | reflexivity | reflexivity | reflexivity | reflexivity | lia].
Defined.

Example matmul_vector_in_st_vm :
  let g := np.mk_ndarray [3] [1; 1; 1]%float in
  let run := (out ← Tensor.__matmul__ 0 (OTensor 1); set_grad out (Some g);;
              Tensor.backward exp_series pow_integral out) st_vm in
  run.1 = Raise ShapeMismatchError ∧
  data_of run.2 2 = Some (np.mk_ndarray [3] [9; 12; 15]%float) ∧
  grad_of run.2 0 = Some (np.mk_ndarray [2] [6; 15]%float) ∧
  grad_of run.2 1 = None.
Proof. vm_compute. done. Qed.
